(** * RadeonRays short-stack intersector and Baikal path-tracing renderer

    A shallow embedding of the host-side code of
    [RadeonRays/src/intersector/intersector_short_stack.cpp] and
    [App/Renderers/PT/ptrenderer.cpp], and the properties of these two
    drivers that the design document states.

    Conventions.
    - C++ [int], [size_t] and [std::uint32_t] values are integers in [Z];
      where the source computes in 32-bit unsigned arithmetic the
      wrap-around is written with [wrap32].  Signed overflow is undefined
      in C++, so [int] arithmetic is plain [Z] arithmetic.
    - A method is a function from the object's state to a result [Res]:
      it returns, throws (keeping the state reached at the throw), or has
      undefined behaviour (a null or dangling pointer is dereferenced, an
      array is read out of range, a downcast is wrong).
    - Calls to the compute device and to the intersection API are recorded
      in a log, in program order.  The device refuses a buffer larger than
      its [max_alloc_size]; the refusal is an exception of the method that
      asked for the buffer. *)

From Stdlib Require Import ZArith List Lia Bool String.
From stdpp Require Import base option list gmap strings.

Local Open Scope Z_scope.

(** ** Machine arithmetic *)

Definition wrap32 (z : Z) : Z := z mod 2 ^ 32.

(** Conversion of a 32-bit unsigned value to [int] (two's complement). *)
Definition to_int32 (z : Z) : Z :=
  let u := wrap32 z in if u <? 2 ^ 31 then u else u - 2 ^ 32.

Definition sizeof_int : Z := 4.

(** ** Results of a method call *)

Inductive Res (St E A : Type) : Type :=
| Ret (a : A) (s : St)
| Throw (e : E) (s : St)
| Undef.
Arguments Ret {St E A} a s.
Arguments Throw {St E A} e s.
Arguments Undef {St E A}.

Definition M (St E A : Type) : Type := St -> Res St E A.

Definition ret {St E A} (a : A) : M St E A := fun s => Ret a s.

Definition bind {St E A B} (m : M St E A) (k : A -> M St E B) : M St E B :=
  fun s =>
    match m s with
    | Ret a s' => k a s'
    | Throw e s' => Throw e s'
    | Undef => Undef
    end.

Definition throw {St E A} (e : E) : M St E A := fun s => Throw e s.
Definition undefined {St E A} : M St E A := fun _ => Undef.
Definition get {St E} : M St E St := fun s => Ret s s.
Definition gets {St E A} (f : St -> A) : M St E A := fun s => Ret (f s) s.
Definition modify {St E} (f : St -> St) : M St E unit := fun s => Ret tt (f s).

(** A pointer that must not be null when it is dereferenced. *)
Definition deref {St E A} (p : option A) : M St E A :=
  match p with
  | Some a => ret a
  | None => undefined
  end.

Declare Scope mon_scope.
Delimit Scope mon_scope with mon.
Notation "'do' x <- m ; k" := (bind m (fun x => k))
  (at level 10, x name, m at level 100, k at level 200) : mon_scope.
Notation "'run' m ; k" := (bind m (fun _ => k))
  (at level 10, m at level 100, k at level 200) : mon_scope.
Local Open Scope mon_scope.

(** [for (int i = lo; i < lo + n; ++i) body(i)] *)
Fixpoint for_loop {St E} (n : nat) (lo : Z) (body : Z -> M St E unit) : M St E unit :=
  match n with
  | O => ret tt
  | S n' => run body lo; for_loop n' (lo + 1) body
  end.

(** The exceptions: [ExceptionImpl(what)] of the ray-intersection library,
    and the failure of the compute device to allocate a buffer (the
    design's [AllocationFailure], sections 4.1 and 7). *)
Inductive Exception : Type :=
| ExceptionImpl (what : string)
| AllocationFailure.

(** ** The compute device (Calc)

    Buffers live in a heap of handles; a deleted handle leaves the heap.
    [Calc::Device::DeleteBuffer] accepts a null pointer.  Deleting a handle
    that is no longer live leaves the heap as it is. *)

Module Calc.

Inductive BufferType := kRead | kWrite.
Inductive FunctionName := intersect_main | occluded_main.

Definition handle := nat.

(** [P] is the type of the host data written into buffers. *)
Inductive Op (P : Type) :=
| OpCreateBuffer (h : handle) (size : Z) (type : BufferType) (init : option P)
| OpDeleteBuffer (b : option handle)
| OpMapWrite (h : handle) (offset size : Z)
| OpUnmap (h : handle) (data : P)
| OpSetArg (f : FunctionName) (idx : Z) (b : option handle)
| OpExecute (f : FunctionName) (queueidx globalsize localsize : Z) (event : bool)
| OpFinish (queueidx : Z).
Arguments OpCreateBuffer {P} h size type init.
Arguments OpDeleteBuffer {P} b.
Arguments OpMapWrite {P} h offset size.
Arguments OpUnmap {P} h data.
Arguments OpSetArg {P} f idx b.
Arguments OpExecute {P} f queueidx globalsize localsize event.
Arguments OpFinish {P} queueidx.

Record Device (P : Type) := {
  heap : gmap handle Z;         (* live buffers and their sizes in bytes *)
  next_handle : handle;
  max_alloc_size : Z;           (* DeviceSpec::max_alloc_size *)
  log : list (Op P)
}.
Arguments heap {P} d.
Arguments next_handle {P} d.
Arguments max_alloc_size {P} d.
Arguments log {P} d.

Section Operations.
Context {P : Type}.

Definition emit (o : Op P) (d : Device P) : Device P :=
  {| heap := heap d; next_handle := next_handle d;
     max_alloc_size := max_alloc_size d; log := log d ++ [o] |}.

(** Modelled from the spec: [Calc::Device::CreateBuffer] is defined in the
    Calc library, which is not part of the sources read here; section 4.1
    of the design says that the compute abstraction "fails with
    AllocationFailure when a requested buffer exceeds max_alloc_size", and
    section 7 that the failure is surfaced.  A request over
    [max_alloc_size] is refused: [CreateBuffer] is [None] and the device
    stays as it was.  A request that is granted gets the next handle. *)
Definition CreateBuffer (size : Z) (type : BufferType) (init : option P)
    (d : Device P) : option (handle * Device P) :=
  if max_alloc_size d <? size then None
  else
    let h := next_handle d in
    Some (h, {| heap := <[h := size]> (heap d); next_handle := S h;
                max_alloc_size := max_alloc_size d;
                log := log d ++ [OpCreateBuffer h size type init] |}).

Definition DeleteBuffer (b : option handle) (d : Device P) : Device P :=
  {| heap := match b with Some h => delete h (heap d) | None => heap d end;
     next_handle := next_handle d;
     max_alloc_size := max_alloc_size d;
     log := log d ++ [OpDeleteBuffer b] |}.

(** [Buffer::GetSize()] through a pointer: the buffer has to be live. *)
Definition GetSize (b : option handle) (d : Device P) : option Z :=
  match b with
  | Some h => heap d !! h
  | None => None
  end.
End Operations.

End Calc.

(** * Part I.  The intersector: [intersector_short_stack.cpp] *)

Definition kWorkGroupSize : Z := 64.
Definition kMaxStackSize : Z := 48.
Definition kMaxBatchSize : Z := 1024 * 1024.

(** ** Array accesses

    Vectors are indexed by [int]; an access outside the vector is undefined
    behaviour and is [None] here. *)

Definition load {A} (l : list A) (k : Z) : option A :=
  if 0 <=? k then l !! Z.to_nat k else None.

Definition store {A} (l : list A) (k : Z) (v : A) : option (list A) :=
  if (0 <=? k) && (k <? Z.of_nat (length l)) then Some (<[Z.to_nat k := v]> l) else None.

(** [for (int i = lo; i < lo + n; ++i) a = body(i, a)], where a step may be
    undefined. *)
Fixpoint for_range {A} (n : nat) (lo : Z) (body : Z -> A -> option A) (a : A) : option A :=
  match n with
  | O => Some a
  | S n' => a' ← body lo a; for_range n' (lo + 1) body a'
  end.

(** ** [std::partition] and [std::upper_bound]

    [std::partition] on the iterators of a [std::vector] is the two-pointer
    algorithm for bidirectional iterators: [first] moves up over elements
    that satisfy the predicate, [last] moves down over elements that do
    not, and the two elements at which they stop are exchanged.  The
    standard promises no more than a partition; the order inside the two
    groups is whatever this algorithm leaves. *)

Inductive Phase := ScanFirst | ScanLast.

Section Partition.
Context {A : Type} (pred : A -> bool).

(** [std::iter_swap(first, last)] *)
Definition iter_swap (a : list A) (first last : nat) : list A :=
  match a !! first, a !! last with
  | Some x, Some y => <[last := x]> (<[first := y]> a)
  | _, _ => a
  end.

Fixpoint partition_loop (fuel : nat) (a : list A) (first last : nat) (ph : Phase)
  : list A * nat :=
  match fuel with
  | O => (a, first)
  | S fuel' =>
    if (first =? last)%nat then (a, first) else
    match ph with
    | ScanFirst =>
      match a !! first with
      | Some x =>
        if pred x then partition_loop fuel' a (S first) last ScanFirst
        else (* break; --last *) partition_loop fuel' a first (Nat.pred last) ScanLast
      | None => (a, first)
      end
    | ScanLast =>
      match a !! last with
      | Some y =>
        if negb (pred y) then partition_loop fuel' a first (Nat.pred last) ScanLast
        else (* break; iter_swap; ++first *)
          partition_loop fuel' (iter_swap a first last) (S first) last ScanFirst
      | None => (a, first)
      end
    end
  end.

(** The partitioned vector and the position of the partition point
    ([std::distance(begin, result)]). *)
Definition std_partition (a : list A) : list A * nat :=
  partition_loop (S (length a)) a 0 (length a) ScanFirst.

End Partition.

(** [std::upper_bound] over a sorted vector: the first position whose
    element is greater than [x] (the size of the vector when there is
    none).  [mesh_faces_start_idx] is sorted, see [starts_sorted]. *)
Fixpoint upper_bound (v : list Z) (x : Z) : Z :=
  match v with
  | [] => 0
  | y :: v' => if x <? y then 0 else 1 + upper_bound v' x
  end.

(** ** Shapes, world and options *)

(** Numeric data whose arithmetic is floating point is kept abstract. *)
Class Numerics := {
  float : Type;
  float3 : Type;
  matrix : Type;
  bbox : Type;
  transform_point : float3 -> matrix -> float3;
  transform_bbox : bbox -> matrix -> bbox;
  float_to_int : float -> Z;        (* (int)x *)
  float_gt_zero : float -> bool;    (* x > 0.f *)
  lit_0_05f : float;
  lit_10f : float;
  lit_0_5f : float;
  bbox_default : bbox;              (* bbox() *)
  sizeof_float3 : Z
}.

(** [Mesh::Face]: the three vertex indices of a triangle, local to the mesh. *)
Record MeshFace := { idx0 : Z; idx1 : Z; idx2 : Z }.

(** [FatNodeBvhTranslator::Face] *)
Record Face := { idx : Z * Z * Z; shapeidx : Z; id : Z }.

(** The built hierarchy, as far as [Process] reads it: [GetHeight()],
    [GetIndices()]; [GetNumIndices()] is the number of indices. *)
Record Bvh := { GetHeight : Z; GetIndices : list Z }.

Definition GetNumIndices (b : Bvh) : Z := Z.of_nat (length (GetIndices b)).

Section Shapes.
Context `{Numerics}.

(** [ShapeImpl::GetStateChange()] is a bit mask, [kStateChangeNone] is 0. *)
Record Mesh := {
  mesh_id : Z;
  GetFaceData : list MeshFace;
  GetVertexData : list float3;
  mesh_transform : matrix;
  mesh_state_change : Z
}.

(** The base shape of an instance is a mesh: [Process] casts it to one
    without a check. *)
Record Instance := {
  instance_id : Z;
  GetBaseShape : Mesh;
  instance_transform : matrix;
  instance_state_change : Z
}.

Inductive Shape :=
| ShapeMesh (m : Mesh)
| ShapeInstance (i : Instance).

Definition num_faces (m : Mesh) : Z := Z.of_nat (length (GetFaceData m)).
Definition num_vertices (m : Mesh) : Z := Z.of_nat (length (GetVertexData m)).

Definition is_instance (s : Shape) : bool :=
  match s with ShapeMesh _ => false | ShapeInstance _ => true end.

Definition GetId (s : Shape) : Z :=
  match s with ShapeMesh m => mesh_id m | ShapeInstance i => instance_id i end.

Definition shape_state_change (s : Shape) : Z :=
  match s with
  | ShapeMesh m => mesh_state_change m
  | ShapeInstance i => instance_state_change i
  end.

(** [static_cast<Mesh const*>(shape)]: defined when the shape is a mesh. *)
Definition as_mesh (s : Shape) : option Mesh :=
  match s with ShapeMesh m => Some m | ShapeInstance _ => None end.

(** [static_cast<Instance const*>(shape)] *)
Definition as_instance (s : Shape) : option Instance :=
  match s with ShapeMesh _ => None | ShapeInstance i => Some i end.

(** An option of the world: its value read as a float and as a string. *)
Record OptionValue := { AsFloat : float; AsString : string }.

Record World := {
  shapes_ : list Shape;
  options_ : gmap string OptionValue;
  has_changed : bool
}.

Definition kStateChangeNone : Z := 0.

(** Modelled from the spec: [World::GetStateChange] is defined in world.cpp,
    which is not part of the sources read here; section 3 of the design says
    the hierarchy is rebuilt when the world "contains a shape state-change",
    so the world's state change collects the bits of its shapes. *)
Definition GetStateChange (w : World) : Z :=
  foldr (fun s acc => Z.lor (shape_state_change s) acc) kStateChangeNone (shapes_ w).

Definition GetOption (o : gmap string OptionValue) (name : string) : option OptionValue :=
  o !! name.

(** The builder that [Process] constructs:
    [new SplitBvh(traversal_cost, num_bins, max_split_depth, min_overlap, extra_node_budget)]
    or [new Bvh(traversal_cost, num_bins, use_sah)]. *)
Inductive Builder :=
| NewSplitBvh (traversal_cost : float) (num_bins max_split_depth : Z)
    (min_overlap extra_node_budget : float)
| NewBvh (traversal_cost : float) (num_bins : Z) (use_sah : bool).

Definition select_builder (o : gmap string OptionValue) : Builder :=
  let builder := GetOption o "bvh.builder" in
  let splits := GetOption o "bvh.sah.use_splits" in
  let maxdepth := GetOption o "bvh.sah.max_split_depth" in
  let overlap := GetOption o "bvh.sah.min_overlap" in
  let tcost := GetOption o "bvh.sah.traversal_cost" in
  let node_budget := GetOption o "bvh.sah.extra_node_budget" in
  let nbins := GetOption o "bvh.sah.num_bins" in
  let max_split_depth := match maxdepth with Some v => float_to_int (AsFloat v) | None => 10 end in
  let num_bins := match nbins with Some v => float_to_int (AsFloat v) | None => 64 end in
  let min_overlap := match overlap with Some v => AsFloat v | None => lit_0_05f end in
  let traversal_cost := match tcost with Some v => AsFloat v | None => lit_10f end in
  let extra_node_budget := match node_budget with Some v => AsFloat v | None => lit_0_5f end in
  let use_sah :=
    match builder with Some v => String.eqb (AsString v) "sah" | None => false end in
  let use_splits :=
    match splits with Some v => float_gt_zero (AsFloat v) | None => false end in
  if use_splits
  then NewSplitBvh traversal_cost num_bins max_split_depth min_overlap extra_node_budget
  else NewBvh traversal_cost num_bins use_sah.

End Shapes.

(** The collaborators of [Process] whose code is elsewhere: the face bounds
    of a mesh, the hierarchy builders, the fat-node translator, and the
    OpenMP runtime that runs the iterations of the loops over the vertices
    (see [mesh_vertices] below). *)
Class Accelerator `{Numerics} := {
  (* Mesh::GetFaceBounds(faceidx, objectspace, bounds) *)
  GetFaceBounds : Mesh -> Z -> bool -> bbox;
  (* builder->Build(bounds, numbounds), on the builder constructed before *)
  Build : Builder -> list bbox -> Z -> Bvh;
  Node : Type;
  sizeof_Node : Z;
  (* FatNodeBvhTranslator::Process: the translated nodes_ *)
  translator_Process : Bvh -> list Node;
  (* FatNodeBvhTranslator::InjectIndices: nodes_ with the faces written in *)
  InjectIndices : list Node -> list Face -> list Node;
  (* what iteration i of a loop over the vertices reads in the shared
     matrix m for its vertex j, after it has stored its own transform *)
  read_shared_matrix : Z -> Z -> matrix -> matrix
}.

Section Intersector.
Context `{Accelerator}.

(** Host data written to device buffers: the mapped vertex buffer (a cell
    is [None] until it is written) and the translated nodes. *)
Inductive Payload :=
| VertexData (v : list (option float3))
| NodeData (n : list Node).

(** [IntersectorShortStack] with its [GpuData]; the two kernel functions
    created by the constructor are [Calc.intersect_main] and
    [Calc.occluded_main]. *)
Record IntersectorShortStack := {
  m_device : Calc.Device Payload;
  gpu_bvh : option Calc.handle;
  gpu_vertices : option Calc.handle;
  gpu_stack : option Calc.handle;
  m_bvh : option Bvh
}.

Definition new_IntersectorShortStack (device : Calc.Device Payload) : IntersectorShortStack :=
  {| m_device := device; gpu_bvh := None; gpu_vertices := None; gpu_stack := None;
     m_bvh := None |}.

Definition set_device (d : Calc.Device Payload) (s : IntersectorShortStack) :=
  {| m_device := d; gpu_bvh := gpu_bvh s; gpu_vertices := gpu_vertices s;
     gpu_stack := gpu_stack s; m_bvh := m_bvh s |}.
Definition set_gpu_bvh (b : option Calc.handle) (s : IntersectorShortStack) :=
  {| m_device := m_device s; gpu_bvh := b; gpu_vertices := gpu_vertices s;
     gpu_stack := gpu_stack s; m_bvh := m_bvh s |}.
Definition set_gpu_vertices (b : option Calc.handle) (s : IntersectorShortStack) :=
  {| m_device := m_device s; gpu_bvh := gpu_bvh s; gpu_vertices := b;
     gpu_stack := gpu_stack s; m_bvh := m_bvh s |}.
Definition set_gpu_stack (b : option Calc.handle) (s : IntersectorShortStack) :=
  {| m_device := m_device s; gpu_bvh := gpu_bvh s; gpu_vertices := gpu_vertices s;
     gpu_stack := b; m_bvh := m_bvh s |}.
Definition set_m_bvh (b : option Bvh) (s : IntersectorShortStack) :=
  {| m_device := m_device s; gpu_bvh := gpu_bvh s; gpu_vertices := gpu_vertices s;
     gpu_stack := gpu_stack s; m_bvh := b |}.

Definition Method (A : Type) : Type := M IntersectorShortStack Exception A.

Definition dev_op (o : Calc.Op Payload) : Method unit :=
  modify (fun s => set_device (Calc.emit o (m_device s)) s).

(** A refused buffer surfaces as an exception, in the state of the call. *)
Definition dev_CreateBuffer (size : Z) (type : Calc.BufferType) (init : option Payload)
  : Method Calc.handle :=
  fun s =>
    match Calc.CreateBuffer size type init (m_device s) with
    | Some (h, d) => Ret h (set_device d s)
    | None => Throw AllocationFailure s
    end.

Definition dev_DeleteBuffer (b : option Calc.handle) : Method unit :=
  modify (fun s => set_device (Calc.DeleteBuffer b (m_device s)) s).

(** *** The start-index tables (lines 207-228) *)

Record Starts := {
  numfaces : Z;
  numvertices : Z;
  mesh_faces_start_idx : list Z;
  mesh_vertices_start_idx : list Z
}.

Definition record_start (mesh : Mesh) (i : Z) (c : Starts) : option Starts :=
  fs ← store (mesh_faces_start_idx c) i (numfaces c);
  vs ← store (mesh_vertices_start_idx c) i (numvertices c);
  Some {| numfaces := numfaces c + num_faces mesh;
          numvertices := numvertices c + num_vertices mesh;
          mesh_faces_start_idx := fs;
          mesh_vertices_start_idx := vs |}.

Definition count_mesh (shapes : list Shape) (i : Z) (c : Starts) : option Starts :=
  shape ← load shapes i;
  mesh ← as_mesh shape;
  record_start mesh i c.

Definition count_instance (shapes : list Shape) (i : Z) (c : Starts) : option Starts :=
  shape ← load shapes i;
  instance ← as_instance shape;
  record_start (GetBaseShape instance) i c.

Definition start_indices (shapes : list Shape) (numshapes nummeshes numinstances : nat)
  : option Starts :=
  c ← for_range nummeshes 0 (count_mesh shapes)
        {| numfaces := 0; numvertices := 0;
           mesh_faces_start_idx := replicate numshapes 0;
           mesh_vertices_start_idx := replicate numshapes 0 |};
  for_range numinstances (Z.of_nat nummeshes) (count_instance shapes) c.

(** *** World-space bounds of the faces (lines 230-264)

    The iterations of the two [omp parallel for] loops write disjoint
    cells, and the matrix of an instance is declared inside its iteration
    (line 255), so they are run in index order. *)

Definition mesh_bounds (shapes : list Shape) (st : Starts) (i : Z) (bounds : list bbox)
  : option (list bbox) :=
  shape ← load shapes i;
  mesh ← as_mesh shape;
  start ← load (mesh_faces_start_idx st) i;
  for_range (length (GetFaceData mesh)) 0
    (fun j b => store b (start + j) (GetFaceBounds mesh j false)) bounds.

Definition instance_bounds (shapes : list Shape) (st : Starts) (i : Z) (bounds : list bbox)
  : option (list bbox) :=
  shape ← load shapes i;
  instance ← as_instance shape;
  let mesh := GetBaseShape instance in
  let m := instance_transform instance in
  start ← load (mesh_faces_start_idx st) i;
  for_range (length (GetFaceData mesh)) 0
    (fun j b => store b (start + j) (transform_bbox (GetFaceBounds mesh j true) m)) bounds.

Definition face_bounds (shapes : list Shape) (st : Starts) (nummeshes numinstances : nat)
  : option (list bbox) :=
  b ← for_range nummeshes 0 (mesh_bounds shapes st)
        (replicate (Z.to_nat (numfaces st)) bbox_default);
  for_range numinstances (Z.of_nat nummeshes) (instance_bounds shapes st) b.

(** *** World-space vertices written to the mapped buffer (lines 298-337)

    The two loops over the vertices are [omp parallel for] loops as well,
    and their iterations write disjoint cells.  They do not have a matrix
    of their own, though: [matrix m, minv] is declared before the loops
    (line 300), so all iterations of a loop store their transform in the
    one [m] and read it back for every vertex.  When the iterations run
    concurrently, an iteration may read what another one has stored in the
    meantime, in whole or in part.  The matrix that iteration [i] reads for
    its vertex [j], having stored [own], is [read_shared_matrix i j own];
    nothing is assumed of it.  In a build without OpenMP, or with one
    thread, it is [own].  The cells are written in index order, which the
    disjointness allows. *)

Definition mesh_vertices (shapes : list Shape) (st : Starts) (i : Z)
    (vertexdata : list (option float3)) : option (list (option float3)) :=
  shape ← load shapes i;
  mesh ← as_mesh shape;
  let own := mesh_transform mesh in
  start ← load (mesh_vertices_start_idx st) i;
  for_range (length (GetVertexData mesh)) 0
    (fun j v => p ← load (GetVertexData mesh) j;
                let m := read_shared_matrix i j own in
                store v (start + j) (Some (transform_point p m))) vertexdata.

Definition instance_vertices (shapes : list Shape) (st : Starts) (i : Z)
    (vertexdata : list (option float3)) : option (list (option float3)) :=
  shape ← load shapes i;
  instance ← as_instance shape;
  let mesh := GetBaseShape instance in
  let own := instance_transform instance in
  start ← load (mesh_vertices_start_idx st) i;
  for_range (length (GetVertexData mesh)) 0
    (fun j v => p ← load (GetVertexData mesh) j;
                let m := read_shared_matrix i j own in
                store v (start + j) (Some (transform_point p m))) vertexdata.

Definition world_vertices (shapes : list Shape) (st : Starts) (nummeshes numinstances : nat)
  : option (list (option float3)) :=
  v ← for_range nummeshes 0 (mesh_vertices shapes st)
        (replicate (Z.to_nat (numvertices st)) None);
  for_range numinstances (Z.of_nat nummeshes) (instance_vertices shapes st) v.

(** *** The face table (lines 344-391) *)

Definition face_zero : Face := {| idx := (0, 0, 0); shapeidx := 0; id := 0 |}.

Definition emit_face (shapes : list Shape) (st : Starts) (nummeshes : nat)
    (reordering : list Z) (i : Z) (facedata : list Face) : option (list Face) :=
  indextolook4 ← load reordering i;
  (* We need to find a shape corresponding to current face *)
  let iter := upper_bound (mesh_faces_start_idx st) indextolook4 in
  let shapeidx := iter - 1 in
  shape ← load shapes shapeidx;
  mesh ← (if shapeidx <? Z.of_nat nummeshes
          then as_mesh shape
          else GetBaseShape <$> as_instance shape);
  let myfacedata := GetFaceData mesh in
  start ← load (mesh_faces_start_idx st) shapeidx;
  let faceidx := indextolook4 - start in
  mystartidx ← load (mesh_vertices_start_idx st) shapeidx;
  f ← load myfacedata faceidx;
  store facedata i
    {| idx := (idx0 f + mystartidx, idx1 f + mystartidx, idx2 f + mystartidx);
       shapeidx := GetId shape;
       id := faceidx |}.

Definition make_facedata (shapes : list Shape) (st : Starts) (nummeshes : nat) (bvh : Bvh)
  : option (list Face) :=
  let numindices := length (GetIndices bvh) in
  for_range numindices 0 (emit_face shapes st nummeshes (GetIndices bvh))
    (replicate numindices face_zero).

(** *** [IntersectorShortStack::Process] *)

Definition needs_rebuild (s : IntersectorShortStack) (world : World) : bool :=
  negb (bool_decide (is_Some (m_bvh s)))
  || has_changed world
  || negb (GetStateChange world =? kStateChangeNone).

Definition what_no_stack_memory : string :=
  "fatbvh accelerator can't allocate enough stack memory, try using bvh instead".
Definition what_stack_overflow : string :=
  "fatbvh accelerator can cause stack overflow for this scene, try using bvh instead".

(** The vector [shapes] after [std::partition] and the number of meshes. *)
Definition partition_shapes (world : World) : list Shape * nat :=
  std_partition (fun shape => negb (is_instance shape)) (shapes_ world).

(** The rebuild after the check of the device (lines 154-408).  The
    builder object made at line 188 is held in [m_bvh] from then on; it is
    read only after [Build], so [m_bvh] is assigned the built hierarchy
    where the source calls [Build]. *)
Definition rebuild (world : World) : Method unit :=
  let numshapes := length (shapes_ world) in
  let builder := select_builder (options_ world) in
  let '(shapes, firstinst) := partition_shapes world in
  let nummeshes := firstinst in
  let numinstances := (length shapes - firstinst)%nat in
  do st <- deref (start_indices shapes numshapes nummeshes numinstances);
  do bounds <- deref (face_bounds shapes st nummeshes numinstances);
  let bvh := Build builder bounds (numfaces st) in
  run modify (set_m_bvh (Some bvh));
  (* Check if the tree height is reasonable *)
  if kMaxStackSize <=? GetHeight bvh then
    run modify (set_m_bvh None);
    throw (ExceptionImpl what_stack_overflow)
  else
    let nodes := translator_Process bvh in
    (* Create vertex buffer *)
    do vb <- dev_CreateBuffer (numvertices st * sizeof_float3) Calc.kRead None;
    run modify (set_gpu_vertices (Some vb));
    run dev_op (Calc.OpMapWrite vb 0 (numvertices st * sizeof_float3));
    do vertexdata <- deref (world_vertices shapes st nummeshes numinstances);
    run dev_op (Calc.OpUnmap vb (VertexData vertexdata));
    (* Create face buffer *)
    do facedata <- deref (make_facedata shapes st nummeshes bvh);
    let nodes' := InjectIndices nodes facedata in
    (* Copy translated nodes first *)
    do nb <- dev_CreateBuffer (Z.of_nat (length nodes') * sizeof_Node) Calc.kRead
               (Some (NodeData nodes'));
    run modify (set_gpu_bvh (Some nb));
    (* Stack *)
    do stack <- gets gpu_stack;
    run (match stack with
         | Some _ => run dev_DeleteBuffer stack; modify (set_gpu_stack None)
         | None => ret tt
         end);
    do sb <- dev_CreateBuffer (kMaxBatchSize * kMaxStackSize) Calc.kWrite None;
    run modify (set_gpu_stack (Some sb));
    (* Make sure everything is commited *)
    dev_op (Calc.OpFinish 0).

Definition Process (world : World) : Method unit :=
  do s <- get;
  (* If something has been changed we need to rebuild BVH *)
  if needs_rebuild s world then
    run (match m_bvh s with
         | Some _ => run dev_DeleteBuffer (gpu_bvh s); dev_DeleteBuffer (gpu_vertices s)
         | None => ret tt
         end);
    (* Check if we can allocate enough stack memory *)
    do spec <- gets (fun s => Calc.max_alloc_size (m_device s));
    if spec <=? kMaxBatchSize * kMaxStackSize * sizeof_int then
      throw (ExceptionImpl what_no_stack_memory)
    else rebuild world
  else ret tt.

(** *** [IntersectorShortStack::Intersect] and [::Occluded]

    [maxrays] is a [std::uint32_t]: [4 * maxrays * kMaxStackSize] and
    [maxrays + kWorkGroupSize - 1] are computed in 32-bit unsigned
    arithmetic before they are widened to [size_t].  [waitevent] is not
    used by either function; [event] says whether the caller passed a place
    for the completion event. *)

Definition Intersect (queueidx : Z) (rays numrays : option Calc.handle) (maxrays : Z)
    (hits : option Calc.handle) (waitevent : option nat) (event : bool) : Method unit :=
  let stack_size := wrap32 (wrap32 (4 * maxrays) * kMaxStackSize) in
  (* Check if we need to relocate memory *)
  do stack <- gets gpu_stack;
  do size <- bind (gets m_device) (fun d => deref (Calc.GetSize stack d));
  run (if size <? stack_size then
         run dev_DeleteBuffer stack;
         run modify (set_gpu_stack None);
         do b <- dev_CreateBuffer stack_size Calc.kWrite None;
         modify (set_gpu_stack (Some b))
       else ret tt);
  let func := Calc.intersect_main in
  (* Set args *)
  do a0 <- gets gpu_bvh;      run dev_op (Calc.OpSetArg func 0 a0);
  do a1 <- gets gpu_vertices; run dev_op (Calc.OpSetArg func 1 a1);
  run dev_op (Calc.OpSetArg func 2 rays);
  run dev_op (Calc.OpSetArg func 3 numrays);
  do a4 <- gets gpu_stack;    run dev_op (Calc.OpSetArg func 4 a4);
  run dev_op (Calc.OpSetArg func 5 hits);
  let localsize := kWorkGroupSize in
  let globalsize :=
    wrap32 (wrap32 (wrap32 (wrap32 (maxrays + kWorkGroupSize) - 1) / kWorkGroupSize)
            * kWorkGroupSize) in
  dev_op (Calc.OpExecute func queueidx globalsize localsize event).

Definition Occluded (queueidx : Z) (rays numrays : option Calc.handle) (maxrays : Z)
    (hits : option Calc.handle) (waitevent : option nat) (event : bool) : Method unit :=
  let stack_size := wrap32 (wrap32 (4 * maxrays) * kMaxStackSize) in
  (* Check if we need to relocate memory *)
  do stack <- gets gpu_stack;
  do size <- bind (gets m_device) (fun d => deref (Calc.GetSize stack d));
  run (if size <? stack_size then
         run dev_DeleteBuffer stack;
         run modify (set_gpu_stack None);
         do b <- dev_CreateBuffer stack_size Calc.kWrite None;
         modify (set_gpu_stack (Some b))
       else ret tt);
  let func := Calc.occluded_main in
  (* Set args *)
  do a0 <- gets gpu_bvh;      run dev_op (Calc.OpSetArg func 0 a0);
  do a1 <- gets gpu_vertices; run dev_op (Calc.OpSetArg func 1 a1);
  run dev_op (Calc.OpSetArg func 2 rays);
  run dev_op (Calc.OpSetArg func 3 numrays);
  do a4 <- gets gpu_stack;    run dev_op (Calc.OpSetArg func 4 a4);
  run dev_op (Calc.OpSetArg func 5 hits);
  let localsize := kWorkGroupSize in
  let globalsize :=
    wrap32 (wrap32 (wrap32 (wrap32 (maxrays + kWorkGroupSize) - 1) / kWorkGroupSize)
            * kWorkGroupSize) in
  dev_op (Calc.OpExecute func queueidx globalsize localsize event).

End Intersector.

(** * Part II.  The path-tracing renderer: [ptrenderer.cpp] *)

Definition kMaxLightSamples : Z := 1.

(** An output image ([Output], [ClwOutput]): [width()] and [height()] are
    [std::uint32_t]; [output_id] tells apart outputs of equal size. *)
Record Output := { output_id : nat; width : Z; height : Z }.

(** [Renderer::OutputType] by its underlying value: [kColor] is 0, the
    other values below [kMax] are the auxiliary outputs. *)
Definition OutputType := nat.
Definition kColor : OutputType := 0%nat.

(** The buffers of [RenderData]. *)
Inductive BufferName :=
| rays (i : Z)
| hits
| shadowrays
| shadowhits
| intersections
| compacted_indices
| pixelindices (i : Z)
| iota
| lightsamples
| paths
| random
| sobolmat
| hitcount.

(** The buffers of the compiled scene ([ClwScene]). *)
Inductive SceneBuffer :=
| scene_camera | scene_vertices | scene_normals | scene_uvs | scene_indices
| scene_shapes | scene_materialids | scene_materials | scene_textures
| scene_texturedata | scene_lights | scene_volumes.

(** [CameraType::kDefault] or any other camera type. *)
Inductive CameraType := kDefault | kOtherCamera.

Record ClwScene := { envmapidx : Z; num_lights : Z; camera_type : CameraType }.

(** A kernel argument, in the order of the [SetArg] calls. *)
Inductive KArg :=
| ABuffer (b : BufferName)
| AScene (b : SceneBuffer)
| AOutput (o : Output)        (* output->data() *)
| AInt (z : Z).

(** The second argument of the two overloads of [QueryIntersection]. *)
Inductive NumRays :=
| NumRaysBuffer (numrays : BufferName) (maxrays : Z)
| NumRaysInt (numrays : Z).

(** What the renderer asks of the compute context, the parallel primitives
    and the intersection API.  An intersection-API buffer is named by the
    render buffer it was created from. *)
Inductive Event {Color : Type} :=
| EvCompileScene
| EvClearOutput (o : Output) (val : Color)
| EvCreateBuffer (b : BufferName) (count : Z)
| EvApiDeleteBuffer (b : BufferName)
| EvCreateFromOpenClBuffer (b : BufferName)
| EvCopyBuffer (src dst : BufferName) (count : Z)
| EvFillBuffer (b : BufferName) (val : Z) (count : Z)
| EvLaunch1D (kernel : string) (args : list KArg) (globalsize localsize : Z)
| EvLaunch2D (kernel : string) (args : list KArg) (gs ls : Z * Z)
| EvCompact (predicate src dst count : BufferName)
| EvQueryIntersection (r : BufferName) (n : NumRays) (h : BufferName)
| EvQueryOcclusion (r : BufferName) (n : NumRays) (h : BufferName)
| EvFlush
| EvFinish.
Arguments Event Color : clear implicits.

(** The element counts of the buffers of [RenderData]; a buffer that was
    never created has none. *)
Record RenderData := {
  rays0 : Z; rays1 : Z;
  rd_hits : Z;
  rd_shadowrays : Z; rd_shadowhits : Z;
  rd_intersections : Z;
  rd_compacted_indices : Z;
  pixelindices0 : Z; pixelindices1 : Z;
  rd_iota : Z;
  rd_lightsamples : Z;
  rd_paths : Z;
  rd_random : Z;
  rd_sobolmat : Z;
  rd_hitcount : Z
}.

(** The host services of the renderer whose code is elsewhere. *)
Class Host := {
  Scene1 : Type;
  (* m_scene_controller.CompileScene(scene, mat_collector, tex_collector) *)
  CompileScene : Scene1 -> ClwScene;
  (* the value of the n-th call of rand_uint() *)
  rand_uint_nth : nat -> Z;
  (* Renderer::OutputType::kMax *)
  kMax : nat
}.

Section Renderer.
Context `{Numerics} `{Host}.

(** [PtRenderer].  [m_outputs] is the table of the base class [Renderer];
    [m_vidmemws], a statistic printed by [ResizeWorkingSet], is left out.
    Modelled from the spec: [m_framecnt] is declared in ptrenderer.h, which
    is not part of the sources read here; section 3 of the design says that
    "framecnt increments per frame", so it is an integer counter here. *)
Record PtRenderer := {
  m_outputs : gmap nat Output;
  m_render_data : RenderData;
  m_num_bounces : Z;
  m_framecnt : Z;
  rand_calls : nat;
  events : list (Event float3)
}.

Definition Rend (A : Type) : Type := M PtRenderer Exception A.

Definition emit (e : Event float3) : Rend unit :=
  modify (fun s =>
    {| m_outputs := m_outputs s; m_render_data := m_render_data s;
       m_num_bounces := m_num_bounces s; m_framecnt := m_framecnt s;
       rand_calls := rand_calls s; events := events s ++ [e] |}).

Definition set_render_data (rd : RenderData) : Rend unit :=
  modify (fun s =>
    {| m_outputs := m_outputs s; m_render_data := rd;
       m_num_bounces := m_num_bounces s; m_framecnt := m_framecnt s;
       rand_calls := rand_calls s; events := events s |}).

Definition set_framecnt (n : Z) : Rend unit :=
  modify (fun s =>
    {| m_outputs := m_outputs s; m_render_data := m_render_data s;
       m_num_bounces := m_num_bounces s; m_framecnt := n;
       rand_calls := rand_calls s; events := events s |}).

(** [rand_uint()] *)
Definition rand_uint : Rend Z :=
  fun s =>
    Ret (rand_uint_nth (rand_calls s))
      {| m_outputs := m_outputs s; m_render_data := m_render_data s;
         m_num_bounces := m_num_bounces s; m_framecnt := m_framecnt s;
         rand_calls := S (rand_calls s); events := events s |}.

(** Modelled from the spec: [Renderer::GetOutput] and [Renderer::SetOutput]
    are defined in renderer.h, which is not part of the sources read here;
    the design speaks of "the currently bound output" of a type, so the
    base class keeps one output, or none, per type. *)
Definition GetOutput (type : OutputType) : Rend (option Output) :=
  gets (fun s => m_outputs s !! type).

Definition Renderer_SetOutput (type : OutputType) (output : option Output) : Rend unit :=
  modify (fun s =>
    {| m_outputs := match output with
                    | Some o => <[type := o]> (m_outputs s)
                    | None => delete type (m_outputs s)
                    end;
       m_render_data := m_render_data s;
       m_num_bounces := m_num_bounces s; m_framecnt := m_framecnt s;
       rand_calls := rand_calls s; events := events s |}).

(** The state after the constructor: only [sobolmat] exists. *)
Definition new_PtRenderer (num_bounces : Z) : PtRenderer :=
  {| m_outputs := ∅;
     m_render_data :=
       {| rays0 := 0; rays1 := 0; rd_hits := 0; rd_shadowrays := 0; rd_shadowhits := 0;
          rd_intersections := 0; rd_compacted_indices := 0; pixelindices0 := 0;
          pixelindices1 := 0; rd_iota := 0; rd_lightsamples := 0; rd_paths := 0;
          rd_random := 0; rd_sobolmat := 1024 * 52; rd_hitcount := 0 |};
     m_num_bounces := num_bounces;
     m_framecnt := 0;
     rand_calls := 0;
     events := [EvCreateBuffer sobolmat (1024 * 52)] |}.

(** [output.width() * output.height()], a product of two [std::uint32_t]. *)
Definition pixels (o : Output) : Z := wrap32 (width o * height o).

(** [int globalsize = output->width() * output->height();] and the launch
    size [((globalsize + 63) / 64) * 64] of the one-dimensional kernels. *)
Definition launch_size (o : Output) : Z :=
  let globalsize := to_int32 (pixels o) in
  Z.quot (globalsize + 63) 64 * 64.

(** *** [PtRenderer::Clear], [::SetNumBounces] *)

Definition Clear (val : float3) (output : Output) : Rend unit :=
  run emit (EvClearOutput output val);
  set_framecnt 0.

Definition SetNumBounces (num_bounces : Z) : Rend unit :=
  modify (fun s =>
    {| m_outputs := m_outputs s; m_render_data := m_render_data s;
       m_num_bounces := num_bounces; m_framecnt := m_framecnt s;
       rand_calls := rand_calls s; events := events s |}).

(** *** [PtRenderer::ResizeWorkingSet] and [::SetOutput] *)

Definition ResizeWorkingSet (output : Output) : Rend unit :=
  let n := pixels output in
  let nl := wrap32 (n * kMaxLightSamples) in
  do s <- get;
  run emit (EvCreateBuffer (rays 0) n);
  run emit (EvCreateBuffer (rays 1) n);
  run emit (EvCreateBuffer hits n);
  run emit (EvCreateBuffer intersections n);
  run emit (EvCreateBuffer shadowrays nl);
  run emit (EvCreateBuffer shadowhits nl);
  run emit (EvCreateBuffer lightsamples nl);
  run emit (EvCreateBuffer paths n);
  run emit (EvCreateBuffer random n);
  run emit (EvCreateBuffer iota n);
  run emit (EvCreateBuffer compacted_indices n);
  run emit (EvCreateBuffer (pixelindices 0) n);
  run emit (EvCreateBuffer (pixelindices 1) n);
  run emit (EvCreateBuffer hitcount 1);
  run set_render_data
    {| rays0 := n; rays1 := n; rd_hits := n; rd_shadowrays := nl; rd_shadowhits := nl;
       rd_intersections := n; rd_compacted_indices := n; pixelindices0 := n;
       pixelindices1 := n; rd_iota := n; rd_lightsamples := nl; rd_paths := n;
       rd_random := n; rd_sobolmat := rd_sobolmat (m_render_data s); rd_hitcount := 1 |};
  (* Recreate FR buffers *)
  run emit (EvApiDeleteBuffer (rays 0));
  run emit (EvApiDeleteBuffer (rays 1));
  run emit (EvApiDeleteBuffer shadowrays);
  run emit (EvApiDeleteBuffer hits);
  run emit (EvApiDeleteBuffer shadowhits);
  run emit (EvApiDeleteBuffer intersections);
  run emit (EvApiDeleteBuffer hitcount);
  run emit (EvCreateFromOpenClBuffer (rays 0));
  run emit (EvCreateFromOpenClBuffer (rays 1));
  run emit (EvCreateFromOpenClBuffer shadowrays);
  run emit (EvCreateFromOpenClBuffer hits);
  run emit (EvCreateFromOpenClBuffer shadowhits);
  run emit (EvCreateFromOpenClBuffer intersections);
  emit (EvCreateFromOpenClBuffer hitcount).

(** [output] is a pointer: a null [output] is dereferenced on every path. *)
Definition SetOutput (type : OutputType) (output : option Output) : Rend unit :=
  do current_output <- GetOutput type;
  do new_output <- deref output;
  run (match current_output with
       | None => ResizeWorkingSet new_output
       | Some cur =>
         if (width cur <? width new_output) || (height cur <? height new_output)
         then ResizeWorkingSet new_output
         else ret tt
       end);
  Renderer_SetOutput type output.

(** *** The kernels of the bounce loop

    Each helper fetches the colour output and dereferences it for
    [output->data()] and the launch size. *)

Definition color_output : Rend Output :=
  do output <- GetOutput kColor;
  deref output.

Definition GeneratePrimaryRays (scene : ClwScene) (output : Output) : Rend unit :=
  let kernel_name :=
    match camera_type scene with
    | kDefault => "PerspectiveCamera_GeneratePaths"
    | kOtherCamera => "PerspectiveCameraDof_GeneratePaths"
    end in
  do seed <- rand_uint;
  do framecnt <- gets m_framecnt;
  let gs := (wrap32 (wrap32 (width output + 7) / 8 * 8),
             wrap32 (wrap32 (height output + 7) / 8 * 8)) in
  emit (EvLaunch2D kernel_name
          [AScene scene_camera; AInt (width output); AInt (height output);
           AInt (to_int32 seed); AInt framecnt; ABuffer (rays 0); ABuffer random;
           ABuffer sobolmat; ABuffer paths]
          gs (8, 8)).

Definition ShadeSurface (scene : ClwScene) (pass : Z) : Rend unit :=
  do output <- color_output;
  do seed <- rand_uint;
  do framecnt <- gets m_framecnt;
  emit (EvLaunch1D "ShadeSurface"
          [ABuffer (rays (Z.land pass 1)); ABuffer intersections;
           ABuffer compacted_indices; ABuffer (pixelindices (Z.land pass 1));
           ABuffer hitcount; AScene scene_vertices; AScene scene_normals;
           AScene scene_uvs; AScene scene_indices; AScene scene_shapes;
           AScene scene_materialids; AScene scene_materials; AScene scene_textures;
           AScene scene_texturedata; AInt (envmapidx scene); AScene scene_lights;
           AInt (num_lights scene); AInt seed; ABuffer random; ABuffer sobolmat;
           AInt pass; AInt framecnt; AScene scene_volumes; ABuffer shadowrays;
           ABuffer lightsamples; ABuffer paths; ABuffer (rays (Z.land (pass + 1) 1));
           AOutput output]
          (launch_size output) 64).

Definition ShadeVolume (scene : ClwScene) (pass : Z) : Rend unit :=
  do output <- color_output;
  do seed <- rand_uint;
  do framecnt <- gets m_framecnt;
  emit (EvLaunch1D "ShadeVolume"
          [ABuffer (rays (Z.land pass 1)); ABuffer intersections;
           ABuffer compacted_indices; ABuffer (pixelindices (Z.land pass 1));
           ABuffer hitcount; AScene scene_vertices; AScene scene_normals;
           AScene scene_uvs; AScene scene_indices; AScene scene_shapes;
           AScene scene_materialids; AScene scene_materials; AScene scene_textures;
           AScene scene_texturedata; AInt (envmapidx scene); AScene scene_lights;
           AInt (num_lights scene); AInt seed; ABuffer random; ABuffer sobolmat;
           AInt pass; AInt framecnt; AScene scene_volumes; ABuffer shadowrays;
           ABuffer lightsamples; ABuffer paths; ABuffer (rays (Z.land (pass + 1) 1));
           AOutput output]
          (launch_size output) 64).

Definition EvaluateVolume (scene : ClwScene) (pass : Z) : Rend unit :=
  do output <- color_output;
  do seed <- rand_uint;
  do framecnt <- gets m_framecnt;
  emit (EvLaunch1D "EvaluateVolume"
          [ABuffer (rays (Z.land pass 1)); ABuffer (pixelindices (Z.land (pass + 1) 1));
           ABuffer hitcount; AScene scene_volumes; AScene scene_textures;
           AScene scene_texturedata; AInt seed; ABuffer random; ABuffer sobolmat;
           AInt pass; AInt framecnt; ABuffer intersections; ABuffer paths;
           AOutput output]
          (launch_size output) 64).

Definition ShadeBackground (scene : ClwScene) (pass : Z) : Rend unit :=
  do output <- color_output;
  let numrays := to_int32 (pixels output) in
  emit (EvLaunch1D "ShadeBackgroundEnvMap"
          [ABuffer (rays (Z.land pass 1)); ABuffer intersections;
           ABuffer (pixelindices (Z.land (pass + 1) 1)); AInt numrays;
           AScene scene_lights; AInt (envmapidx scene); AScene scene_textures;
           AScene scene_texturedata; ABuffer paths; AScene scene_volumes;
           AOutput output]
          (launch_size output) 64).

Definition GatherLightSamples (scene : ClwScene) (pass : Z) : Rend unit :=
  do output <- color_output;
  emit (EvLaunch1D "GatherLightSamples"
          [ABuffer (pixelindices (Z.land pass 1)); ABuffer hitcount; ABuffer shadowhits;
           ABuffer lightsamples; ABuffer paths; AOutput output]
          (launch_size output) 64).

Definition RestorePixelIndices (pass : Z) : Rend unit :=
  do output <- color_output;
  emit (EvLaunch1D "RestorePixelIndices"
          [ABuffer compacted_indices; ABuffer hitcount;
           ABuffer (pixelindices (Z.land (pass + 1) 1));
           ABuffer (pixelindices (Z.land pass 1))]
          (launch_size output) 64).

Definition FilterPathStream (pass : Z) : Rend unit :=
  do output <- color_output;
  emit (EvLaunch1D "FilterPathStream"
          [ABuffer intersections; ABuffer hitcount;
           ABuffer (pixelindices (Z.land (pass + 1) 1)); ABuffer paths; ABuffer hits]
          (launch_size output) 64).

Definition ShadeMiss (scene : ClwScene) (pass : Z) : Rend unit :=
  do output <- color_output;
  emit (EvLaunch1D "ShadeMiss"
          [ABuffer (rays (Z.land pass 1)); ABuffer intersections;
           ABuffer (pixelindices (Z.land (pass + 1) 1)); ABuffer hitcount;
           AScene scene_lights; AInt (envmapidx scene); AScene scene_textures;
           AScene scene_texturedata; ABuffer paths; AScene scene_volumes;
           AOutput output]
          (launch_size output) 64).

(** *** [PtRenderer::FillAOVs] *)

(** The first bound output among the types [i], [i+1], ... below [i + n]. *)
Fixpoint first_bound_output (outputs : gmap nat Output) (n : nat) (i : nat) : option Output :=
  match n with
  | O => None
  | S n' =>
    match outputs !! i with
    | Some o => Some o
    | None => first_bound_output outputs n' (S i)
    end
  end.

(** The two arguments bound for the auxiliary output of type [i]. *)
Definition aov_args (outputs : gmap nat Output) (i : nat) : list KArg :=
  match outputs !! i with
  | Some aov => [AInt 1; AOutput aov]
  | None => [AInt 0; ABuffer hitcount]   (* This is simply a dummy buffer *)
  end.

Definition FillAOVs (scene : ClwScene) : Rend unit :=
  (* Find first non-zero AOV to get buffer dimensions *)
  do color <- GetOutput kColor;
  do outputs <- gets m_outputs;
  let found :=
    match color with
    | Some o => Some o
    | None => first_bound_output outputs (kMax - 1) 1
    end in
  do output <- deref found;
  let num_items := to_int32 (pixels output) in
  (* Generate primary *)
  run GeneratePrimaryRays scene output;
  (* Intersect ray batch *)
  run emit (EvQueryIntersection (rays 0) (NumRaysInt num_items) intersections);
  do seed <- rand_uint;
  do framecnt <- gets m_framecnt;
  emit (EvLaunch1D "FillAOVs"
          ([ABuffer (rays 0); ABuffer intersections; AInt num_items;
            AScene scene_vertices; AScene scene_normals; AScene scene_uvs;
            AScene scene_indices; AScene scene_shapes; AScene scene_materialids;
            AScene scene_materials; AScene scene_textures; AScene scene_texturedata;
            AInt (envmapidx scene); AScene scene_lights; AInt (num_lights scene);
            AInt seed; ABuffer random; ABuffer sobolmat; AInt framecnt]
           ++ flat_map (aov_args outputs) (seq 1 (kMax - 1)))
          (launch_size output) 64).

(** *** [PtRenderer::Render] *)

(** One pass of the bounce loop (lines 189-229). *)
Definition bounce (clwscene : ClwScene) (maxrays : Z) (pass : Z) : Rend unit :=
  (* Clear ray hits buffer *)
  do nhits <- gets (fun s => rd_hits (m_render_data s));
  run emit (EvFillBuffer hits 0 nhits);
  (* Intersect ray batch *)
  run emit (EvQueryIntersection (rays (Z.land pass 1)) (NumRaysBuffer hitcount maxrays)
              intersections);
  (* Apply scattering *)
  run EvaluateVolume clwscene pass;
  run (if (0 <? pass) && (-1 <? envmapidx clwscene)
       then ShadeMiss clwscene pass
       else ret tt);
  (* Convert intersections to predicates *)
  run FilterPathStream pass;
  (* Compact batch *)
  run emit (EvCompact hits iota compacted_indices hitcount);
  (* Advance indices to keep pixel indices up to date *)
  run RestorePixelIndices pass;
  (* Shade hits *)
  run ShadeVolume clwscene pass;
  (* Shade hits *)
  run ShadeSurface clwscene pass;
  (* Shade missing rays *)
  run (if pass =? 0 then ShadeBackground clwscene pass else ret tt);
  (* Intersect shadow rays *)
  run emit (EvQueryOcclusion shadowrays (NumRaysBuffer hitcount maxrays) shadowhits);
  (* Gather light samples and account for visibility *)
  run GatherLightSamples clwscene pass;
  emit EvFlush.

(** Is an output other than the colour output bound? *)
Definition aov_pass_needed (outputs : gmap nat Output) : bool :=
  bool_decide (is_Some (first_bound_output outputs (kMax - 1) 1)).

Definition Render (scene : Scene1) : Rend unit :=
  run emit EvCompileScene;
  let clwscene := CompileScene scene in
  (* Number of rays to generate *)
  do output <- GetOutput kColor;
  run (match output with
       | Some out =>
         let maxrays := to_int32 (pixels out) in
         (* Generate primary *)
         run GeneratePrimaryRays clwscene out;
         (* Copy compacted indices to track reverse indices *)
         do niota <- gets (fun s => rd_iota (m_render_data s));
         run emit (EvCopyBuffer iota (pixelindices 0) niota);
         run emit (EvCopyBuffer iota (pixelindices 1) niota);
         run emit (EvFillBuffer hitcount maxrays 1);
         (* Initialize first pass *)
         do num_bounces <- gets m_num_bounces;
         for_loop (Z.to_nat num_bounces) 0 (bounce clwscene maxrays)
       | None => ret tt
       end);
  (* Check if we have other outputs, than color *)
  do outputs <- gets m_outputs;
  run (if aov_pass_needed outputs
       then run FillAOVs clwscene; emit EvFlush
       else ret tt);
  do framecnt <- gets m_framecnt;
  set_framecnt (framecnt + 1).

(** *** [PtRenderer::RunBenchmark]

    The three measured times are wall-clock readings and are left out of
    the statistics; the calls made around them are kept. *)

Definition RunBenchmark (scene : Scene1) (num_passes : Z) : Rend (Z * (Z * Z)) :=
  do output <- color_output;
  run emit EvCompileScene;
  let clwscene := CompileScene scene in
  (* Number of rays to generate *)
  let maxrays := to_int32 (pixels output) in
  (* Generate primary *)
  run GeneratePrimaryRays clwscene output;
  do niota <- gets (fun s => rd_iota (m_render_data s));
  run emit (EvCopyBuffer iota (pixelindices 0) niota);
  run emit (EvCopyBuffer iota (pixelindices 1) niota);
  run emit (EvFillBuffer hitcount maxrays 1);
  (* Clear ray hits buffer *)
  do nhits <- gets (fun s => rd_hits (m_render_data s));
  run emit (EvFillBuffer hits 0 nhits);
  (* Intersect ray batch *)
  run for_loop (Z.to_nat num_passes) 0 (fun _ =>
        emit (EvQueryIntersection (rays 0) (NumRaysBuffer hitcount maxrays) intersections));
  run emit EvFinish;
  (* Convert intersections to predicates *)
  run FilterPathStream 0;
  (* Compact batch *)
  run emit (EvCompact hits iota compacted_indices hitcount);
  (* Advance indices to keep pixel indices up to date *)
  run RestorePixelIndices 0;
  (* Shade hits *)
  run ShadeSurface clwscene 0;
  (* Shade missing rays *)
  run ShadeMiss clwscene 0;
  (* Intersect ray batch *)
  run for_loop (Z.to_nat num_passes) 0 (fun _ =>
        emit (EvQueryOcclusion shadowrays (NumRaysBuffer hitcount maxrays) shadowhits));
  run emit EvFinish;
  (* Gather light samples and account for visibility *)
  run GatherLightSamples clwscene 0;
  run emit EvFlush;
  (* Clear ray hits buffer *)
  run emit (EvFillBuffer hits 0 nhits);
  (* Intersect ray batch *)
  run for_loop (Z.to_nat num_passes) 0 (fun _ =>
        emit (EvQueryIntersection (rays 1) (NumRaysBuffer hitcount maxrays) intersections));
  run emit EvFinish;
  (* Convert intersections to predicates *)
  run FilterPathStream 1;
  (* Compact batch *)
  run emit (EvCompact hits iota compacted_indices hitcount);
  (* Advance indices to keep pixel indices up to date *)
  run RestorePixelIndices 1;
  (* Shade hits *)
  run ShadeSurface clwscene 1;
  (* Shade missing rays *)
  run ShadeMiss clwscene 1;
  run emit (EvQueryOcclusion shadowrays (NumRaysBuffer hitcount maxrays) shadowhits);
  (* Gather light samples and account for visibility *)
  run GatherLightSamples clwscene 0;
  run emit EvFlush;
  ret (num_passes, (width output, height output)).

(** *** The public methods of [PtRenderer] as calls *)

Inductive Call :=
| CallCreateOutput (w h : Z)
| CallDeleteOutput (output : Output)
| CallClear (val : float3) (output : Output)
| CallSetNumBounces (num_bounces : Z)
| CallRender (scene : Scene1)
| CallSetOutput (type : OutputType) (output : option Output)
| CallRunBenchmark (scene : Scene1) (num_passes : Z)
| CallGetCopyKernel
| CallGetAccumulateKernel.

(** [CreateOutput] and [DeleteOutput] are [const] and touch no member;
    [GetCopyKernel] and [GetAccumulateKernel] only look a kernel up. *)
Definition call (c : Call) : Rend unit :=
  match c with
  | CallCreateOutput _ _ => ret tt
  | CallDeleteOutput _ => ret tt
  | CallClear val output => Clear val output
  | CallSetNumBounces n => SetNumBounces n
  | CallRender scene => Render scene
  | CallSetOutput type output => SetOutput type output
  | CallRunBenchmark scene n => run RunBenchmark scene n; ret tt
  | CallGetCopyKernel => ret tt
  | CallGetAccumulateKernel => ret tt
  end.

(** A sequence of calls, stopped by the first that throws or is undefined. *)
Fixpoint calls (cs : list Call) : Rend unit :=
  match cs with
  | [] => ret tt
  | c :: cs' => run call c; calls cs'
  end.

End Renderer.

(** * Vocabulary of the properties *)

Section Vocabulary.
Context `{Accelerator}.

(** The mesh whose geometry a shape has: the mesh itself, or the base of
    the instance. *)
Definition base_mesh (s : Shape) : Mesh :=
  match s with
  | ShapeMesh m => m
  | ShapeInstance i => GetBaseShape i
  end.

(** The number of faces, and of vertices, of the first [k] shapes. *)
Definition faces_before (shapes : list Shape) (k : nat) : Z :=
  foldr (fun s acc => num_faces (base_mesh s) + acc) 0 (take k shapes).

Definition vertices_before (shapes : list Shape) (k : nat) : Z :=
  foldr (fun s acc => num_vertices (base_mesh s) + acc) 0 (take k shapes).

(** Two elements of one group (both meshes, or both instances) that occur
    in [l] in some order occur in [l'] in that order. *)
Definition keeps_group_order (l l' : list Shape) : Prop :=
  forall (i j : nat) (a b : Shape),
    (i < j)%nat -> l !! i = Some a -> l !! j = Some b ->
    is_instance a = is_instance b ->
    exists i' j' : nat, (i' < j')%nat /\ l' !! i' = Some a /\ l' !! j' = Some b.

(** What [Process] computes on the way for a world: the start tables of the
    partitioned shapes, the built hierarchy and the face table handed to
    the translator. *)
Definition process_starts (world : World) : option Starts :=
  let '(shapes, nummeshes) := partition_shapes world in
  start_indices shapes (length (shapes_ world)) nummeshes (length shapes - nummeshes).

Definition process_bvh (world : World) : option Bvh :=
  let '(shapes, nummeshes) := partition_shapes world in
  st ← process_starts world;
  bounds ← face_bounds shapes st nummeshes (length shapes - nummeshes);
  Some (Build (select_builder (options_ world)) bounds (numfaces st)).

Definition process_facedata (world : World) : option (list Face) :=
  let '(shapes, nummeshes) := partition_shapes world in
  st ← process_starts world;
  bvh ← process_bvh world;
  make_facedata shapes st nummeshes bvh.

(** The face that the face table holds for the primitive index [x]: the
    owning shape is at the position before the upper bound of [x] in the
    table of face starts; the face is numbered inside that shape, its
    vertices are those of the base mesh shifted by the shape's vertex
    start, and it carries the shape's id. *)
Definition face_for (shapes : list Shape) (st : Starts) (x : Z) (face : Face) : Prop :=
  exists (k : nat) (shape : Shape) (f : MeshFace) (fstart vstart : Z),
    Z.of_nat k = upper_bound (mesh_faces_start_idx st) x - 1 /\
    shapes !! k = Some shape /\
    mesh_faces_start_idx st !! k = Some fstart /\
    mesh_vertices_start_idx st !! k = Some vstart /\
    load (GetFaceData (base_mesh shape)) (x - fstart) = Some f /\
    face = {| idx := (idx0 f + vstart, idx1 f + vstart, idx2 f + vstart);
              shapeidx := GetId shape;
              id := x - fstart |}.

(** A face of the table resolves to a face of a mesh of the world: the
    world has a shape with the id [shapeidx face]; every such shape has, in
    its base mesh, a face number [id face], and the vertex indices of the
    table's face are the indices of that mesh-local face, all shifted by
    one offset. *)
Definition resolves (world : World) (face : Face) : Prop :=
  exists (f : MeshFace) (offset : Z),
    (exists shape, shape ∈ shapes_ world /\ GetId shape = shapeidx face) /\
    (forall shape, shape ∈ shapes_ world -> GetId shape = shapeidx face ->
       load (GetFaceData (base_mesh shape)) (id face) = Some f) /\
    idx face = (idx0 f + offset, idx1 f + offset, idx2 f + offset).

(** The state of [Process] after the buffers of an old hierarchy were
    released (lines 140-144). *)
Definition after_release (s : IntersectorShortStack) : IntersectorShortStack :=
  match m_bvh s with
  | Some _ =>
    set_device (Calc.DeleteBuffer (gpu_vertices s)
                  (Calc.DeleteBuffer (gpu_bvh s) (m_device s))) s
  | None => s
  end.

(** The state that a completed rebuild leaves: three new buffers, the old
    stack buffer deleted, the new hierarchy stored. *)
Definition rebuilt (s : IntersectorShortStack) (st : Starts) (bvh : Bvh)
    (vertexdata : list (option float3)) (facedata : list Face) : IntersectorShortStack :=
  let d := m_device s in
  let h := Calc.next_handle d in
  let nodes := InjectIndices (translator_Process bvh) facedata in
  {| m_device :=
       {| Calc.heap :=
            <[S (S h) := kMaxBatchSize * kMaxStackSize]>
              (match gpu_stack s with
               | Some old => delete old
               | None => fun m => m
               end
                 (<[S h := Z.of_nat (length nodes) * sizeof_Node]>
                    (<[h := numvertices st * sizeof_float3]> (Calc.heap d))));
          Calc.next_handle := S (S (S h));
          Calc.max_alloc_size := Calc.max_alloc_size d;
          Calc.log :=
            Calc.log d ++
            [Calc.OpCreateBuffer h (numvertices st * sizeof_float3) Calc.kRead None;
             Calc.OpMapWrite h 0 (numvertices st * sizeof_float3);
             Calc.OpUnmap h (VertexData vertexdata);
             Calc.OpCreateBuffer (S h) (Z.of_nat (length nodes) * sizeof_Node) Calc.kRead
               (Some (NodeData nodes))] ++
            match gpu_stack s with
            | Some old => [Calc.OpDeleteBuffer (Some old)]
            | None => []
            end ++
            [Calc.OpCreateBuffer (S (S h)) (kMaxBatchSize * kMaxStackSize) Calc.kWrite None;
             Calc.OpFinish 0] |};
     gpu_bvh := Some (S h);
     gpu_vertices := Some h;
     gpu_stack := Some (S (S h));
     m_bvh := Some bvh |}.

(** The states in which a rebuild is refused a buffer.  The vertex buffer
    is refused after the hierarchy was built and stored; the node buffer is
    refused after the vertices were uploaded; the stack buffer is refused
    after the nodes were uploaded and the old stack buffer was deleted. *)
Definition hierarchy_built (s : IntersectorShortStack) (bvh : Bvh) : IntersectorShortStack :=
  set_m_bvh (Some bvh) s.

Definition vertices_uploaded (s : IntersectorShortStack) (st : Starts) (bvh : Bvh)
    (vertexdata : list (option float3)) : IntersectorShortStack :=
  let d := m_device s in
  let h := Calc.next_handle d in
  {| m_device :=
       {| Calc.heap := <[h := numvertices st * sizeof_float3]> (Calc.heap d);
          Calc.next_handle := S h;
          Calc.max_alloc_size := Calc.max_alloc_size d;
          Calc.log :=
            Calc.log d ++
            [Calc.OpCreateBuffer h (numvertices st * sizeof_float3) Calc.kRead None;
             Calc.OpMapWrite h 0 (numvertices st * sizeof_float3);
             Calc.OpUnmap h (VertexData vertexdata)] |};
     gpu_bvh := gpu_bvh s;
     gpu_vertices := Some h;
     gpu_stack := gpu_stack s;
     m_bvh := Some bvh |}.

Definition nodes_uploaded (s : IntersectorShortStack) (st : Starts) (bvh : Bvh)
    (vertexdata : list (option float3)) (facedata : list Face) : IntersectorShortStack :=
  let d := m_device s in
  let h := Calc.next_handle d in
  let nodes := InjectIndices (translator_Process bvh) facedata in
  {| m_device :=
       {| Calc.heap :=
            match gpu_stack s with
            | Some old => delete old
            | None => fun m => m
            end
              (<[S h := Z.of_nat (length nodes) * sizeof_Node]>
                 (<[h := numvertices st * sizeof_float3]> (Calc.heap d)));
          Calc.next_handle := S (S h);
          Calc.max_alloc_size := Calc.max_alloc_size d;
          Calc.log :=
            Calc.log d ++
            [Calc.OpCreateBuffer h (numvertices st * sizeof_float3) Calc.kRead None;
             Calc.OpMapWrite h 0 (numvertices st * sizeof_float3);
             Calc.OpUnmap h (VertexData vertexdata);
             Calc.OpCreateBuffer (S h) (Z.of_nat (length nodes) * sizeof_Node) Calc.kRead
               (Some (NodeData nodes))] ++
            match gpu_stack s with
            | Some old => [Calc.OpDeleteBuffer (Some old)]
            | None => []
            end |};
     gpu_bvh := Some (S h);
     gpu_vertices := Some h;
     gpu_stack := None;
     m_bvh := Some bvh |}.

(** The state in which [Intersect] and [Occluded] are refused the larger
    stack buffer: the old one is deleted and the pointer is null
    (lines 418-419). *)
Definition stack_released (s : IntersectorShortStack) : IntersectorShortStack :=
  set_gpu_stack None (set_device (Calc.DeleteBuffer (gpu_stack s) (m_device s)) s).

(** The stack size that [Intersect] and [Occluded] compute (line 414), in
    the 32-bit arithmetic of [maxrays]. *)
Definition required_stack_size (maxrays : Z) : Z :=
  wrap32 (wrap32 (4 * maxrays) * kMaxStackSize).

(** The least size the device has to allow for [Process] to go on. *)
Definition stack_memory_limit : Z := kMaxBatchSize * kMaxStackSize * sizeof_int.

(** Device operations with the kernel function exchanged. *)
Definition other_function (f : Calc.FunctionName) : Calc.FunctionName :=
  match f with
  | Calc.intersect_main => Calc.occluded_main
  | Calc.occluded_main => Calc.intersect_main
  end.

Definition exchange_function (o : Calc.Op Payload) : Calc.Op Payload :=
  match o with
  | Calc.OpSetArg f i b => Calc.OpSetArg (other_function f) i b
  | Calc.OpExecute f q g l e => Calc.OpExecute (other_function f) q g l e
  | _ => o
  end.

(** The state [s1] that a call left when it started in [s], with the kernel
    function exchanged in the operations the call added to the log. *)
Definition exchange_since (s s1 : IntersectorShortStack) : IntersectorShortStack :=
  let d := m_device s1 in
  let old := length (Calc.log (m_device s)) in
  set_device
    {| Calc.heap := Calc.heap d;
       Calc.next_handle := Calc.next_handle d;
       Calc.max_alloc_size := Calc.max_alloc_size d;
       Calc.log := take old (Calc.log d) ++ (exchange_function <$> drop old (Calc.log d)) |}
    s1.

(** [g] is the smallest multiple of [m] that is at least [n]. *)
Definition smallest_multiple_at_least (m n g : Z) : Prop :=
  (m | g) /\ n <= g /\ forall g', (m | g') -> n <= g' -> g <= g'.

End Vocabulary.

(** ** Vocabulary of the renderer's properties *)

(** What a frame dispatches: the kernels by name, the two queries of the
    intersection API and the compaction.  Copies, fills and flushes are no
    dispatches. *)
Inductive Dispatch :=
| IntersectionQuery
| OcclusionQuery
| Compaction
| Kernel (name : string).

Definition dispatch_of {Color : Type} (e : Event Color) : option Dispatch :=
  match e with
  | EvLaunch1D kernel _ _ _ => Some (Kernel kernel)
  | EvLaunch2D kernel _ _ _ => Some (Kernel kernel)
  | EvCompact _ _ _ _ => Some Compaction
  | EvQueryIntersection _ _ _ => Some IntersectionQuery
  | EvQueryOcclusion _ _ _ => Some OcclusionQuery
  | _ => None
  end.

Definition dispatches {Color : Type} (evs : list (Event Color)) : list Dispatch :=
  omap dispatch_of evs.

(** The dispatches of one pass of the bounce loop, in the words of the
    design: intersection query, EvaluateVolume, ShadeMiss on a pass after
    the first when there is an environment map, FilterPathStream,
    compaction, RestorePixelIndices, ShadeVolume, ShadeSurface,
    ShadeBackgroundEnvMap on the first pass, occlusion query,
    GatherLightSamples. *)
Definition pass_dispatches (pass envmapidx : Z) : list Dispatch :=
  [IntersectionQuery; Kernel "EvaluateVolume"]
  ++ (if (0 <? pass) && (-1 <? envmapidx) then [Kernel "ShadeMiss"] else [])
  ++ [Kernel "FilterPathStream"; Compaction; Kernel "RestorePixelIndices";
      Kernel "ShadeVolume"; Kernel "ShadeSurface"]
  ++ (if pass =? 0 then [Kernel "ShadeBackgroundEnvMap"] else [])
  ++ [OcclusionQuery; Kernel "GatherLightSamples"].

(** The kernel that generates the primary rays. *)
Definition generate_kernel (scene : ClwScene) : string :=
  match camera_type scene with
  | kDefault => "PerspectiveCamera_GeneratePaths"
  | kOtherCamera => "PerspectiveCameraDof_GeneratePaths"
  end.

(** The dispatches of the pass that fills the auxiliary outputs. *)
Definition aov_dispatches (scene : ClwScene) : list Dispatch :=
  [Kernel (generate_kernel scene); IntersectionQuery; Kernel "FillAOVs"].

(** The working set holds [n] elements per pixel buffer. *)
Definition working_set_of (n : Z) (rd : RenderData) : Prop :=
  rays0 rd = n /\ rays1 rd = n /\ rd_hits rd = n /\ rd_intersections rd = n /\
  rd_shadowrays rd = wrap32 (n * kMaxLightSamples) /\
  rd_shadowhits rd = wrap32 (n * kMaxLightSamples) /\
  rd_lightsamples rd = wrap32 (n * kMaxLightSamples) /\
  rd_paths rd = n /\ rd_random rd = n /\ rd_iota rd = n /\
  rd_compacted_indices rd = n /\ pixelindices0 rd = n /\ pixelindices1 rd = n /\
  rd_hitcount rd = 1.

Section RendererVocabulary.
Context `{Numerics} `{Host}.

(** The events that a call added. *)
Definition events_since (s s' : PtRenderer) : list (Event float3) :=
  drop (length (events s)) (events s').

(** The dispatches of a frame: with a colour output, the generation of the
    primary rays and the passes of the bounce loop; then, with an auxiliary
    output, the pass that fills it. *)
Definition frame_dispatches (scene : Scene1) (s : PtRenderer) : list Dispatch :=
  let clwscene := CompileScene scene in
  match m_outputs s !! kColor with
  | Some _ =>
    Kernel (generate_kernel clwscene)
    :: flat_map (fun pass => pass_dispatches pass (envmapidx clwscene))
         (seqZ 0 (m_num_bounces s))
  | None => []
  end
  ++ (if aov_pass_needed (m_outputs s) then aov_dispatches clwscene else []).

(** [SetOutput type output] finds no output of the type bound, or one that
    is smaller than [output] in width or in height. *)
Definition must_resize (s : PtRenderer) (type : OutputType) (output : Output) : Prop :=
  match m_outputs s !! type with
  | None => True
  | Some cur => width cur < width output \/ height cur < height output
  end.

(** The number of [Render] calls in a sequence of calls, and whether it has
    a [Clear]. *)
Definition is_render (c : Call) : bool :=
  match c with CallRender _ => true | _ => false end.

Definition is_clear (c : Call) : bool :=
  match c with CallClear _ _ => true | _ => false end.

Definition renders (cs : list Call) : Z := Z.of_nat (length (filter (fun c => is_render c = true) cs)).

End RendererVocabulary.

(** * Sample inputs

    Concrete numerics, a concrete builder and small worlds, on which the
    definitions above are evaluated. *)

(** Fixed-point numbers with three decimals: a float is its value in
    thousandths, a matrix is a translation, a box is its two corners. *)
#[export] Instance fixed_point : Numerics := {|
  float := Z;
  float3 := Z * Z * Z;
  matrix := Z * Z * Z;
  bbox := (Z * Z * Z) * (Z * Z * Z);
  transform_point := fun '(x, y, z) '(dx, dy, dz) => (x + dx, y + dy, z + dz);
  transform_bbox := fun '((x, y, z), (x', y', z')) '(dx, dy, dz) =>
    ((x + dx, y + dy, z + dz), (x' + dx, y' + dy, z' + dz));
  float_to_int := fun x => Z.quot x 1000;
  float_gt_zero := fun x => 0 <? x;
  lit_0_05f := 50;
  lit_10f := 10000;
  lit_0_5f := 500;
  bbox_default := ((0, 0, 0), (0, 0, 0));
  sizeof_float3 := 16
|}.

Definition corner (pick : Z -> Z -> Z) (p q : Z * Z * Z) : Z * Z * Z :=
  let '(x, y, z) := p in
  let '(x', y', z') := q in
  (pick x x', pick y y', pick z z').

(** The box around the three vertices of a face. *)
Definition sample_face_bounds (mesh : Mesh) (j : Z) (objectspace : bool)
  : (Z * Z * Z) * (Z * Z * Z) :=
  let vertex k := default (0, 0, 0) (load (GetVertexData mesh) k) in
  let f := default {| idx0 := 0; idx1 := 0; idx2 := 0 |} (load (GetFaceData mesh) j) in
  let (a, b) := (vertex (idx0 f), vertex (idx1 f)) in
  let c := vertex (idx2 f) in
  let box := (corner Z.min (corner Z.min a b) c, corner Z.max (corner Z.max a b) c) in
  if objectspace then box else transform_bbox box (mesh_transform mesh).

(** A builder that hangs one primitive below the other: the hierarchy is as
    high as there are primitives and keeps their order.  The translated
    node of a primitive is its face.  The loops over the vertices run
    undisturbed: every iteration reads the transform it has stored. *)
#[export] Instance chain_builder : Accelerator := {|
  GetFaceBounds := sample_face_bounds;
  Build := fun _ _ numbounds =>
    {| GetHeight := numbounds; GetIndices := seqZ 0 numbounds |};
  Node := Face;
  sizeof_Node := 32;
  translator_Process := fun bvh => replicate (length (GetIndices bvh)) face_zero;
  InjectIndices := fun _ faces => faces;
  read_shared_matrix := fun _ _ own => own
|}.

Definition triangle (id : Z) : Mesh :=
  {| mesh_id := id;
     GetFaceData := [ {| idx0 := 0; idx1 := 1; idx2 := 2 |} ];
     GetVertexData := [ (0, 0, -1000); (1000, 0, -1000); (0, 1000, -1000) ];
     mesh_transform := (0, 0, 0);
     mesh_state_change := 0 |}.

Definition quad (id : Z) : Mesh :=
  {| mesh_id := id;
     GetFaceData := [ {| idx0 := 0; idx1 := 1; idx2 := 2 |};
                      {| idx0 := 0; idx1 := 2; idx2 := 3 |} ];
     GetVertexData := [ (0, 0, 0); (1000, 0, 0); (1000, 1000, 0); (0, 1000, 0) ];
     mesh_transform := (0, 0, 5000);
     mesh_state_change := 0 |}.

(** A strip of [n] triangles over [n + 2] vertices. *)
Definition strip (id : Z) (n : nat) : Mesh :=
  {| mesh_id := id;
     GetFaceData := (fun i => {| idx0 := i; idx1 := i + 1; idx2 := i + 2 |})
                      <$> seqZ 0 (Z.of_nat n);
     GetVertexData := (fun i => (i * 1000, (i mod 2) * 1000, 0))
                        <$> seqZ 0 (Z.of_nat n + 2);
     mesh_transform := (0, 0, 0);
     mesh_state_change := 0 |}.

Definition instance_of (id : Z) (base : Mesh) (dx : Z) : Instance :=
  {| instance_id := id; GetBaseShape := base;
     instance_transform := (dx, 0, 0); instance_state_change := 0 |}.

Definition world_of (shapes : list Shape) (changed : bool) : World :=
  {| shapes_ := shapes; options_ := ∅; has_changed := changed |}.

(** An instance listed before two meshes. *)
Definition instance_first_world : World :=
  world_of [ ShapeInstance (instance_of 3 (triangle 1) 2000);
             ShapeMesh (triangle 1);
             ShapeMesh (quad 2) ] true.

(** A mesh, an instance of it and a second mesh. *)
Definition small_world : World :=
  world_of [ ShapeMesh (triangle 1);
             ShapeInstance (instance_of 3 (triangle 1) 2000);
             ShapeMesh (quad 2) ] true.

(** Two meshes with one id. *)
Definition dup_world : World :=
  world_of [ ShapeMesh (triangle 1); ShapeMesh (quad 1) ] true.

(** One strip of 48 triangles: the chain over it is 48 high. *)
Definition strip_world : World :=
  world_of [ ShapeMesh (strip 1 48) ] true.

(** A device that allows allocations of one GiB, and one that allows no
    more than the stack needs. *)
Definition sample_device (max_alloc : Z) : Calc.Device Payload :=
  {| Calc.heap := ∅; Calc.next_handle := 0%nat; Calc.max_alloc_size := max_alloc;
     Calc.log := [] |}.

Definition fresh_intersector : IntersectorShortStack :=
  new_IntersectorShortStack (sample_device (2 ^ 30)).

Definition starved_intersector : IntersectorShortStack :=
  new_IntersectorShortStack (sample_device stack_memory_limit).

(** Whether a method returned, and the state it left if it did. *)
Definition returns {St E A} (r : Res St E A) : bool :=
  match r with
  | Ret _ _ => true
  | _ => false
  end.

Definition state_after {St E A} (r : Res St E A) (otherwise : St) : St :=
  match r with
  | Ret _ s => s
  | _ => otherwise
  end.

(** The intersector after it has processed [small_world] once. *)
Definition used_intersector : IntersectorShortStack :=
  state_after (Process small_world fresh_intersector) fresh_intersector.

(** The same on a device that allows allocations of eight GiB. *)
Definition roomy_intersector : IntersectorShortStack :=
  state_after (Process small_world (new_IntersectorShortStack (sample_device (2 ^ 33))))
    (new_IntersectorShortStack (sample_device (2 ^ 33))).

(** A host whose scenes are compiled already, with a congruential
    generator and seven output types. *)
#[export] Instance sample_host : Host := {|
  Scene1 := ClwScene;
  CompileScene := fun scene => scene;
  rand_uint_nth := fun n => wrap32 (Z.of_nat n * 1664525 + 1013904223);
  kMax := 7
|}.

Definition sample_scene : ClwScene :=
  {| envmapidx := -1; num_lights := 1; camera_type := kDefault |}.

(** A scene with an environment map. *)
Definition envmap_scene : ClwScene :=
  {| envmapidx := 0; num_lights := 1; camera_type := kDefault |}.

Definition output_of (id : nat) (w h : Z) : Output :=
  {| output_id := id; width := w; height := h |}.

(** A renderer with two bounces, as constructed. *)
Definition fresh_renderer : PtRenderer := new_PtRenderer 2.

(** The renderer with an auxiliary output of 4 by 4 bound, and no colour
    output. *)
Definition aov_only_renderer : PtRenderer :=
  state_after (SetOutput 1%nat (Some (output_of 1 4 4)) fresh_renderer) fresh_renderer.

(** The renderer with a colour output of 4 by 4 bound. *)
Definition color_renderer : PtRenderer :=
  state_after (SetOutput kColor (Some (output_of 1 4 4)) fresh_renderer) fresh_renderer.

(** Binding colour outputs of 512 by 512, 128 by 128 and 256 by 256, in
    this order. *)
Definition resize_up_then_down : list Call :=
  [CallSetOutput kColor (Some (output_of 1 512 512));
   CallSetOutput kColor (Some (output_of 2 128 128))].

Definition resize_again : Call :=
  CallSetOutput kColor (Some (output_of 3 256 256)).

(** * Invariants *)

(** The predicates in which the properties of the loops and of the
    methods are stated. *)

Section PartitionInvariants.
Context {A : Type} (pred : A -> bool).

(** The loop invariant of the two-pointer algorithm: everything below
    [first] satisfies the predicate, everything from [last] on (above
    [last] while [last] scans down) does not. *)
Definition partition_inv (a0 a : list A) (first last : nat) (ph : Phase) : Prop :=
  a ≡ₚ a0 /\ (first <= last)%nat /\
  (forall i x, (i < first)%nat -> a !! i = Some x -> pred x = true) /\
  match ph with
  | ScanFirst =>
    (last <= length a)%nat /\
    (forall i x, (last <= i)%nat -> a !! i = Some x -> pred x = false)
  | ScanLast =>
    (last < length a)%nat /\
    (forall i x, (last < i)%nat -> a !! i = Some x -> pred x = false) /\
    (exists x, a !! first = Some x /\ pred x = false)
  end.

(** What [std::partition] promises of its result [(array, middle)]. *)
Definition partitioned (a0 : list A) (r : list A * nat) : Prop :=
  r.1 ≡ₚ a0 /\ (r.2 <= length r.1)%nat /\
  (forall i x, (i < r.2)%nat -> r.1 !! i = Some x -> pred x = true) /\
  (forall i x, (r.2 <= i)%nat -> r.1 !! i = Some x -> pred x = false).

End PartitionInvariants.

Section IntersectorInvariants.
Context `{Accelerator}.

(** Meshes first, instances after: what [Process] needs of the partition. *)
Definition meshes_first (shapes : list Shape) (nummeshes : nat) : Prop :=
  (nummeshes <= length shapes)%nat /\
  forall i s, shapes !! i = Some s ->
    ((i < nummeshes)%nat -> is_instance s = false) /\
    ((nummeshes <= i)%nat -> is_instance s = true).

(** The tables after the first [i] shapes were counted. *)
Definition starts_upto (shapes : list Shape) (i : nat) (c : Starts) : Prop :=
  length (mesh_faces_start_idx c) = length shapes /\
  length (mesh_vertices_start_idx c) = length shapes /\
  numfaces c = faces_before shapes i /\
  numvertices c = vertices_before shapes i /\
  forall k, (k < i)%nat ->
    mesh_faces_start_idx c !! k = Some (faces_before shapes k) /\
    mesh_vertices_start_idx c !! k = Some (vertices_before shapes k).

(** The finished tables: entry [k] is the number of faces (vertices) of
    the shapes before [k]. *)
Definition starts_of (shapes : list Shape) (st : Starts) : Prop :=
  starts_upto shapes (length shapes) st.

End IntersectorInvariants.

Section RendererInvariants.
Context `{Numerics} `{Host}.

(** [m], started in [s], returns; it leaves the outputs, the working set
    and the number of bounces as they are, adds [dframe] to the frame
    counter, and adds events whose dispatches are [ds]. *)
Definition runs (m : Rend unit) (s : PtRenderer) (ds : list Dispatch) (dframe : Z) : Prop :=
  exists s' evs,
    m s = Ret tt s' /\
    m_outputs s' = m_outputs s /\
    m_render_data s' = m_render_data s /\
    m_num_bounces s' = m_num_bounces s /\
    m_framecnt s' = m_framecnt s + dframe /\
    events s' = events s ++ evs /\
    dispatches evs = ds.

(** What a later step may rely on. *)
Definition kept (s s' : PtRenderer) : Prop :=
  m_outputs s' = m_outputs s /\
  m_render_data s' = m_render_data s /\
  m_num_bounces s' = m_num_bounces s.

(** A method that leaves the frame counter as it is, when it returns. *)
Definition keeps_framecnt {A} (m : Rend A) : Prop :=
  forall s a s', m s = Ret a s' -> m_framecnt s' = m_framecnt s.

End RendererInvariants.

(** * Further vocabulary and sample inputs *)

Section IntersectorCoverage.
Context `{Accelerator}.

(** The faces and the vertices of a world: those of the base meshes of its
    shapes, an instance counting as much as its base mesh. *)
Definition world_faces (world : World) : Z :=
  foldr (fun s acc => num_faces (base_mesh s) + acc) 0 (shapes_ world).

Definition world_vertex_count (world : World) : Z :=
  foldr (fun s acc => num_vertices (base_mesh s) + acc) 0 (shapes_ world).

(** The transform that takes the geometry of a shape to world space: the
    mesh's own for a mesh, the instance's for an instance (lines 299-333). *)
Definition world_transform (s : Shape) : matrix :=
  match s with
  | ShapeMesh m => mesh_transform m
  | ShapeInstance i => instance_transform i
  end.

(** The world-space bound that [Process] takes for face [j] of a shape
    (lines 233-264): a mesh is asked for the world-space bound; the base
    mesh of an instance is asked for the object-space bound, which is
    transformed with the instance's matrix. *)
Definition world_face_bound (s : Shape) (j : Z) : bbox :=
  match s with
  | ShapeMesh m => GetFaceBounds m j false
  | ShapeInstance i =>
    transform_bbox (GetFaceBounds (GetBaseShape i) j true) (instance_transform i)
  end.

(** The bounds that [Process] hands to [Build], and the vertices that it
    writes into the mapped vertex buffer. *)
Definition process_bounds (world : World) : option (list bbox) :=
  let '(shapes, nummeshes) := partition_shapes world in
  st ← process_starts world;
  face_bounds shapes st nummeshes (length shapes - nummeshes).

Definition process_vertices (world : World) : option (list (option float3)) :=
  let '(shapes, nummeshes) := partition_shapes world in
  st ← process_starts world;
  world_vertices shapes st nummeshes (length shapes - nummeshes).

(** The vertex indices of the faces of a mesh are indices of its vertices. *)
Definition indices_in_range (m : Mesh) : Prop :=
  forall f, f ∈ GetFaceData m ->
    0 <= idx0 f < num_vertices m /\ 0 <= idx1 f < num_vertices m /\
    0 <= idx2 f < num_vertices m.

(** Cell [i] of the mapped vertex buffer was written with the point [p]. *)
Definition buffer_vertex (vertexdata : list (option float3)) (i : Z) (p : float3) : Prop :=
  load vertexdata i = Some (Some p).

(** The loops over the vertices run without interference on the shared
    matrix: every iteration reads the transform it has stored, as in a
    build without OpenMP. *)
Definition undisturbed : Prop :=
  forall (i j : Z) (own : matrix), read_shared_matrix i j own = own.

(** The point that [Process] writes for vertex [j], of coordinates [p], of
    the shape at position [k]: the vertex transformed with the matrix that
    the iteration of the shape read for it. *)
Definition uploaded_point (k : Z) (s : Shape) (j : Z) (p : float3) : float3 :=
  transform_point p (read_shared_matrix k j (world_transform s)).

(** The operations on the device between two states of the intersector. *)
Definition ops_since (s s' : IntersectorShortStack) : list (Calc.Op Payload) :=
  drop (length (Calc.log (m_device s))) (Calc.log (m_device s')).

End IntersectorCoverage.

(** The small world once more, reporting no change. *)
Definition settled_world : World :=
  world_of (shapes_ small_world) false.

(** Two meshes listed before an instance. *)
Definition meshes_first_world : World :=
  world_of [ ShapeMesh (triangle 1);
             ShapeMesh (quad 2);
             ShapeInstance (instance_of 3 (triangle 1) 2000) ] true.

Section Scattered.
Context `{Numerics} {X : Type}.

(** A vector [c] of [total] cells that holds the values of the shapes
    before [i]: the shape [s] at position [k] has [size s] values,
    [v k s j] being the [j]-th, and its values start at [pre k]. *)
Definition scattered (shapes : list Shape) (size : Shape -> nat) (pre : nat -> Z)
    (v : nat -> Shape -> nat -> X) (total i : nat) (c : list X) : Prop :=
  length c = total /\
  forall (k : nat) (s : Shape) (j : nat),
    (k < i)%nat -> shapes !! k = Some s -> (j < size s)%nat ->
    c !! (Z.to_nat (pre k) + j)%nat = Some (v k s j).

End Scattered.

Section IntersectorInvariant.
Context `{Accelerator}.

(** The buffers of an intersector are in order: the device hands out
    handles it has not handed out before; a stack buffer that is set is
    live; and when a hierarchy is stored, the device passed the check of
    its allocation size, and the node, vertex and stack buffers are set,
    are three buffers, and the node and vertex buffers are live. *)
Definition consistent (s : IntersectorShortStack) : Prop :=
  let d := m_device s in
  (forall h, is_Some (Calc.heap d !! h) -> (h < Calc.next_handle d)%nat) /\
  (forall h, gpu_stack s = Some h -> is_Some (Calc.heap d !! h)) /\
  (is_Some (m_bvh s) ->
   stack_memory_limit < Calc.max_alloc_size d /\
   exists hb hv hs,
     gpu_bvh s = Some hb /\ gpu_vertices s = Some hv /\ gpu_stack s = Some hs /\
     hb <> hv /\ hb <> hs /\ hv <> hs /\
     is_Some (Calc.heap d !! hb) /\ is_Some (Calc.heap d !! hv)).


End IntersectorInvariant.

Section RendererCoverage.
Context `{Numerics} `{Host}.

(** A method that, started with the outputs [outs] bound, leaves the
    bindings and the working set as they are and adds only events that
    satisfy [P], when it returns. *)
Definition emits_only (outs : gmap nat Output) (P : Event float3 -> Prop) {A : Type}
    (m : Rend A) : Prop :=
  forall s a s',
    m_outputs s = outs -> m s = Ret a s' ->
    m_outputs s' = outs /\ m_render_data s' = m_render_data s /\
    exists evs, events s' = events s ++ evs /\ Forall P evs.

(** An event that creates or deletes a buffer of the working set or of the
    intersection API. *)
Definition allocates (e : Event float3) : bool :=
  match e with
  | EvCreateBuffer _ _ | EvApiDeleteBuffer _ | EvCreateFromOpenClBuffer _ => true
  | _ => false
  end.

Definition is_set_output (c : Call) : bool :=
  match c with CallSetOutput _ _ => true | _ => false end.

(** A call that binds no output but a colour output, of dimensions whose
    product fits 32 bits. *)
Definition binds_color_only (c : Call) : Prop :=
  match c with
  | CallSetOutput type (Some o) =>
    type = kColor /\ 0 <= width o /\ 0 <= height o /\ width o * height o < 2 ^ 32
  | _ => True
  end.

(** The working set has an element for every pixel of the bound colour
    output. *)
Definition covered (s : PtRenderer) : Prop :=
  forall out, m_outputs s !! kColor = Some out ->
    exists n, working_set_of n (m_render_data s) /\ width out * height out <= n.

(** A launch covers the image [out]: a one-dimensional launch has groups
    of 64 items and the fewest groups that give an item to every pixel; a
    two-dimensional launch has groups of 8 by 8 and the fewest groups that
    cover the width and the height. *)
Definition covers (out : Output) (e : Event float3) : Prop :=
  match e with
  | EvLaunch1D _ _ globalsize localsize =>
    localsize = 64 /\ smallest_multiple_at_least 64 (width out * height out) globalsize
  | EvLaunch2D _ _ gs ls =>
    ls = (8, 8) /\
    smallest_multiple_at_least 8 (width out) gs.1 /\
    smallest_multiple_at_least 8 (height out) gs.2
  | _ => True
  end.

(** [rays] and [pixelindices] are arrays of two buffers. *)
Definition buffer_exists (b : BufferName) : Prop :=
  match b with
  | rays i | pixelindices i => i = 0 \/ i = 1
  | _ => True
  end.

Definition arg_exists (a : KArg) : Prop :=
  match a with
  | ABuffer b => buffer_exists b
  | _ => True
  end.

(** Every buffer that an event names is one of the buffers of
    [RenderData]. *)
Definition names_buffers (e : Event float3) : Prop :=
  match e with
  | EvCreateBuffer b _ | EvApiDeleteBuffer b | EvCreateFromOpenClBuffer b => buffer_exists b
  | EvCopyBuffer src dst _ => buffer_exists src /\ buffer_exists dst
  | EvFillBuffer b _ _ => buffer_exists b
  | EvLaunch1D _ args _ _ | EvLaunch2D _ args _ _ => Forall arg_exists args
  | EvCompact p src dst count =>
    buffer_exists p /\ buffer_exists src /\ buffer_exists dst /\ buffer_exists count
  | EvQueryIntersection r n h | EvQueryOcclusion r n h =>
    buffer_exists r /\ buffer_exists h /\
    match n with NumRaysBuffer b _ => buffer_exists b | NumRaysInt _ => True end
  | _ => True
  end.

End RendererCoverage.

Section BenchmarkCoverage.
Context `{Numerics} `{Host}.

(** [m], started in [s], returns [a]; it leaves the outputs, the working
    set, the number of bounces and the frame counter as they are and adds
    events whose dispatches are [ds]. *)
Definition returns_with {A : Type} (m : Rend A) (s : PtRenderer) (ds : list Dispatch)
    (a : A) : Prop :=
  exists s' evs,
    m s = Ret a s' /\ kept s s' /\ m_framecnt s' = m_framecnt s /\
    events s' = events s ++ evs /\ dispatches evs = ds.

(** What [RunBenchmark] dispatches for [n] passes. *)
Definition benchmark_dispatches (scene : ClwScene) (n : nat) : list Dispatch :=
  [Kernel (generate_kernel scene)]
  ++ replicate n IntersectionQuery
  ++ [Kernel "FilterPathStream"; Compaction; Kernel "RestorePixelIndices";
      Kernel "ShadeSurface"; Kernel "ShadeMiss"]
  ++ replicate n OcclusionQuery
  ++ [Kernel "GatherLightSamples"]
  ++ replicate n IntersectionQuery
  ++ [Kernel "FilterPathStream"; Compaction; Kernel "RestorePixelIndices";
      Kernel "ShadeSurface"; Kernel "ShadeMiss"; OcclusionQuery;
      Kernel "GatherLightSamples"].

(** The output whose dimensions [FillAOVs] takes: the colour output, or,
    when none is bound, the bound auxiliary output of the lowest type. *)
Definition aov_dimensions_of (outputs : gmap nat Output) (output : Output) : Prop :=
  outputs !! kColor = Some output \/
  outputs !! kColor = None /\
  exists type : nat,
    (1 <= type < kMax)%nat /\ outputs !! type = Some output /\
    forall k : nat, (1 <= k < type)%nat -> outputs !! k = None.

End BenchmarkCoverage.

(** The queries among the dispatches of a frame. *)
Definition is_intersection_query (d : Dispatch) : bool :=
  match d with IntersectionQuery => true | _ => false end.

Definition is_occlusion_query (d : Dispatch) : bool :=
  match d with OcclusionQuery => true | _ => false end.

Definition intersection_queries (ds : list Dispatch) : Z :=
  Z.of_nat (length (filter (fun d => is_intersection_query d = true) ds)).

Definition occlusion_queries (ds : list Dispatch) : Z :=
  Z.of_nat (length (filter (fun d => is_occlusion_query d = true) ds)).

(** * Part III.  Properties of the intersector *)

(** ** Array accesses and index loops *)

Lemma load_Some {A} (l : list A) (k : Z) (x : A) :
  load l k = Some x <-> 0 <= k /\ l !! Z.to_nat k = Some x.
Proof.
  unfold load. destruct (Z.leb_spec 0 k).
  - tauto.
  - split; [discriminate | lia].
Qed.

Lemma load_of_nat {A} (l : list A) (i : nat) : load l (Z.of_nat i) = l !! i.
Proof.
  unfold load. destruct (Z.leb_spec 0 (Z.of_nat i)); [|lia].
  by rewrite Nat2Z.id.
Qed.

Lemma store_of_nat {A} (l : list A) (i : nat) (v : A) :
  (i < length l)%nat -> store l (Z.of_nat i) v = Some (<[i := v]> l).
Proof.
  intros Hi. unfold store.
  destruct (Z.leb_spec 0 (Z.of_nat i)); [|lia].
  destruct (Z.ltb_spec (Z.of_nat i) (Z.of_nat (length l))); [|lia].
  simpl. by rewrite Nat2Z.id.
Qed.

Lemma store_Some {A} (l l' : list A) (k : Z) (v : A) :
  store l k v = Some l' ->
  0 <= k < Z.of_nat (length l) /\ l' = <[Z.to_nat k := v]> l.
Proof.
  unfold store.
  destruct (Z.leb_spec 0 k); destruct (Z.ltb_spec k (Z.of_nat (length l)));
    simpl; intros; simplify_eq; split; trivial; lia.
Qed.

(** An invariant carried through an index loop whose steps are defined. *)
Lemma for_range_inv {A} (P : nat -> A -> Prop) (body : Z -> A -> option A) :
  forall (n lo : nat) (a : A),
    P lo a ->
    (forall i a, (lo <= i < lo + n)%nat -> P i a ->
       exists a', body (Z.of_nat i) a = Some a' /\ P (S i) a') ->
    exists a', for_range n (Z.of_nat lo) body a = Some a' /\ P (lo + n)%nat a'.
Proof.
  induction n as [|n IH]; intros lo a Ha Hstep; simpl.
  - exists a. by rewrite Nat.add_0_r.
  - destruct (Hstep lo a) as (a1 & E1 & P1); [lia | done |].
    rewrite E1. simpl.
    replace (Z.of_nat lo + 1) with (Z.of_nat (S lo)) by lia.
    destruct (IH (S lo) a1 P1) as (a' & E' & P').
    { intros i b Hi Hb. apply Hstep; [lia | done]. }
    exists a'. split; [done|]. by replace (lo + S n)%nat with (S lo + n)%nat by lia.
Qed.

(** ** [std::partition] *)

Section PartitionFacts.
Context {A : Type} (pred : A -> bool).

Lemma iter_swap_lookup (a : list A) (first last : nat) (x y : A) :
  a !! first = Some x -> a !! last = Some y -> first <> last ->
  iter_swap a first last = <[last := x]> (<[first := y]> a) /\
  iter_swap a first last !! first = Some y /\
  iter_swap a first last !! last = Some x /\
  (forall i, i <> first -> i <> last -> iter_swap a first last !! i = a !! i) /\
  length (iter_swap a first last) = length a /\
  iter_swap a first last ≡ₚ a.
Proof.
  intros Hx Hy Hne. unfold iter_swap. rewrite Hx, Hy.
  pose proof (lookup_lt_Some _ _ _ Hx). pose proof (lookup_lt_Some _ _ _ Hy).
  repeat split.
  - rewrite list_lookup_insert_ne by done.
    apply list_lookup_insert_eq. done.
  - apply list_lookup_insert_eq. by rewrite length_insert.
  - intros i ? ?. by rewrite !list_lookup_insert_ne.
  - by rewrite !length_insert.
  - by apply Permutation_insert_swap.
Qed.

Lemma partition_loop_partitioned (a0 : list A) :
  forall fuel a first last ph,
    partition_inv pred a0 a first last ph ->
    (last - first < fuel)%nat ->
    partitioned pred a0 (partition_loop pred fuel a first last ph).
Proof.
  induction fuel as [|fuel IH]; intros a first last ph Hinv Hfuel; [lia|].
  simpl. destruct (Nat.eqb_spec first last) as [->|Hne].
  { (* first == last: return first *)
    destruct Hinv as (Hp & _ & Hlo & Hhi). unfold partitioned; simpl.
    destruct ph.
    - destruct Hhi as (Hlen & Hhi). repeat split; eauto.
    - destruct Hhi as (Hlen & Hhi & y & Hy & Hpy). repeat split; eauto; [lia|].
      intros i x Hi Hx. destruct (decide (i = last)) as [->|]; [congruence|].
      apply (Hhi i); [lia|done]. }
  destruct Hinv as (Hp & Hle & Hlo & Hhi). destruct ph.
  - (* first scans up *)
    destruct Hhi as (Hlen & Hhi).
    destruct (lookup_lt_is_Some_2 a first) as [x Hx]; [lia|]. rewrite Hx.
    destruct (pred x) eqn:Hpx.
    + apply IH; [|lia]. repeat split; eauto; [lia|].
      intros i z Hi Hz. destruct (decide (i = first)) as [->|]; [congruence|].
      apply (Hlo i); [lia|done].
    + apply IH; [|lia]. repeat split; eauto; try lia.
      intros i z Hi Hz. apply (Hhi i); [lia|done].
  - (* last scans down *)
    destruct Hhi as (Hlen & Hhi & x & Hx & Hpx).
    destruct (lookup_lt_is_Some_2 a last) as [y Hy]; [lia|]. rewrite Hy.
    destruct (pred y) eqn:Hpy; simpl.
    + (* exchange the two elements *)
      destruct (iter_swap_lookup a first last x y Hx Hy Hne)
        as (_ & Hf & Hl & Hother & Hlen' & Hperm).
      apply IH; [|lia]. repeat split.
      * by rewrite Hperm.
      * lia.
      * intros i z Hi Hz. destruct (decide (i = first)) as [->|]; [congruence|].
        rewrite Hother in Hz by lia. apply (Hlo i); [lia|done].
      * lia.
      * intros i z Hi Hz. destruct (decide (i = last)) as [->|]; [congruence|].
        rewrite Hother in Hz by lia. apply (Hhi i); [lia|done].
    + apply IH; [|lia]. repeat split; eauto; try lia.
      intros i z Hi Hz. destruct (decide (i = last)) as [->|]; [congruence|].
      apply (Hhi i); [lia|done].
Qed.

Lemma std_partition_partitioned (a : list A) : partitioned pred a (std_partition pred a).
Proof.
  unfold std_partition. apply partition_loop_partitioned; [|lia].
  repeat split; eauto; try lia.
  intros i x Hi Hx. apply lookup_lt_Some in Hx. lia.
Qed.

End PartitionFacts.

(** ** The start-index tables *)

Section IntersectorFacts.
Context `{Accelerator}.

Lemma partition_shapes_meshes_first (world : World) :
  (partition_shapes world).1 ≡ₚ shapes_ world /\
  meshes_first (partition_shapes world).1 (partition_shapes world).2.
Proof.
  destruct (std_partition_partitioned (fun s => negb (is_instance s)) (shapes_ world))
    as (Hp & Hlen & Hlo & Hhi).
  fold (partition_shapes world) in *.
  split; [done|]. split; [done|].
  intros i s Hs. split; intros Hi.
  - specialize (Hlo i s Hi Hs). by destruct (is_instance s).
  - specialize (Hhi i s Hi Hs). by destruct (is_instance s).
Qed.

Lemma sum_app {A} (g : A -> Z) (l l' : list A) :
  foldr (fun s acc => g s + acc) 0 (l ++ l')
  = foldr (fun s acc => g s + acc) 0 l + foldr (fun s acc => g s + acc) 0 l'.
Proof. induction l as [|x l IH]; simpl; lia. Qed.

Lemma faces_before_S shapes k s :
  shapes !! k = Some s ->
  faces_before shapes (S k) = faces_before shapes k + num_faces (base_mesh s).
Proof.
  intros Hs. unfold faces_before. rewrite (take_S_r _ _ _ Hs), sum_app. simpl. lia.
Qed.

Lemma vertices_before_S shapes k s :
  shapes !! k = Some s ->
  vertices_before shapes (S k) = vertices_before shapes k + num_vertices (base_mesh s).
Proof.
  intros Hs. unfold vertices_before. rewrite (take_S_r _ _ _ Hs), sum_app. simpl. lia.
Qed.

Lemma faces_before_step shapes k : faces_before shapes k <= faces_before shapes (S k).
Proof.
  destruct (shapes !! k) as [s|] eqn:Hs.
  - rewrite (faces_before_S _ _ _ Hs). unfold num_faces. lia.
  - apply lookup_ge_None in Hs. unfold faces_before.
    rewrite !take_ge by lia. lia.
Qed.

Lemma faces_before_mono shapes k k' :
  (k <= k')%nat -> faces_before shapes k <= faces_before shapes k'.
Proof.
  induction 1 as [|k' _ IH]; [lia|].
  pose proof (faces_before_step shapes k'). lia.
Qed.

Lemma vertices_before_step shapes k :
  vertices_before shapes k <= vertices_before shapes (S k).
Proof.
  destruct (shapes !! k) as [s|] eqn:Hs.
  - rewrite (vertices_before_S _ _ _ Hs). unfold num_vertices. lia.
  - apply lookup_ge_None in Hs. unfold vertices_before.
    rewrite !take_ge by lia. lia.
Qed.

Lemma vertices_before_mono shapes k k' :
  (k <= k')%nat -> vertices_before shapes k <= vertices_before shapes k'.
Proof.
  induction 1 as [|k' _ IH]; [lia|].
  pose proof (vertices_before_step shapes k'). lia.
Qed.

Lemma faces_before_nonneg shapes k : 0 <= faces_before shapes k.
Proof. apply (faces_before_mono shapes 0 k). lia. Qed.

Lemma vertices_before_nonneg shapes k : 0 <= vertices_before shapes k.
Proof. apply (vertices_before_mono shapes 0 k). lia. Qed.

Lemma record_start_upto shapes i s c :
  shapes !! i = Some s ->
  starts_upto shapes i c ->
  exists c', record_start (base_mesh s) (Z.of_nat i) c = Some c' /\
             starts_upto shapes (S i) c'.
Proof.
  intros Hs (Hlf & Hlv & Hnf & Hnv & Htab).
  pose proof (lookup_lt_Some _ _ _ Hs) as Hi.
  unfold record_start.
  rewrite store_of_nat by lia. simpl.
  rewrite store_of_nat by lia. simpl.
  eexists. split; [reflexivity|].
  repeat split; simpl.
  - by rewrite length_insert.
  - by rewrite length_insert.
  - rewrite (faces_before_S _ _ _ Hs). lia.
  - rewrite (vertices_before_S _ _ _ Hs). lia.
  - destruct (decide (k = i)) as [->|Hne].
    + rewrite list_lookup_insert_eq by lia. by rewrite Hnf.
    + rewrite list_lookup_insert_ne by done. apply Htab. lia.
  - destruct (decide (k = i)) as [->|Hne].
    + rewrite list_lookup_insert_eq by lia. by rewrite Hnv.
    + rewrite list_lookup_insert_ne by done. apply Htab. lia.
Qed.

Lemma as_mesh_base s : is_instance s = false -> as_mesh s = Some (base_mesh s).
Proof. by destruct s. Qed.

Lemma as_instance_base s :
  is_instance s = true ->
  exists inst, as_instance s = Some inst /\ GetBaseShape inst = base_mesh s.
Proof. destruct s as [|inst]; [done|]. by exists inst. Qed.

Lemma start_indices_defined shapes nummeshes :
  meshes_first shapes nummeshes ->
  exists st,
    start_indices shapes (length shapes) nummeshes (length shapes - nummeshes) = Some st
    /\ starts_of shapes st.
Proof.
  intros (Hle & Hkind). unfold start_indices.
  destruct (for_range_inv (starts_upto shapes) (count_mesh shapes) nummeshes 0
              {| numfaces := 0; numvertices := 0;
                 mesh_faces_start_idx := replicate (length shapes) 0;
                 mesh_vertices_start_idx := replicate (length shapes) 0 |})
    as (c1 & E1 & P1).
  { repeat split; simpl; rewrite ?length_replicate; trivial; lia. }
  { intros i c Hi Hc.
    destruct (lookup_lt_is_Some_2 shapes i) as [s Hs]; [lia|].
    unfold count_mesh. rewrite load_of_nat, Hs. simpl.
    rewrite as_mesh_base by (apply (Hkind i s Hs); lia). simpl.
    by apply record_start_upto. }
  change (Z.of_nat 0) with 0 in E1. rewrite E1. simpl.
  destruct (for_range_inv (starts_upto shapes) (count_instance shapes)
              (length shapes - nummeshes) nummeshes c1 P1)
    as (c2 & E2 & P2).
  { intros i c Hi Hc.
    destruct (lookup_lt_is_Some_2 shapes i) as [s Hs]; [lia|].
    unfold count_instance. rewrite load_of_nat, Hs. simpl.
    destruct (as_instance_base s) as (inst & -> & Hb); [apply (Hkind i s Hs); lia|].
    simpl. rewrite Hb. by apply record_start_upto. }
  exists c2. split; [done|].
  unfold starts_of.
  replace (nummeshes + (length shapes - nummeshes))%nat with (length shapes) in P2 by lia.
  exact P2.
Qed.

(** The table of face starts is sorted, as [std::upper_bound] requires. *)
Lemma starts_sorted shapes st (i j : nat) (x y : Z) :
  starts_of shapes st -> (i <= j)%nat ->
  mesh_faces_start_idx st !! i = Some x ->
  mesh_faces_start_idx st !! j = Some y ->
  x <= y.
Proof.
  intros (Hlf & _ & _ & _ & Htab) Hij Hx Hy.
  pose proof (lookup_lt_Some _ _ _ Hx). pose proof (lookup_lt_Some _ _ _ Hy).
  destruct (Htab i) as [Hi _]; [lia|]. destruct (Htab j) as [Hj _]; [lia|].
  rewrite Hi in Hx. rewrite Hj in Hy. simplify_eq.
  by apply faces_before_mono.
Qed.

End IntersectorFacts.

(** ** Bounds, vertices and the face table are defined *)

Section ProcessFacts.
Context `{Accelerator}.

Lemma starts_of_load shapes st (i : nat) :
  starts_of shapes st -> (i < length shapes)%nat ->
  load (mesh_faces_start_idx st) (Z.of_nat i) = Some (faces_before shapes i) /\
  load (mesh_vertices_start_idx st) (Z.of_nat i) = Some (vertices_before shapes i).
Proof.
  intros (_ & _ & _ & _ & Htab) Hi. rewrite !load_of_nat. by apply Htab.
Qed.

Lemma face_bounds_defined shapes st nummeshes :
  meshes_first shapes nummeshes -> starts_of shapes st ->
  exists bounds, face_bounds shapes st nummeshes (length shapes - nummeshes) = Some bounds.
Proof.
  intros (Hle & Hkind) Hst. unfold face_bounds.
  pose proof Hst as (_ & _ & Hnf & _ & _).
  set (P := fun (_ : nat) (b : list bbox) => length b = Z.to_nat (numfaces st)).
  assert (Hinner : forall (i : nat) s (g : Z -> bbox) b,
             shapes !! i = Some s -> P i b ->
             exists b', for_range (length (GetFaceData (base_mesh s))) 0
                          (fun j b => store b (faces_before shapes i + j) (g j)) b = Some b'
                        /\ P (S i) b').
  { intros i s g b Hs Hb.
    pose proof (faces_before_nonneg shapes i).
    pose proof (faces_before_S _ _ _ Hs) as HS. unfold num_faces in HS.
    pose proof (faces_before_mono shapes (S i) (length shapes)
                  ltac:(apply lookup_lt_Some in Hs; lia)).
    destruct (for_range_inv (fun _ b' => length b' = Z.to_nat (numfaces st))
                (fun j b => store b (faces_before shapes i + j) (g j))
                (length (GetFaceData (base_mesh s))) 0 b Hb) as (b' & E & Hb').
    { intros j c Hj Hc. unfold store.
      destruct (Z.leb_spec 0 (faces_before shapes i + Z.of_nat j)); [|lia].
      destruct (Z.ltb_spec (faces_before shapes i + Z.of_nat j) (Z.of_nat (length c)));
        [|lia].
      simpl. eexists. split; [reflexivity|]. by rewrite length_insert. }
    exists b'. split; [exact E | exact Hb']. }
  destruct (for_range_inv P (mesh_bounds shapes st) nummeshes 0
              (replicate (Z.to_nat (numfaces st)) bbox_default)) as (b1 & E1 & P1).
  { unfold P. by rewrite length_replicate. }
  { intros i b Hi Hb.
    destruct (lookup_lt_is_Some_2 shapes i) as [s Hs]; [lia|].
    unfold mesh_bounds. rewrite (load_of_nat shapes), Hs. simpl.
    rewrite as_mesh_base by (apply (Hkind i s Hs); lia). simpl.
    destruct (starts_of_load shapes st i Hst) as [-> _]; [lia|]. simpl.
    by apply Hinner. }
  change (Z.of_nat 0) with 0 in E1. rewrite E1. simpl.
  destruct (for_range_inv P (instance_bounds shapes st) (length shapes - nummeshes)
              nummeshes b1 P1) as (b2 & E2 & _).
  { intros i b Hi Hb.
    destruct (lookup_lt_is_Some_2 shapes i) as [s Hs]; [lia|].
    unfold instance_bounds. rewrite (load_of_nat shapes), Hs. simpl.
    destruct (as_instance_base s) as (inst & -> & Hb'); [apply (Hkind i s Hs); lia|].
    simpl. rewrite Hb'.
    destruct (starts_of_load shapes st i Hst) as [-> _]; [lia|]. simpl.
    by apply Hinner. }
  by exists b2.
Qed.

Lemma world_vertices_defined shapes st nummeshes :
  meshes_first shapes nummeshes -> starts_of shapes st ->
  exists v, world_vertices shapes st nummeshes (length shapes - nummeshes) = Some v.
Proof.
  intros (Hle & Hkind) Hst. unfold world_vertices.
  pose proof Hst as (_ & _ & _ & Hnv & _).
  set (P := fun (_ : nat) (b : list (option float3)) =>
              length b = Z.to_nat (numvertices st)).
  assert (Hinner : forall (i : nat) s (m : Z -> matrix) b,
             shapes !! i = Some s -> P i b ->
             exists b', for_range (length (GetVertexData (base_mesh s))) 0
                          (fun j v => p ← load (GetVertexData (base_mesh s)) j;
                                      store v (vertices_before shapes i + j)
                                        (Some (transform_point p (m j)))) b = Some b'
                        /\ P (S i) b').
  { intros i s m b Hs Hb.
    pose proof (vertices_before_nonneg shapes i).
    pose proof (vertices_before_S _ _ _ Hs) as HS. unfold num_vertices in HS.
    pose proof (vertices_before_mono shapes (S i) (length shapes)
                  ltac:(apply lookup_lt_Some in Hs; lia)).
    destruct (for_range_inv (fun _ b' => length b' = Z.to_nat (numvertices st))
                (fun j v => p ← load (GetVertexData (base_mesh s)) j;
                            store v (vertices_before shapes i + j)
                              (Some (transform_point p (m j))))
                (length (GetVertexData (base_mesh s))) 0 b Hb) as (b' & E & Hb').
    { intros j c Hj Hc. rewrite load_of_nat.
      destruct (lookup_lt_is_Some_2 (GetVertexData (base_mesh s)) j) as [p ->]; [lia|].
      simpl. unfold store.
      destruct (Z.leb_spec 0 (vertices_before shapes i + Z.of_nat j)); [|lia].
      destruct (Z.ltb_spec (vertices_before shapes i + Z.of_nat j) (Z.of_nat (length c)));
        [|lia].
      simpl. eexists. split; [reflexivity|]. by rewrite length_insert. }
    exists b'. split; [exact E | exact Hb']. }
  destruct (for_range_inv P (mesh_vertices shapes st) nummeshes 0
              (replicate (Z.to_nat (numvertices st)) None)) as (b1 & E1 & P1).
  { unfold P. by rewrite length_replicate. }
  { intros i b Hi Hb.
    destruct (lookup_lt_is_Some_2 shapes i) as [s Hs]; [lia|].
    unfold mesh_vertices. rewrite (load_of_nat shapes), Hs. simpl.
    rewrite as_mesh_base by (apply (Hkind i s Hs); lia). simpl.
    destruct (starts_of_load shapes st i Hst) as [_ ->]; [lia|]. simpl.
    destruct s as [m|]; [|exfalso; specialize (Hkind i _ Hs) as [Hk _]; discriminate Hk; lia].
    by apply (Hinner i (ShapeMesh m)
                (fun j => read_shared_matrix (Z.of_nat i) j (mesh_transform m))). }
  change (Z.of_nat 0) with 0 in E1. rewrite E1. simpl.
  destruct (for_range_inv P (instance_vertices shapes st) (length shapes - nummeshes)
              nummeshes b1 P1) as (b2 & E2 & _).
  { intros i b Hi Hb.
    destruct (lookup_lt_is_Some_2 shapes i) as [s Hs]; [lia|].
    unfold instance_vertices. rewrite (load_of_nat shapes), Hs. simpl.
    destruct s as [|inst]; [exfalso; specialize (Hkind i _ Hs) as [_ Hk]; discriminate Hk; lia|].
    simpl.
    destruct (starts_of_load shapes st i Hst) as [_ ->]; [lia|]. simpl.
    by apply (Hinner i (ShapeInstance inst)
                (fun j => read_shared_matrix (Z.of_nat i) j (instance_transform inst))). }
  by exists b2.
Qed.

(** *** [std::upper_bound] *)

Lemma upper_bound_range (v : list Z) (x : Z) :
  0 <= upper_bound v x <= Z.of_nat (length v).
Proof.
  induction v as [|y v IH]; simpl; [lia|].
  destruct (Z.ltb_spec x y); lia.
Qed.

Lemma upper_bound_before (v : list Z) (x : Z) (k : nat) (y : Z) :
  Z.of_nat k < upper_bound v x -> v !! k = Some y -> y <= x.
Proof.
  revert k. induction v as [|z v IH]; intros k; simpl; [lia|].
  destruct (Z.ltb_spec x z); [lia|]. intros Hk Hy.
  destruct k as [|k]; simpl in Hy; [simplify_eq; lia|].
  apply (IH k); [lia | done].
Qed.

Lemma upper_bound_at (v : list Z) (x : Z) (y : Z) :
  v !! Z.to_nat (upper_bound v x) = Some y -> x < y.
Proof.
  induction v as [|z v IH]; simpl; [done|].
  destruct (Z.ltb_spec x z); simpl.
  - intros. simplify_eq. done.
  - pose proof (upper_bound_range v x).
    replace (Z.to_nat (1 + upper_bound v x)) with (S (Z.to_nat (upper_bound v x))) by lia.
    simpl. exact IH.
Qed.

(** The shape that owns the primitive index [x]. *)
Lemma owner_of_index shapes st (x : Z) :
  starts_of shapes st -> 0 <= x < numfaces st ->
  exists k : nat,
    Z.of_nat k = upper_bound (mesh_faces_start_idx st) x - 1 /\
    (k < length shapes)%nat /\
    faces_before shapes k <= x < faces_before shapes (S k).
Proof.
  intros Hst Hx. pose proof Hst as (Hlf & _ & Hnf & _ & Htab).
  pose proof (upper_bound_range (mesh_faces_start_idx st) x) as Hu.
  set (u := upper_bound (mesh_faces_start_idx st) x) in *.
  assert (Hn : (0 < length shapes)%nat).
  { destruct shapes; simpl; [|lia]. rewrite Hnf in Hx. cbn in Hx. lia. }
  assert (Hu1 : 1 <= u).
  { destruct (Z.eq_dec u 0) as [Hu0|]; [|lia].
    destruct (Htab 0%nat Hn) as [Hz _].
    pose proof (upper_bound_at (mesh_faces_start_idx st) x _
                  ltac:(fold u; rewrite Hu0; exact Hz)) as Hlt.
    unfold faces_before in Hlt. rewrite take_0 in Hlt. simpl in Hlt. lia. }
  exists (Z.to_nat (u - 1)). split; [lia|]. split; [lia|].
  split.
  - destruct (Htab (Z.to_nat (u - 1))) as [Hk _]; [lia|].
    apply (upper_bound_before (mesh_faces_start_idx st) x (Z.to_nat (u - 1))); [fold u; lia|done].
  - replace (S (Z.to_nat (u - 1))) with (Z.to_nat u) by lia.
    destruct (decide (Z.to_nat u < length shapes)%nat) as [Hlt|Hge].
    + destruct (Htab (Z.to_nat u) Hlt) as [Hk _].
      apply (upper_bound_at (mesh_faces_start_idx st) x). by fold u.
    + replace (Z.to_nat u) with (length shapes) by lia. rewrite <- Hnf. lia.
Qed.

(** *** One face of the table *)

Lemma emit_face_spec shapes st nummeshes reordering (i : nat) (x : Z) facedata :
  meshes_first shapes nummeshes -> starts_of shapes st ->
  reordering !! i = Some x -> 0 <= x < numfaces st ->
  (i < length facedata)%nat ->
  exists face,
    emit_face shapes st nummeshes reordering (Z.of_nat i) facedata
      = Some (<[i := face]> facedata) /\
    face_for shapes st x face.
Proof.
  intros (Hle & Hkind) Hst Hr Hx Hi.
  destruct (owner_of_index shapes st x Hst Hx) as (k & Hk & Hklt & Hlo & Hhi).
  destruct (lookup_lt_is_Some_2 shapes k Hklt) as [s Hs].
  destruct (starts_of_load shapes st k Hst Hklt) as [Hf Hv].
  pose proof (faces_before_S _ _ _ Hs) as HS. unfold num_faces in HS.
  destruct (lookup_lt_is_Some_2 (GetFaceData (base_mesh s))
              (Z.to_nat (x - faces_before shapes k))) as [f Hface]; [lia|].
  assert (Hload : load (GetFaceData (base_mesh s)) (x - faces_before shapes k) = Some f).
  { apply load_Some. split; [lia | done]. }
  assert (Hmesh : (if Z.of_nat k <? Z.of_nat nummeshes
                   then as_mesh s else GetBaseShape <$> as_instance s)
                  = Some (base_mesh s)).
  { destruct (Z.ltb_spec (Z.of_nat k) (Z.of_nat nummeshes)).
    - apply as_mesh_base. apply (Hkind k s Hs). lia.
    - destruct (as_instance_base s) as (inst & -> & <-); [apply (Hkind k s Hs); lia|].
      done. }
  eexists. split.
  - unfold emit_face. rewrite (load_of_nat reordering), Hr. simpl.
    rewrite <- Hk. rewrite (load_of_nat shapes), Hs. simpl.
    rewrite Hmesh. simpl. rewrite Hf. simpl. rewrite Hv. simpl.
    rewrite Hload. simpl. by apply store_of_nat.
  - exists k, s, f, (faces_before shapes k), (vertices_before shapes k).
    rewrite !load_of_nat in Hf, Hv. done.
Qed.

Lemma make_facedata_spec shapes st nummeshes bvh :
  meshes_first shapes nummeshes -> starts_of shapes st ->
  (forall x, x ∈ GetIndices bvh -> 0 <= x < numfaces st) ->
  exists facedata,
    make_facedata shapes st nummeshes bvh = Some facedata /\
    length facedata = length (GetIndices bvh) /\
    forall i x, GetIndices bvh !! i = Some x ->
      exists face, facedata !! i = Some face /\ face_for shapes st x face.
Proof.
  intros Hmf Hst Hrange. unfold make_facedata.
  set (n := length (GetIndices bvh)).
  set (P := fun (i : nat) (fd : list Face) =>
              length fd = n /\
              forall k x, (k < i)%nat -> GetIndices bvh !! k = Some x ->
                exists face, fd !! k = Some face /\ face_for shapes st x face).
  destruct (for_range_inv P (emit_face shapes st nummeshes (GetIndices bvh)) n 0
              (replicate n face_zero)) as (fd & E & Hlen & Hfd).
  { split; [by rewrite length_replicate | intros; lia]. }
  { intros i fd Hi (Hlen & Hfd).
    destruct (lookup_lt_is_Some_2 (GetIndices bvh) i) as [x Hx]; [unfold n in Hi; lia|].
    destruct (emit_face_spec shapes st nummeshes (GetIndices bvh) i x fd Hmf Hst Hx)
      as (face & E & Hface).
    { apply Hrange. eapply list_elem_of_lookup_2. exact Hx. }
    { lia. }
    exists (<[i := face]> fd). split; [exact E|]. split; [by rewrite length_insert|].
    intros k y Hk Hy. destruct (decide (k = i)) as [->|Hne].
    - exists face. rewrite list_lookup_insert_eq by lia. by simplify_eq.
    - rewrite list_lookup_insert_ne by done. apply Hfd; [lia|done]. }
  exists fd. split; [exact E|]. split; [exact Hlen|].
  intros i x Hx. apply Hfd; [|done]. apply lookup_lt_Some in Hx. unfold n. lia.
Qed.

End ProcessFacts.

(** ** Running [Process] *)

(** Runs the device operations of a method on a state given by its fields;
    the operations on the heap are left as they are written. *)
Ltac exec :=
  cbv [bind deref gets get modify ret undefined throw
       dev_CreateBuffer dev_op dev_DeleteBuffer
       set_device set_gpu_stack set_gpu_vertices set_gpu_bvh set_m_bvh
       Calc.emit Calc.CreateBuffer Calc.DeleteBuffer
       m_device gpu_bvh gpu_vertices gpu_stack m_bvh
       Calc.heap Calc.next_handle Calc.max_alloc_size Calc.log].

Section ProcessRuns.
Context `{Accelerator}.

Lemma Process_unchanged world s :
  needs_rebuild s world = false -> Process world s = Ret tt s.
Proof. intros Hn. unfold Process, bind, get. by rewrite Hn. Qed.

Lemma Process_rebuilds world s :
  needs_rebuild s world = true ->
  Process world s =
    if Calc.max_alloc_size (m_device s) <=? stack_memory_limit
    then Throw (ExceptionImpl what_no_stack_memory) (after_release s)
    else rebuild world (after_release s).
Proof.
  intros Hn. unfold Process, bind, get, after_release, stack_memory_limit. rewrite Hn.
  unfold dev_DeleteBuffer, modify, gets, ret.
  destruct (m_bvh s); simpl;
    destruct (Calc.max_alloc_size (m_device s) <=? kMaxBatchSize * kMaxStackSize * sizeof_int);
    reflexivity.
Qed.

Lemma after_release_fields s :
  m_bvh (after_release s) = m_bvh s /\
  gpu_bvh (after_release s) = gpu_bvh s /\
  gpu_vertices (after_release s) = gpu_vertices s /\
  gpu_stack (after_release s) = gpu_stack s /\
  Calc.max_alloc_size (m_device (after_release s)) = Calc.max_alloc_size (m_device s) /\
  Calc.next_handle (m_device (after_release s)) = Calc.next_handle (m_device s) /\
  Calc.log (m_device (after_release s)) =
    Calc.log (m_device s) ++
    match m_bvh s with
    | Some _ => [Calc.OpDeleteBuffer (gpu_bvh s); Calc.OpDeleteBuffer (gpu_vertices s)]
    | None => []
    end.
Proof.
  unfold after_release. destruct (m_bvh s) eqn:E; simpl; repeat split; trivial.
  - by rewrite <- app_assoc.
  - by rewrite app_nil_r.
Qed.

(** What [Process] computes for a world is defined whatever the world. *)
Lemma process_values world :
  exists st bounds,
    process_starts world = Some st /\
    starts_of (partition_shapes world).1 st /\
    face_bounds (partition_shapes world).1 st (partition_shapes world).2
      (length (partition_shapes world).1 - (partition_shapes world).2) = Some bounds /\
    process_bvh world
      = Some (Build (select_builder (options_ world)) bounds (numfaces st)).
Proof.
  destruct (partition_shapes_meshes_first world) as (Hperm & Hmf).
  unfold process_bvh, process_starts.
  destruct (partition_shapes world) as [shapes m] eqn:Hp. simpl in *.
  rewrite <- (Permutation_length Hperm).
  destruct (start_indices_defined shapes m Hmf) as (st & Est & Hst).
  destruct (face_bounds_defined shapes st m Hmf Hst) as (bounds & Eb).
  exists st, bounds. rewrite Est. simpl. rewrite Eb. simpl. done.
Qed.

(** The rebuild stops at the check of the height, or goes on until the
    device refuses a buffer, or to the end. *)
Lemma rebuild_eq world s :
  exists st bvh,
    process_starts world = Some st /\
    starts_of (partition_shapes world).1 st /\
    process_bvh world = Some bvh /\
    rebuild world s =
      if kMaxStackSize <=? GetHeight bvh
      then Throw (ExceptionImpl what_stack_overflow) (set_m_bvh None s)
      else if Calc.max_alloc_size (m_device s) <? numvertices st * sizeof_float3
      then Throw AllocationFailure (hierarchy_built s bvh)
      else
        match world_vertices (partition_shapes world).1 st (partition_shapes world).2
                (length (partition_shapes world).1 - (partition_shapes world).2),
              process_facedata world with
        | Some vertexdata, Some facedata =>
          if Calc.max_alloc_size (m_device s)
             <? Z.of_nat (length (InjectIndices (translator_Process bvh) facedata))
                * sizeof_Node
          then Throw AllocationFailure (vertices_uploaded s st bvh vertexdata)
          else if Calc.max_alloc_size (m_device s) <? kMaxBatchSize * kMaxStackSize
          then Throw AllocationFailure (nodes_uploaded s st bvh vertexdata facedata)
          else Ret tt (rebuilt s st bvh vertexdata facedata)
        | _, _ => Undef
        end.
Proof.
  destruct (process_values world) as (st & bounds & Est & Hst & Eb & Ebvh).
  exists st, (Build (select_builder (options_ world)) bounds (numfaces st)).
  split; [done|]. split; [done|]. split; [done|].
  unfold process_facedata. rewrite Est, Ebvh.
  unfold rebuild, rebuilt, nodes_uploaded, vertices_uploaded, hierarchy_built.
  unfold process_starts in Est.
  destruct (partition_shapes world) as [shapes m]. simpl in *.
  destruct s as [[heap next max log] b v stack mb].
  rewrite Est. exec. rewrite Eb. exec.
  destruct (kMaxStackSize <=?
              GetHeight (Build (select_builder (options_ world)) bounds (numfaces st)));
    [reflexivity|].
  destruct (max <? numvertices st * sizeof_float3); [reflexivity|].
  destruct (world_vertices shapes st m (length shapes - m)) as [vd|]; [|reflexivity].
  destruct (make_facedata shapes st m _) as [fd|]; [|reflexivity].
  destruct (max <? Z.of_nat (length (InjectIndices _ fd)) * sizeof_Node);
    [do 3 f_equal; by rewrite <- !app_assoc|].
  destruct stack as [old|]; destruct (max <? kMaxBatchSize * kMaxStackSize);
    do 3 f_equal; by rewrite <- !app_assoc.
Qed.

Lemma facedata_defined world st bvh :
  process_starts world = Some st ->
  process_bvh world = Some bvh ->
  (forall x, x ∈ GetIndices bvh -> 0 <= x < numfaces st) ->
  exists facedata,
    process_facedata world = Some facedata /\
    length facedata = length (GetIndices bvh) /\
    forall i x, GetIndices bvh !! i = Some x ->
      exists face, facedata !! i = Some face /\
                   face_for (partition_shapes world).1 st x face.
Proof.
  intros Est' Hb Hrange.
  destruct (process_values world) as (st0 & bounds & Est & Hst & Eb & Ebvh).
  destruct (partition_shapes_meshes_first world) as (Hperm & Hmf).
  rewrite Est in Est'. simplify_eq.
  unfold process_facedata. rewrite Est, Hb.
  destruct (partition_shapes world) as [shapes m]. simpl in *.
  by apply make_facedata_spec.
Qed.

(** A rebuild whose three buffers the device allows completes. *)
Lemma rebuild_completes world s st bvh :
  process_starts world = Some st ->
  process_bvh world = Some bvh ->
  GetHeight bvh < kMaxStackSize ->
  (forall x, x ∈ GetIndices bvh -> 0 <= x < numfaces st) ->
  numvertices st * sizeof_float3 <= Calc.max_alloc_size (m_device s) ->
  (forall facedata,
     Z.of_nat (length (InjectIndices (translator_Process bvh) facedata)) * sizeof_Node
     <= Calc.max_alloc_size (m_device s)) ->
  kMaxBatchSize * kMaxStackSize <= Calc.max_alloc_size (m_device s) ->
  exists vertexdata facedata,
    process_facedata world = Some facedata /\
    rebuild world s = Ret tt (rebuilt s st bvh vertexdata facedata).
Proof.
  intros Est Hb Hh Hrange Hv Hn Hs.
  destruct (rebuild_eq world s) as (st0 & bvh0 & Est0 & Hst & Hb0 & ->).
  rewrite Est in Est0. rewrite Hb in Hb0. simplify_eq.
  destruct (partition_shapes_meshes_first world) as (Hperm & Hmf).
  destruct (world_vertices_defined _ _ _ Hmf Hst) as (vd & ->).
  destruct (facedata_defined world st0 bvh0 Est Hb Hrange) as (fd & -> & _).
  destruct (Z.leb_spec kMaxStackSize (GetHeight bvh0)); [lia|].
  destruct (Z.ltb_spec (Calc.max_alloc_size (m_device s)) (numvertices st0 * sizeof_float3));
    [lia|].
  specialize (Hn fd).
  destruct (Z.ltb_spec (Calc.max_alloc_size (m_device s))
              (Z.of_nat (length (InjectIndices (translator_Process bvh0) fd)) * sizeof_Node));
    [lia|].
  destruct (Z.ltb_spec (Calc.max_alloc_size (m_device s)) (kMaxBatchSize * kMaxStackSize));
    [lia|].
  by exists vd, fd.
Qed.

Lemma rebuild_too_high world s bvh :
  process_bvh world = Some bvh ->
  kMaxStackSize <= GetHeight bvh ->
  rebuild world s = Throw (ExceptionImpl what_stack_overflow) (set_m_bvh None s).
Proof.
  intros Hb Hh.
  destruct (rebuild_eq world s) as (st0 & bvh0 & _ & _ & Hb0 & ->).
  rewrite Hb in Hb0. simplify_eq.
  destruct (Z.leb_spec kMaxStackSize (GetHeight bvh0)); [done | lia].
Qed.

(** The exception of the rebuild proper is the one about the height; any
    other is a buffer that the device refused, and then the hierarchy that
    was built stays stored. *)
Lemma rebuild_throws_only world s e s' :
  rebuild world s = Throw e s' ->
  (e = ExceptionImpl what_stack_overflow /\ s' = set_m_bvh None s /\
   exists bvh, process_bvh world = Some bvh /\ kMaxStackSize <= GetHeight bvh) \/
  (e = AllocationFailure /\
   exists st bvh,
     process_starts world = Some st /\ process_bvh world = Some bvh /\
     GetHeight bvh < kMaxStackSize /\
     (s' = hierarchy_built s bvh /\
      Calc.max_alloc_size (m_device s) < numvertices st * sizeof_float3
      \/ (exists vertexdata, s' = vertices_uploaded s st bvh vertexdata)
      \/ (exists vertexdata facedata,
            s' = nodes_uploaded s st bvh vertexdata facedata /\
            Calc.max_alloc_size (m_device s) < kMaxBatchSize * kMaxStackSize))).
Proof.
  destruct (rebuild_eq world s) as (st0 & bvh0 & Est & _ & Hb0 & ->).
  destruct (Z.leb_spec kMaxStackSize (GetHeight bvh0)).
  { intros. simplify_eq. left. eauto. }
  destruct (Z.ltb_spec (Calc.max_alloc_size (m_device s)) (numvertices st0 * sizeof_float3)).
  { intros. simplify_eq. right. split; [done|]. exists st0, bvh0. eauto 10. }
  destruct (world_vertices _ _ _ _) as [vd|]; [|discriminate].
  destruct (process_facedata world) as [fd|]; [|discriminate].
  destruct (_ <? _ * sizeof_Node).
  { intros. simplify_eq. right. split; [done|]. exists st0, bvh0. eauto 10. }
  destruct (Z.ltb_spec (Calc.max_alloc_size (m_device s)) (kMaxBatchSize * kMaxStackSize));
    [|discriminate].
  intros. simplify_eq. right. split; [done|]. exists st0, bvh0.
  do 3 (split; [done|]). right. right. eauto.
Qed.

Lemma rebuild_returns world s s' :
  rebuild world s = Ret tt s' ->
  exists st bvh vertexdata facedata,
    process_starts world = Some st /\
    process_bvh world = Some bvh /\
    GetHeight bvh < kMaxStackSize /\
    process_facedata world = Some facedata /\
    s' = rebuilt s st bvh vertexdata facedata.
Proof.
  destruct (rebuild_eq world s) as (st0 & bvh0 & Est & _ & Hb0 & ->).
  destruct (Z.leb_spec kMaxStackSize (GetHeight bvh0)); [discriminate|].
  destruct (_ <? numvertices st0 * sizeof_float3); [discriminate|].
  destruct (world_vertices _ _ _ _) as [vd|]; [|discriminate].
  destruct (process_facedata world) as [fd|]; [|discriminate].
  destruct (_ <? _ * sizeof_Node); [discriminate|].
  destruct (_ <? kMaxBatchSize * kMaxStackSize); [discriminate|].
  intros. simplify_eq. by exists st0, bvh0, vd, fd.
Qed.

(** The trace of a completed rebuild ends with the exchange of the stack
    buffer, and holds the upload of the nodes with the face table. *)
Lemma rebuilt_log s st bvh vd fd :
  exists before,
    Calc.log (m_device (rebuilt s st bvh vd fd)) =
      Calc.log (m_device s) ++ before ++
      match gpu_stack s with
      | Some old => [Calc.OpDeleteBuffer (Some old)]
      | None => []
      end ++
      [Calc.OpCreateBuffer (S (S (Calc.next_handle (m_device s))))
         (kMaxBatchSize * kMaxStackSize) Calc.kWrite None;
       Calc.OpFinish 0].
Proof. eexists. unfold rebuilt. cbn [m_device Calc.log]. reflexivity. Qed.

Lemma rebuilt_stack s st bvh vd fd :
  gpu_stack (rebuilt s st bvh vd fd) = Some (S (S (Calc.next_handle (m_device s)))) /\
  Calc.heap (m_device (rebuilt s st bvh vd fd)) !! S (S (Calc.next_handle (m_device s)))
  = Some (kMaxBatchSize * kMaxStackSize).
Proof.
  unfold rebuilt. cbn [m_device gpu_stack Calc.heap]. split; [done|].
  apply lookup_insert_eq.
Qed.

Lemma rebuilt_uploads s st bvh vd fd :
  exists h size,
    Calc.OpCreateBuffer h size Calc.kRead
      (Some (NodeData (InjectIndices (translator_Process bvh) fd)))
    ∈ Calc.log (m_device (rebuilt s st bvh vd fd)).
Proof.
  exists (S (Calc.next_handle (m_device s))),
    (Z.of_nat (length (InjectIndices (translator_Process bvh) fd)) * sizeof_Node).
  unfold rebuilt. cbn [m_device Calc.log].
  apply elem_of_app. right. apply elem_of_app. left.
  apply list_elem_of_In. cbn [In]. tauto.
Qed.

End ProcessRuns.

Example sample_partition :
  partition_shapes instance_first_world
  = ([ ShapeMesh (quad 2); ShapeMesh (triangle 1);
       ShapeInstance (instance_of 3 (triangle 1) 2000) ], 2%nat).
Proof. reflexivity. Qed.

Example sample_facedata :
  process_facedata small_world
  = Some [ {| idx := (0, 1, 2); shapeidx := 1; id := 0 |};
           {| idx := (3, 4, 5); shapeidx := 2; id := 0 |};
           {| idx := (3, 5, 6); shapeidx := 2; id := 1 |};
           {| idx := (7, 8, 9); shapeidx := 3; id := 0 |} ].
Proof. vm_compute. reflexivity. Qed.

Example sample_used :
  gpu_stack used_intersector = Some 2%nat /\
  Calc.heap (m_device used_intersector) !! 2%nat = Some 50331648 /\
  (GetHeight <$> m_bvh used_intersector) = Some 4.
Proof. vm_compute. auto. Qed.

(** ** The properties of [Process] *)

Section ProcessClaims.
Context `{Accelerator}.

Lemma NoDup_fmap_eq {A B} (f : A -> B) (l : list A) (a b : A) :
  NoDup (f <$> l) -> a ∈ l -> b ∈ l -> f a = f b -> a = b.
Proof.
  induction l as [|x l IH]; simpl; intros Hnd Ha Hb Hf.
  - by apply elem_of_nil in Ha.
  - apply NoDup_cons in Hnd as [Hx Hnd].
    apply elem_of_cons in Ha as [->|Ha]; apply elem_of_cons in Hb as [->|Hb]; trivial.
    + exfalso. apply Hx. rewrite Hf. by apply list_elem_of_fmap_2.
    + exfalso. apply Hx. rewrite <- Hf. by apply list_elem_of_fmap_2.
    + by apply IH.
Qed.

(** C3, as the code has it.  [Process] partitions the shapes with
    [std::partition]: the partitioned vector holds the shapes of the world,
    each as often as the world does, with every mesh before every
    instance; [nummeshes] is the position of the first instance.  The order
    inside the two groups is not promised to be the order of the world. *)
Theorem partition_meshes_before_instances (world : World) :
  (partition_shapes world).1 ≡ₚ shapes_ world /\
  ((partition_shapes world).2 <= length (partition_shapes world).1)%nat /\
  forall (i : nat) (shape : Shape),
    (partition_shapes world).1 !! i = Some shape ->
    (is_instance shape = false <-> (i < (partition_shapes world).2)%nat).
Proof.
  destruct (partition_shapes_meshes_first world) as (Hperm & Hle & Hkind).
  split; [done|]. split; [done|].
  intros i shape Hs. destruct (Hkind i shape Hs) as [Hlo Hhi]. split.
  - intros Hm. destruct (decide (i < (partition_shapes world).2)%nat); [done|].
    rewrite Hhi in Hm by lia. discriminate.
  - exact Hlo.
Qed.

(** C5.  On a rebuild [Process] throws the exception about the stack memory
    exactly when the device's [max_alloc_size] is not greater than
    [kMaxBatchSize * kMaxStackSize * sizeof(int)]; it throws it in the state
    reached by releasing the old buffers, before anything is built (the
    stored hierarchy and the handles are as before, no buffer was created);
    when [max_alloc_size] is greater, [Process] goes on with the rebuild. *)
Theorem Process_checks_stack_memory (world : World) (s : IntersectorShortStack) :
  needs_rebuild s world = true ->
  ((exists s', Process world s = Throw (ExceptionImpl what_no_stack_memory) s')
   <-> Calc.max_alloc_size (m_device s) <= kMaxBatchSize * kMaxStackSize * sizeof_int) /\
  (Calc.max_alloc_size (m_device s) <= kMaxBatchSize * kMaxStackSize * sizeof_int ->
   Process world s = Throw (ExceptionImpl what_no_stack_memory) (after_release s) /\
   m_bvh (after_release s) = m_bvh s /\
   gpu_stack (after_release s) = gpu_stack s /\
   Calc.next_handle (m_device (after_release s)) = Calc.next_handle (m_device s)) /\
  (kMaxBatchSize * kMaxStackSize * sizeof_int < Calc.max_alloc_size (m_device s) ->
   Process world s = rebuild world (after_release s)).
Proof.
  intros Hn. rewrite (Process_rebuilds world s Hn). unfold stack_memory_limit.
  destruct (after_release_fields s) as (Hb & _ & _ & Hst & _ & Hnh & _).
  destruct (Z.leb_spec (Calc.max_alloc_size (m_device s))
              (kMaxBatchSize * kMaxStackSize * sizeof_int)) as [Hle|Hgt].
  - split; [split; eauto|]. split; [done | lia].
  - split; [|split; [lia | done]].
    split; [|lia]. intros (s' & Hthrow).
    apply rebuild_throws_only in Hthrow as [(Hwhat & _)|(Hwhat & _)]; discriminate Hwhat.
Qed.

(** C4.  On a rebuild that passes the check of the device: when the built
    hierarchy is [kMaxStackSize] (48) high or higher, [Process] throws the
    exception about the stack overflow, and [m_bvh] is null in the state it
    throws in; when [Process] returns, the stored hierarchy is the built one
    and is lower than [kMaxStackSize]. *)
Theorem Process_rejects_high_trees (world : World) (s : IntersectorShortStack) :
  needs_rebuild s world = true ->
  exists bvh,
    process_bvh world = Some bvh /\
    (kMaxBatchSize * kMaxStackSize * sizeof_int < Calc.max_alloc_size (m_device s) ->
     kMaxStackSize <= GetHeight bvh ->
     exists s', Process world s = Throw (ExceptionImpl what_stack_overflow) s' /\
                m_bvh s' = None) /\
    (forall s', Process world s = Throw (ExceptionImpl what_stack_overflow) s' ->
                m_bvh s' = None /\ kMaxStackSize <= GetHeight bvh) /\
    (forall s', Process world s = Ret tt s' ->
                m_bvh s' = Some bvh /\ GetHeight bvh < kMaxStackSize).
Proof.
  intros Hn. rewrite (Process_rebuilds world s Hn). unfold stack_memory_limit.
  destruct (process_values world) as (st & bounds & _ & _ & _ & Hb).
  eexists. split; [exact Hb|].
  destruct (Z.leb_spec (Calc.max_alloc_size (m_device s))
              (kMaxBatchSize * kMaxStackSize * sizeof_int)) as [Hle|Hgt].
  - split; [lia|]. split; intros s' Hs'; discriminate Hs'.
  - split; [|split].
    + intros _ Hh. rewrite (rebuild_too_high world _ _ Hb Hh). by eexists.
    + intros s' Hs'.
      apply rebuild_throws_only in Hs' as [(_ & -> & bvh' & Hb' & Hh)|(Hwhat & _)];
        [|discriminate Hwhat].
      rewrite Hb in Hb'. by simplify_eq.
    + intros s' Hs'.
      apply rebuild_returns in Hs' as (st' & bvh' & vd & fd & _ & Hb' & Hh & _ & ->).
      rewrite Hb in Hb'. by simplify_eq.
Qed.

(** C1, as the code has it.  A rebuild that completes deletes the stack
    buffer it finds and always creates a new one: the last operations on
    the device are the deletion of the old stack buffer, if there was one,
    the creation of the new stack buffer, and [Finish]; the new buffer is
    the stack from then on.  An existing stack buffer is never kept. *)
Theorem Process_recreates_stack (world : World) (s s' : IntersectorShortStack) :
  needs_rebuild s world = true ->
  Process world s = Ret tt s' ->
  exists (h : Calc.handle) (size : Z) (before : list (Calc.Op Payload)),
    gpu_stack s' = Some h /\
    Calc.heap (m_device s') !! h = Some size /\
    Calc.log (m_device s') =
      Calc.log (m_device s) ++ before ++
      match gpu_stack s with
      | Some old => [Calc.OpDeleteBuffer (Some old)]
      | None => []
      end ++
      [Calc.OpCreateBuffer h size Calc.kWrite None; Calc.OpFinish 0].
Proof.
  intros Hn. rewrite (Process_rebuilds world s Hn).
  destruct (Calc.max_alloc_size (m_device s) <=? stack_memory_limit); [discriminate|].
  intros Hr. apply rebuild_returns in Hr as (st & bvh & vd & fd & _ & _ & _ & _ & ->).
  destruct (after_release_fields s) as (_ & _ & _ & Hst & _ & _ & Hlog).
  destruct (rebuilt_log (after_release s) st bvh vd fd) as (before & Hl).
  destruct (rebuilt_stack (after_release s) st bvh vd fd) as (Hs & Hh).
  exists (S (S (Calc.next_handle (m_device (after_release s))))),
    (kMaxBatchSize * kMaxStackSize),
    (match m_bvh s with
     | Some _ => [Calc.OpDeleteBuffer (gpu_bvh s); Calc.OpDeleteBuffer (gpu_vertices s)]
     | None => []
     end ++ before).
  split; [exact Hs|]. split; [exact Hh|].
  rewrite Hl, Hlog, Hst. by rewrite <- !app_assoc.
Qed.

(** C6, as the code has it.  When the indices of the hierarchy are indices
    of faces, the face table is defined and has one face for every index;
    the face at position [i] is the one that [face_for] describes for
    [reordering[i]]: its [id] is the index less the owning shape's face
    start, its [shapeidx] is the shape's id, its vertex indices are those
    of the base mesh's face plus the shape's vertex start.  So the world
    has a shape with that id whose base mesh has this face.  When the ids
    of the shapes of the world are distinct, the face resolves: its
    [shapeidx] and [id] tell the mesh-local face.  [Process] does not look
    at the ids.  It is this table that a completed [Process] writes into
    the nodes it uploads. *)
Theorem face_table_resolves (world : World) (st : Starts) (bvh : Bvh) :
  process_starts world = Some st ->
  process_bvh world = Some bvh ->
  (forall x, x ∈ GetIndices bvh -> 0 <= x < numfaces st) ->
  exists facedata,
    process_facedata world = Some facedata /\
    Z.of_nat (length facedata) = GetNumIndices bvh /\
    (forall (i : nat) (x : Z), GetIndices bvh !! i = Some x ->
       exists face, facedata !! i = Some face /\
                    face_for (partition_shapes world).1 st x face /\
                    (exists shape f offset,
                       shape ∈ shapes_ world /\ GetId shape = shapeidx face /\
                       load (GetFaceData (base_mesh shape)) (id face) = Some f /\
                       idx face = (idx0 f + offset, idx1 f + offset, idx2 f + offset)) /\
                    (NoDup (GetId <$> shapes_ world) -> resolves world face)) /\
    (forall s s', needs_rebuild s world = true -> Process world s = Ret tt s' ->
       exists h size,
         Calc.OpCreateBuffer h size Calc.kRead
           (Some (NodeData (InjectIndices (translator_Process bvh) facedata)))
         ∈ Calc.log (m_device s')).
Proof.
  intros Est Hb Hrange.
  destruct (facedata_defined world st bvh Est Hb Hrange) as (fd & Efd & Hlen & Hfaces).
  destruct (partition_shapes_meshes_first world) as (Hperm & _).
  exists fd. split; [done|]. split; [unfold GetNumIndices; by rewrite Hlen|]. split.
  - intros i x Hx. destruct (Hfaces i x Hx) as (face & Hi & Hface).
    exists face. split; [done|]. split; [done|].
    destruct Hface as (k & shape & f & fstart & vstart & _ & Hs & _ & _ & Hload & ->).
    assert (Hin : shape ∈ shapes_ world).
    { rewrite <- Hperm. eapply list_elem_of_lookup_2. exact Hs. }
    split; [by exists shape, f, vstart|].
    intros Hnd. exists f, vstart. simpl. split; [by exists shape|]. split; [|done].
    intros shape' Hin' Hid.
    by rewrite (NoDup_fmap_eq GetId (shapes_ world) shape' shape Hnd Hin' Hin Hid).
  - intros s s' Hn. rewrite (Process_rebuilds world s Hn).
    destruct (Calc.max_alloc_size (m_device s) <=? stack_memory_limit); [discriminate|].
    intros Hr.
    apply rebuild_returns in Hr as (st' & bvh' & vd & fd' & _ & Hb' & _ & Efd' & ->).
    rewrite Hb in Hb'. rewrite Efd in Efd'. simplify_eq.
    apply rebuilt_uploads.
Qed.

End ProcessClaims.

(** ** [Process] on the sample inputs *)

Lemma returned {St E} (r : Res St E unit) (otherwise : St) :
  returns r = true -> r = Ret tt (state_after r otherwise).
Proof. destruct r as [[] s| |]; simpl; intros; congruence. Qed.

(** C3, as the claim states it, fails.  The world lists an instance, the
    triangle and the quad; [std::partition] exchanges the instance with the
    quad, so the quad comes before the triangle in the partitioned vector
    although the triangle comes before the quad in the world. *)
Lemma partition_not_stable :
  ~ keeps_group_order (shapes_ instance_first_world)
      (partition_shapes instance_first_world).1.
Proof.
  intros Hk.
  destruct (Hk 1%nat 2%nat (ShapeMesh (triangle 1)) (ShapeMesh (quad 2)))
    as (i' & j' & Hlt & Hi & Hj); [lia | reflexivity | reflexivity | reflexivity |].
  rewrite sample_partition in Hi, Hj. simpl in Hi, Hj.
  destruct i' as [|[|[|i']]]; simpl in Hi; try discriminate Hi.
  destruct j' as [|[|[|j']]]; simpl in Hj; try discriminate Hj; lia.
Qed.

(** C5 on a device whose [max_alloc_size] is exactly the size of the
    stack: the check fails and nothing is built. *)
Lemma Process_checks_stack_memory_witness :
  Process small_world starved_intersector
  = Throw (ExceptionImpl what_no_stack_memory) (after_release starved_intersector).
Proof.
  destruct (Process_checks_stack_memory small_world starved_intersector)
    as (_ & Hthrow & _).
  - vm_compute. reflexivity.
  - destruct Hthrow as (Hthrow & _).
    + vm_compute. discriminate.
    + exact Hthrow.
Defined.

(** C4 on the strip of 48 triangles, whose chain is 48 high, and on the
    small world, whose chain is 4 high. *)
Lemma Process_rejects_high_trees_witness :
  (exists s', Process strip_world fresh_intersector
              = Throw (ExceptionImpl what_stack_overflow) s' /\ m_bvh s' = None) /\
  (GetHeight <$> m_bvh used_intersector) = Some 4.
Proof.
  split.
  - destruct (Process_rejects_high_trees strip_world fresh_intersector)
      as (bvh & Hb & Hthrow & _); [vm_compute; reflexivity|].
    apply Hthrow.
    + vm_compute. reflexivity.
    + vm_compute in Hb. injection Hb as <-. vm_compute. discriminate.
  - destruct (Process_rejects_high_trees small_world fresh_intersector)
      as (bvh & Hb & _ & _ & Hret); [vm_compute; reflexivity|].
    destruct (Hret used_intersector) as (Hm & _).
    + apply (returned (Process small_world fresh_intersector) fresh_intersector).
      vm_compute. reflexivity.
    + rewrite Hm. vm_compute in Hb. injection Hb as <-. reflexivity.
Defined.

(** C1, as the claim states it, fails.  The intersector that has processed
    the small world holds the stack buffer 2; the world has changed, and the
    next [Process] returns with buffer 2 deleted and buffer 5 as the stack. *)
Lemma existing_stack_not_kept :
  gpu_stack used_intersector = Some 2%nat /\
  Calc.heap (m_device used_intersector) !! 2%nat = Some 50331648 /\
  needs_rebuild used_intersector small_world = true /\
  returns (Process small_world used_intersector) = true /\
  gpu_stack (state_after (Process small_world used_intersector) used_intersector)
  = Some 5%nat /\
  Calc.heap (m_device (state_after (Process small_world used_intersector)
                         used_intersector)) !! 2%nat = None.
Proof. vm_compute. repeat split; reflexivity. Qed.

(** C1, as the code has it, on the same input. *)
Lemma Process_recreates_stack_witness :
  exists (h : Calc.handle) (size : Z) (before : list (Calc.Op Payload)),
    gpu_stack (state_after (Process small_world used_intersector) used_intersector)
      = Some h /\
    Calc.log (m_device (state_after (Process small_world used_intersector)
                          used_intersector)) =
      Calc.log (m_device used_intersector) ++ before ++
      match gpu_stack used_intersector with
      | Some old => [Calc.OpDeleteBuffer (Some old)]
      | None => []
      end ++
      [Calc.OpCreateBuffer h size Calc.kWrite None; Calc.OpFinish 0].
Proof.
  destruct (Process_recreates_stack small_world used_intersector
              (state_after (Process small_world used_intersector) used_intersector))
    as (h & size & before & Hs & _ & Hlog).
  - vm_compute. reflexivity.
  - apply returned. vm_compute. reflexivity.
  - exists h, size, before. split; [exact Hs | exact Hlog].
Defined.

(** C6, as the claim states it, fails when two shapes have one id.  The
    triangle and the quad of [dup_world] both have the id 1; [Process]
    returns, and the third face of its table is face 1 of a shape with the
    id 1, but the triangle, which has the id 1, has no face 1. *)
Lemma duplicate_ids_do_not_resolve :
  returns (Process dup_world fresh_intersector) = true /\
  process_facedata dup_world
  = Some [ {| idx := (0, 1, 2); shapeidx := 1; id := 0 |};
           {| idx := (3, 4, 5); shapeidx := 1; id := 0 |};
           {| idx := (3, 5, 6); shapeidx := 1; id := 1 |} ] /\
  ~ resolves dup_world {| idx := (3, 5, 6); shapeidx := 1; id := 1 |}.
Proof.
  split; [vm_compute; reflexivity|]. split; [vm_compute; reflexivity|].
  intros (f & offset & _ & Hall & _).
  specialize (Hall (ShapeMesh (triangle 1))).
  assert (Hnone : load (GetFaceData (base_mesh (ShapeMesh (triangle 1)))) 1 = None)
    by reflexivity.
  cbn [id shapeidx] in Hall. rewrite Hnone in Hall.
  assert (Hfalse : None = Some f); [|discriminate Hfalse].
  apply Hall; [|reflexivity].
  apply elem_of_cons. by left.
Qed.

(** C6, as the code has it, on the small world, whose shapes have the ids
    1, 3 and 2: every face of its table resolves. *)
Lemma face_table_resolves_witness :
  exists facedata,
    process_facedata small_world = Some facedata /\
    length facedata = 4%nat /\
    forall face, face ∈ facedata -> resolves small_world face.
Proof.
  edestruct (face_table_resolves small_world) as (fd & Efd & Hlen & Hfaces & _).
  - vm_compute. reflexivity.
  - vm_compute. reflexivity.
  - intros x Hx. simpl in Hx.
    rewrite !elem_of_cons, elem_of_nil in Hx.
    destruct Hx as [->|[->|[->|[->|[]]]]]; simpl; lia.
  - assert (Hlen' : length fd = 4%nat).
    { unfold GetNumIndices in Hlen. cbn [GetIndices length] in Hlen. lia. }
    exists fd. split; [exact Efd|]. split; [exact Hlen'|].
    intros face Hin. apply list_elem_of_lookup in Hin as [i Hi].
    pose proof (lookup_lt_Some _ _ _ Hi) as Hlt.
    destruct (lookup_lt_is_Some_2 [0; 1; 2; 3] i) as [x Hx]; [cbn [length]; lia|].
    destruct (Hfaces i x Hx) as (face' & Hi' & _ & _ & Hres).
    rewrite Hi in Hi'. injection Hi' as <-. apply Hres.
    apply (bool_decide_unpack (NoDup _)). vm_compute. exact I.
Defined.

(** ** [Intersect] and [Occluded] *)

Section LaunchFacts.
Context `{Accelerator}.

(** The stack size that the two functions compute never exceeds the exact
    product. *)
Lemma stack_size_le (maxrays : Z) :
  0 <= maxrays ->
  wrap32 (wrap32 (4 * maxrays) * kMaxStackSize) <= 4 * maxrays * kMaxStackSize.
Proof.
  intros Hm. unfold wrap32, kMaxStackSize.
  pose proof (Z.mod_le (4 * maxrays) (2 ^ 32) ltac:(lia) ltac:(lia)).
  pose proof (Z.mod_pos_bound (4 * maxrays) (2 ^ 32) ltac:(lia)).
  pose proof (Z.mod_le ((4 * maxrays) mod 2 ^ 32 * 48) (2 ^ 32) ltac:(lia) ltac:(lia)).
  lia.
Qed.

(** The global size that the two functions compute. *)
Lemma globalsize_eq (maxrays : Z) :
  0 <= maxrays <= 2 ^ 32 - 64 ->
  wrap32 (wrap32 (wrap32 (wrap32 (maxrays + kWorkGroupSize) - 1) / kWorkGroupSize)
          * kWorkGroupSize)
  = (maxrays + 63) / 64 * 64.
Proof.
  intros Hm. unfold wrap32, kWorkGroupSize.
  rewrite Zminus_mod_idemp_l.
  replace (maxrays + 64 - 1) with (maxrays + 63) by lia.
  rewrite (Z.mod_small (maxrays + 63)) by lia.
  assert (0 <= (maxrays + 63) / 64 < 2 ^ 32).
  { split; [apply Z.div_pos; lia|]. apply Z.div_lt_upper_bound; lia. }
  rewrite (Z.mod_small ((maxrays + 63) / 64)) by lia.
  apply Z.mod_small. split; [lia|].
  pose proof (Z.mul_div_le (maxrays + 63) 64 ltac:(lia)). lia.
Qed.

Lemma round_up_smallest (maxrays : Z) :
  0 <= maxrays ->
  smallest_multiple_at_least 64 maxrays ((maxrays + 63) / 64 * 64).
Proof.
  intros Hm. split; [|split].
  - exists ((maxrays + 63) / 64). lia.
  - pose proof (Z.div_mod (maxrays + 63) 64 ltac:(lia)).
    pose proof (Z.mod_pos_bound (maxrays + 63) 64 ltac:(lia)). lia.
  - intros g' [k ->] Hg.
    assert ((maxrays + 63) / 64 < k + 1); [|lia].
    apply Z.div_lt_upper_bound; lia.
Qed.

Lemma exchange_since_app s s1 (ops : list (Calc.Op Payload)) :
  Calc.log (m_device s1) = Calc.log (m_device s) ++ ops ->
  Calc.log (m_device (exchange_since s s1))
  = Calc.log (m_device s) ++ (exchange_function <$> ops).
Proof.
  intros Hlog. unfold exchange_since. simpl. rewrite Hlog.
  by rewrite take_app_length, drop_app_length.
Qed.

(** What [Intersect] does, operation by operation. *)
Lemma Intersect_eq queueidx rays numrays maxrays hits waitevent event s :
  Intersect queueidx rays numrays maxrays hits waitevent event s =
    match Calc.GetSize (gpu_stack s) (m_device s) with
    | None => Undef
    | Some size =>
      let stack_size := required_stack_size maxrays in
      let h := Calc.next_handle (m_device s) in
      let resize := size <? stack_size in
      let stack := if resize then Some h else gpu_stack s in
      if resize && (Calc.max_alloc_size (m_device s) <? stack_size)
      then Throw AllocationFailure (stack_released s)
      else
      Ret tt
        {| m_device :=
             {| Calc.heap :=
                  if resize
                  then <[h := stack_size]>
                         (match gpu_stack s with
                          | Some old => delete old (Calc.heap (m_device s))
                          | None => Calc.heap (m_device s)
                          end)
                  else Calc.heap (m_device s);
                Calc.next_handle := if resize then S h else h;
                Calc.max_alloc_size := Calc.max_alloc_size (m_device s);
                Calc.log :=
                  Calc.log (m_device s) ++
                  (if resize
                   then [Calc.OpDeleteBuffer (gpu_stack s);
                         Calc.OpCreateBuffer h stack_size Calc.kWrite None]
                   else []) ++
                  [Calc.OpSetArg Calc.intersect_main 0 (gpu_bvh s);
                   Calc.OpSetArg Calc.intersect_main 1 (gpu_vertices s);
                   Calc.OpSetArg Calc.intersect_main 2 rays;
                   Calc.OpSetArg Calc.intersect_main 3 numrays;
                   Calc.OpSetArg Calc.intersect_main 4 stack;
                   Calc.OpSetArg Calc.intersect_main 5 hits;
                   Calc.OpExecute Calc.intersect_main queueidx
                     (wrap32 (wrap32 (wrap32 (wrap32 (maxrays + kWorkGroupSize) - 1)
                                      / kWorkGroupSize) * kWorkGroupSize))
                     kWorkGroupSize event] |};
           gpu_bvh := gpu_bvh s;
           gpu_vertices := gpu_vertices s;
           gpu_stack := stack;
           m_bvh := m_bvh s |}
    end.
Proof.
  destruct s as [[heap next max log] b v stack mb].
  unfold Intersect, required_stack_size, stack_released. exec.
  destruct (Calc.GetSize stack _) as [size|]; [|reflexivity].
  destruct (size <? wrap32 (wrap32 (4 * maxrays) * kMaxStackSize)); cbn [andb];
    [destruct (max <? wrap32 (wrap32 (4 * maxrays) * kMaxStackSize)); [reflexivity|]|];
    do 3 f_equal; rewrite <- ?app_assoc; reflexivity.
Qed.

Lemma Occluded_eq queueidx rays numrays maxrays hits waitevent event s :
  Occluded queueidx rays numrays maxrays hits waitevent event s =
    match Intersect queueidx rays numrays maxrays hits waitevent event s with
    | Ret a s1 => Ret a (exchange_since s s1)
    | Throw e s1 => Throw e (exchange_since s s1)
    | Undef => Undef
    end.
Proof.
  rewrite Intersect_eq.
  destruct s as [[heap next max log] b v stack mb].
  unfold Occluded, exchange_since, required_stack_size, stack_released. exec.
  destruct (Calc.GetSize stack _) as [size|]; [|reflexivity].
  destruct (size <? wrap32 (wrap32 (4 * maxrays) * kMaxStackSize)); cbn [andb];
    [destruct (max <? wrap32 (wrap32 (4 * maxrays) * kMaxStackSize))|];
    rewrite take_app_length, drop_app_length;
    cbn [fmap list_fmap app exchange_function other_function];
    do 3 f_equal; rewrite <- ?app_assoc; reflexivity.
Qed.

(** A refused stack leaves no operation of a kernel in the log, so the two
    functions leave the same state. *)
Lemma exchange_since_released s : exchange_since s (stack_released s) = stack_released s.
Proof.
  destruct s as [[heap next max log] b v stack mb].
  unfold exchange_since, stack_released. exec.
  by rewrite take_app_length, drop_app_length.
Qed.

End LaunchFacts.

Section LaunchClaims.
Context `{Accelerator}.

(** C9, as the code has it.  For every input, [Occluded] does what
    [Intersect] does with [occluded_main] in the place of [intersect_main].
    With a live stack buffer: the stack is reallocated only when
    [4 * maxrays * kMaxStackSize] exceeds the size of the current stack
    buffer; when no larger stack is needed, or the device allows it,
    [Intersect] returns; the arguments are bound in the order nodes,
    vertices, rays, numrays, stack, hits; the local size is 64; and the
    global size is the smallest multiple of 64 that is at least [maxrays]
    as long as [maxrays] is at most [2^32 - 64] (above that the 32-bit sum
    [maxrays + 63] wraps around).  When a larger stack is needed and the
    device refuses it, both functions throw in the same state, the old
    stack deleted. *)
Theorem Intersect_Occluded_agree
    (queueidx : Z) (rays numrays : option Calc.handle) (maxrays : Z)
    (hits : option Calc.handle) (waitevent : option nat) (event : bool)
    (s : IntersectorShortStack) :
  0 <= maxrays < 2 ^ 32 ->
  Occluded queueidx rays numrays maxrays hits waitevent event s
  = match Intersect queueidx rays numrays maxrays hits waitevent event s with
    | Ret a s1 => Ret a (exchange_since s s1)
    | Throw e s1 => Throw e (exchange_since s s1)
    | Undef => Undef
    end /\
  forall size, Calc.GetSize (gpu_stack s) (m_device s) = Some size ->
    (required_stack_size maxrays <= size \/
     required_stack_size maxrays <= Calc.max_alloc_size (m_device s) ->
     exists s1 resize globalsize,
      Intersect queueidx rays numrays maxrays hits waitevent event s = Ret tt s1 /\
      Calc.log (m_device s1) =
        Calc.log (m_device s) ++ resize ++
        [Calc.OpSetArg Calc.intersect_main 0 (gpu_bvh s1);
         Calc.OpSetArg Calc.intersect_main 1 (gpu_vertices s1);
         Calc.OpSetArg Calc.intersect_main 2 rays;
         Calc.OpSetArg Calc.intersect_main 3 numrays;
         Calc.OpSetArg Calc.intersect_main 4 (gpu_stack s1);
         Calc.OpSetArg Calc.intersect_main 5 hits;
         Calc.OpExecute Calc.intersect_main queueidx globalsize 64 event] /\
      (resize = [] /\ gpu_stack s1 = gpu_stack s \/
       exists h stack_size,
         resize = [Calc.OpDeleteBuffer (gpu_stack s);
                   Calc.OpCreateBuffer h stack_size Calc.kWrite None] /\
         gpu_stack s1 = Some h /\
         size < 4 * maxrays * kMaxStackSize) /\
      (maxrays <= 2 ^ 32 - 64 -> smallest_multiple_at_least 64 maxrays globalsize)) /\
    (size < required_stack_size maxrays ->
     Calc.max_alloc_size (m_device s) < required_stack_size maxrays ->
     Intersect queueidx rays numrays maxrays hits waitevent event s
     = Throw AllocationFailure (stack_released s) /\
     Occluded queueidx rays numrays maxrays hits waitevent event s
     = Throw AllocationFailure (stack_released s)).
Proof.
  intros Hm. split; [apply Occluded_eq|].
  intros size Hsize. rewrite Occluded_eq, Intersect_eq, Hsize. cbv zeta.
  pose proof (stack_size_le maxrays ltac:(lia)) as Hle.
  fold (required_stack_size maxrays) in Hle.
  set (stack_size := required_stack_size maxrays) in *.
  set (globalsize :=
         wrap32 (wrap32 (wrap32 (wrap32 (maxrays + kWorkGroupSize) - 1) / kWorkGroupSize)
                 * kWorkGroupSize)).
  assert (Hg : maxrays <= 2 ^ 32 - 64 -> smallest_multiple_at_least 64 maxrays globalsize).
  { intros Hmax. unfold globalsize. rewrite globalsize_eq by lia.
    apply round_up_smallest. lia. }
  destruct (Z.ltb_spec size stack_size) as [Hlt|Hge];
    destruct (Z.ltb_spec (Calc.max_alloc_size (m_device s)) stack_size) as [Hno|Hyes];
    cbn [andb]; cbv iota.
  - split; [intros [?|?]; lia|]. intros _ _.
    split; [reflexivity|]. by rewrite exchange_since_released.
  - split; [|intros; lia]. intros _. eexists.
    exists [Calc.OpDeleteBuffer (gpu_stack s);
            Calc.OpCreateBuffer (Calc.next_handle (m_device s)) stack_size Calc.kWrite None],
      globalsize.
    split; [reflexivity|]. cbn [m_device Calc.log gpu_bvh gpu_vertices gpu_stack].
    split; [reflexivity|]. split; [|exact Hg].
    right. exists (Calc.next_handle (m_device s)), stack_size.
    split; [reflexivity|]. split; [reflexivity | lia].
  - split; [|intros; lia]. intros _. eexists. exists [], globalsize.
    split; [reflexivity|]. cbn [m_device Calc.log gpu_bvh gpu_vertices gpu_stack].
    split; [reflexivity|]. split; [|exact Hg].
    by left.
  - split; [|intros; lia]. intros _. eexists. exists [], globalsize.
    split; [reflexivity|]. cbn [m_device Calc.log gpu_bvh gpu_vertices gpu_stack].
    split; [reflexivity|]. split; [|exact Hg].
    by left.
Qed.

End LaunchClaims.

(** C9 on the intersector that has processed the small world, for 1000
    rays: the stack is large enough, and 1024 work items are launched. *)
Lemma Intersect_Occluded_agree_witness :
  exists s1,
    Intersect 0 (Some 7%nat) (Some 8%nat) 1000 (Some 9%nat) None false used_intersector
      = Ret tt s1 /\
    Occluded 0 (Some 7%nat) (Some 8%nat) 1000 (Some 9%nat) None false used_intersector
      = Ret tt (exchange_since used_intersector s1) /\
    exists resize,
      Calc.log (m_device s1) =
        Calc.log (m_device used_intersector) ++ resize ++
        [Calc.OpSetArg Calc.intersect_main 0 (gpu_bvh s1);
         Calc.OpSetArg Calc.intersect_main 1 (gpu_vertices s1);
         Calc.OpSetArg Calc.intersect_main 2 (Some 7%nat);
         Calc.OpSetArg Calc.intersect_main 3 (Some 8%nat);
         Calc.OpSetArg Calc.intersect_main 4 (gpu_stack s1);
         Calc.OpSetArg Calc.intersect_main 5 (Some 9%nat);
         Calc.OpExecute Calc.intersect_main 0 1024 64 false].
Proof.
  destruct (Intersect_Occluded_agree 0 (Some 7%nat) (Some 8%nat) 1000 (Some 9%nat)
              None false used_intersector) as (Hocc & Hint).
  - lia.
  - destruct (Hint 50331648) as (Hret & _); [vm_compute; reflexivity|].
    destruct Hret as (s1 & resize & g & Hs1 & Hlog & _ & Hg);
      [left; vm_compute; discriminate|].
    rewrite Hs1 in Hocc.
    exists s1. split; [exact Hs1|]. split; [exact Hocc|].
    exists resize.
    assert (Hg' : g = 1024).
    { destruct Hg as ([k Hk] & Hle & Hmin); [lia|].
      specialize (Hmin 1024 ltac:(exists 16; lia) ltac:(lia)). lia. }
    rewrite <- Hg'. exact Hlog.
Defined.

(** C9, as the claim states it, fails for the largest number of rays: the
    32-bit sum [maxrays + 64 - 1] wraps around to 62, and no work item is
    launched.  The device allows the stack that this number of rays asks
    for. *)
Lemma global_size_wraps :
  returns (Intersect 0 (Some 7%nat) (Some 8%nat) 4294967295 (Some 9%nat) None false
             roomy_intersector) = true /\
  last (Calc.log (m_device
          (state_after
             (Intersect 0 (Some 7%nat) (Some 8%nat) 4294967295 (Some 9%nat) None false
                roomy_intersector) roomy_intersector)))
  = Some (Calc.OpExecute Calc.intersect_main 0 0 64 false) /\
  ~ smallest_multiple_at_least 64 4294967295 0.
Proof.
  split; [vm_compute; reflexivity|]. split; [vm_compute; reflexivity|].
  intros (_ & Hle & _). lia.
Qed.

(** * Part IV.  Properties of the renderer *)

Section RendererFacts.
Context `{Numerics} `{Host}.

Lemma dispatches_app (a b : list (Event float3)) :
  dispatches (a ++ b) = dispatches a ++ dispatches b.
Proof. apply omap_app. Qed.

Lemma runs_ret s : runs (ret tt) s [] 0.
Proof.
  exists s, []. repeat split; trivial; [lia | by rewrite app_nil_r].
Qed.

Lemma runs_emit e s : runs (emit e) s (dispatches [e]) 0.
Proof.
  eexists _, [e]. unfold emit, modify. split; [reflexivity|].
  cbn [m_outputs m_render_data m_num_bounces m_framecnt events].
  repeat split; trivial. lia.
Qed.

Lemma runs_bind m k s d1 d2 f1 f2 :
  runs m s d1 f1 ->
  (forall s', kept s s' -> runs k s' d2 f2) ->
  runs (bind m (fun _ => k)) s (d1 ++ d2) (f1 + f2).
Proof.
  intros (s1 & e1 & E1 & Ho1 & Hr1 & Hn1 & Hf1 & Hev1 & Hd1) Hk.
  destruct (Hk s1) as (s2 & e2 & E2 & Ho2 & Hr2 & Hn2 & Hf2 & Hev2 & Hd2); [done|].
  exists s2, (e1 ++ e2). unfold bind. rewrite E1. repeat split; try congruence.
  - lia.
  - by rewrite Hev2, Hev1, app_assoc.
  - by rewrite dispatches_app, Hd1, Hd2.
Qed.

Lemma runs_gets {A} (f : PtRenderer -> A) (k : A -> Rend unit) s ds df :
  runs (k (f s)) s ds df -> runs (bind (gets f) k) s ds df.
Proof. done. Qed.

Lemma runs_rand (k : Z -> Rend unit) s ds df :
  (forall z s', kept s s' -> m_framecnt s' = m_framecnt s -> events s' = events s ->
     runs (k z) s' ds df) ->
  runs (bind rand_uint k) s ds df.
Proof.
  intros Hk. unfold bind, rand_uint.
  destruct (Hk (rand_uint_nth (rand_calls s))
              {| m_outputs := m_outputs s; m_render_data := m_render_data s;
                 m_num_bounces := m_num_bounces s; m_framecnt := m_framecnt s;
                 rand_calls := S (rand_calls s); events := events s |})
    as (s2 & e2 & E2 & Ho2 & Hr2 & Hn2 & Hf2 & Hev2 & Hd2); try done.
  by exists s2, e2.
Qed.

Lemma runs_color (k : Output -> Rend unit) s out ds df :
  m_outputs s !! kColor = Some out ->
  runs (k out) s ds df -> runs (bind color_output k) s ds df.
Proof.
  intros Hc Hk. unfold runs, bind, color_output, GetOutput, gets, deref, bind.
  rewrite Hc. exact Hk.
Qed.

Lemma runs_weaken m s ds ds' df df' :
  runs m s ds df -> ds = ds' -> df = df' -> runs m s ds' df'.
Proof. by intros ? <- <-. Qed.

(** An event whose dispatch does not depend on the state it is emitted in. *)
Ltac emits := eapply runs_weaken; [apply runs_emit | simpl; reflexivity | reflexivity].

(** The kernels of the bounce loop, one dispatch each. *)
Ltac one_kernel out Hc :=
  apply (runs_color _ _ out); [exact Hc|];
  try (apply runs_rand; intros ? ? _ _ _);
  try apply runs_gets;
  apply runs_emit.

Lemma GeneratePrimaryRays_runs scene output s :
  runs (GeneratePrimaryRays scene output) s [Kernel (generate_kernel scene)] 0.
Proof.
  unfold GeneratePrimaryRays, generate_kernel.
  apply runs_rand; intros ? ? _ _ _. apply runs_gets.
  destruct (camera_type scene); apply runs_emit.
Qed.

Lemma EvaluateVolume_runs scene pass s out :
  m_outputs s !! kColor = Some out ->
  runs (EvaluateVolume scene pass) s [Kernel "EvaluateVolume"] 0.
Proof. intros Hc. unfold EvaluateVolume. one_kernel out Hc. Qed.

Lemma ShadeMiss_runs scene pass s out :
  m_outputs s !! kColor = Some out ->
  runs (ShadeMiss scene pass) s [Kernel "ShadeMiss"] 0.
Proof. intros Hc. unfold ShadeMiss. one_kernel out Hc. Qed.

Lemma FilterPathStream_runs pass s out :
  m_outputs s !! kColor = Some out ->
  runs (FilterPathStream pass) s [Kernel "FilterPathStream"] 0.
Proof. intros Hc. unfold FilterPathStream. one_kernel out Hc. Qed.

Lemma RestorePixelIndices_runs pass s out :
  m_outputs s !! kColor = Some out ->
  runs (RestorePixelIndices pass) s [Kernel "RestorePixelIndices"] 0.
Proof. intros Hc. unfold RestorePixelIndices. one_kernel out Hc. Qed.

Lemma ShadeVolume_runs scene pass s out :
  m_outputs s !! kColor = Some out ->
  runs (ShadeVolume scene pass) s [Kernel "ShadeVolume"] 0.
Proof. intros Hc. unfold ShadeVolume. one_kernel out Hc. Qed.

Lemma ShadeSurface_runs scene pass s out :
  m_outputs s !! kColor = Some out ->
  runs (ShadeSurface scene pass) s [Kernel "ShadeSurface"] 0.
Proof. intros Hc. unfold ShadeSurface. one_kernel out Hc. Qed.

Lemma ShadeBackground_runs scene pass s out :
  m_outputs s !! kColor = Some out ->
  runs (ShadeBackground scene pass) s [Kernel "ShadeBackgroundEnvMap"] 0.
Proof. intros Hc. unfold ShadeBackground. one_kernel out Hc. Qed.

Lemma GatherLightSamples_runs scene pass s out :
  m_outputs s !! kColor = Some out ->
  runs (GatherLightSamples scene pass) s [Kernel "GatherLightSamples"] 0.
Proof. intros Hc. unfold GatherLightSamples. one_kernel out Hc. Qed.

(** One pass of the bounce loop. *)
Lemma bounce_runs scene maxrays pass s out :
  m_outputs s !! kColor = Some out ->
  runs (bounce scene maxrays pass) s (pass_dispatches pass (envmapidx scene)) 0.
Proof.
  intros Hc. unfold bounce, pass_dispatches.
  assert (Hk : forall s', kept s s' -> m_outputs s' !! kColor = Some out).
  { intros s' (Ho & _). by rewrite Ho. }
  apply runs_gets.
  eapply runs_weaken.
  { apply runs_bind; [apply runs_emit|]. intros s1 K1.
    apply runs_bind; [apply runs_emit|]. intros s2 K2.
    apply runs_bind; [apply (EvaluateVolume_runs _ _ _ out); rewrite (proj1 K2); auto|].
    intros s3 K3.
    apply runs_bind.
    { instantiate (1 := 0).
      instantiate (1 := if (0 <? pass) && (-1 <? envmapidx scene)
                        then [Kernel "ShadeMiss"] else []).
      destruct ((0 <? pass) && (-1 <? envmapidx scene)).
      - apply (ShadeMiss_runs _ _ _ out). rewrite (proj1 K3), (proj1 K2). auto.
      - apply runs_ret. }
    intros s4 K4.
    assert (H4 : m_outputs s4 !! kColor = Some out)
      by (rewrite (proj1 K4), (proj1 K3), (proj1 K2); auto).
    apply runs_bind; [by apply (FilterPathStream_runs _ _ out)|]. intros s5 K5.
    apply runs_bind; [apply runs_emit|]. intros s6 K6.
    assert (H6 : m_outputs s6 !! kColor = Some out)
      by (rewrite (proj1 K6), (proj1 K5); auto).
    apply runs_bind; [by apply (RestorePixelIndices_runs _ _ out)|]. intros s7 K7.
    apply runs_bind;
      [apply (ShadeVolume_runs _ _ _ out); by rewrite (proj1 K7)|]. intros s8 K8.
    apply runs_bind;
      [apply (ShadeSurface_runs _ _ _ out); by rewrite (proj1 K8), (proj1 K7)|].
    intros s9 K9.
    assert (H9 : m_outputs s9 !! kColor = Some out)
      by (rewrite (proj1 K9), (proj1 K8), (proj1 K7); auto).
    apply runs_bind.
    { instantiate (1 := 0).
      instantiate (1 := if pass =? 0 then [Kernel "ShadeBackgroundEnvMap"] else []).
      destruct (pass =? 0).
      - by apply (ShadeBackground_runs _ _ _ out).
      - apply runs_ret. }
    intros s10 K10.
    apply runs_bind; [apply runs_emit|]. intros s11 K11.
    apply runs_bind;
      [apply (GatherLightSamples_runs _ _ _ out);
       by rewrite (proj1 K11), (proj1 K10)|].
    intros s12 K12. apply runs_emit. }
  - simpl. destruct ((0 <? pass) && (-1 <? envmapidx scene)); destruct (pass =? 0);
      reflexivity.
  - reflexivity.
Qed.

(** A loop of steps that run. *)
Lemma for_loop_runs (body : Z -> Rend unit) (f : Z -> list Dispatch) :
  forall (n : nat) (lo : Z) (s : PtRenderer),
    (forall i s', kept s s' -> runs (body i) s' (f i) 0) ->
    runs (for_loop n lo body) s (flat_map f (seqZ lo (Z.of_nat n))) 0.
Proof.
  induction n as [|n IH]; intros lo s Hbody.
  - apply runs_ret.
  - rewrite seqZ_cons by lia. simpl.
    replace (Z.pred (Z.of_nat (S n))) with (Z.of_nat n) by lia.
    apply (runs_bind _ _ _ _ _ 0 0).
    + apply Hbody. by repeat split.
    + intros s1 (Ho1 & Hr1 & Hn1). apply IH.
      intros i s2 (Ho2 & Hr2 & Hn2). apply Hbody. repeat split; congruence.
Qed.

Lemma runs_deref {A} (a : A) (k : A -> Rend unit) s ds df :
  runs (k a) s ds df -> runs (bind (deref (Some a)) k) s ds df.
Proof. done. Qed.

Lemma FillAOVs_runs scene s :
  aov_pass_needed (m_outputs s) = true ->
  runs (FillAOVs scene) s (aov_dispatches scene) 0.
Proof.
  intros Hn. unfold FillAOVs, GetOutput.
  apply runs_gets. apply runs_gets.
  assert (Hfound : exists o,
             match m_outputs s !! kColor with
             | Some o => Some o
             | None => first_bound_output (m_outputs s) (kMax - 1) 1
             end = Some o).
  { destruct (m_outputs s !! kColor) as [o|]; [by exists o|].
    unfold aov_pass_needed in Hn. apply bool_decide_eq_true in Hn as [o Ho].
    by exists o. }
  destruct Hfound as (o & ->). apply runs_deref.
  eapply runs_weaken.
  { apply runs_bind; [apply GeneratePrimaryRays_runs|]. intros s1 K1.
    apply runs_bind; [emits|]. intros s2 K2.
    apply runs_rand. intros z s3 K3 _ _. apply runs_gets.
    emits. }
  - reflexivity.
  - reflexivity.
Qed.

Lemma count_frame_runs s : runs (bind (gets m_framecnt) (fun f => set_framecnt (f + 1))) s [] 1.
Proof.
  eexists _, []. unfold bind, gets, set_framecnt, modify. simpl.
  repeat split; trivial. by rewrite app_nil_r.
Qed.

(** A frame. *)
Lemma Render_runs scene s : runs (Render scene) s (frame_dispatches scene s) 1.
Proof.
  unfold Render, frame_dispatches, GetOutput.
  eapply runs_weaken.
  { apply runs_bind; [emits|]. intros s1 (Ho1 & Hr1 & Hn1).
    apply runs_gets.
    apply runs_bind.
    { instantiate (1 := 0).
      instantiate (1 := match m_outputs s !! kColor with
                        | Some _ =>
                          Kernel (generate_kernel (CompileScene scene))
                          :: flat_map
                               (fun pass =>
                                  pass_dispatches pass (envmapidx (CompileScene scene)))
                               (seqZ 0 (m_num_bounces s))
                        | None => []
                        end).
      rewrite Ho1. destruct (m_outputs s !! kColor) as [out|] eqn:Hc; [|apply runs_ret].
      eapply runs_weaken.
      { apply runs_bind; [apply GeneratePrimaryRays_runs|]. intros s2 (Ho2 & Hr2 & Hn2).
        apply runs_gets.
        apply runs_bind; [emits|]. intros s3 (Ho3 & Hr3 & Hn3).
        apply runs_bind; [emits|]. intros s4 (Ho4 & Hr4 & Hn4).
        apply runs_bind; [emits|]. intros s5 (Ho5 & Hr5 & Hn5).
        apply runs_gets.
        replace (m_num_bounces s5) with (m_num_bounces s) by congruence.
        apply (for_loop_runs _
                 (fun pass => pass_dispatches pass (envmapidx (CompileScene scene)))).
        intros pass s6 (Ho6 & _).
        apply (bounce_runs _ _ _ _ out). congruence. }
      - simpl. f_equal. f_equal. unfold seqZ. by rewrite Nat2Z.id.
      - reflexivity. }
    intros s2 (Ho2 & Hr2 & Hn2).
    apply runs_gets.
    apply runs_bind.
    { instantiate (1 := 0).
      instantiate (1 := if aov_pass_needed (m_outputs s)
                        then aov_dispatches (CompileScene scene) else []).
      replace (m_outputs s2) with (m_outputs s) by congruence.
      destruct (aov_pass_needed (m_outputs s)) eqn:Hn; [|apply runs_ret].
      eapply runs_weaken.
      { apply runs_bind; [apply FillAOVs_runs; congruence|]. intros s3 K3.
        emits. }
      - reflexivity.
      - reflexivity. }
    intros s3 K3. apply count_frame_runs. }
  - cbn [app]. by rewrite app_nil_r.
  - reflexivity.
Qed.

End RendererFacts.

(** ** The frame counter *)

Section FrameCounter.
Context `{Numerics} `{Host}.

Lemma keeps_bind {A B} (m : Rend A) (k : A -> Rend B) :
  keeps_framecnt m -> (forall a, keeps_framecnt (k a)) -> keeps_framecnt (bind m k).
Proof.
  intros Hm Hk s b s'. unfold bind. destruct (m s) as [a s1| |] eqn:E; try discriminate.
  intros E'. rewrite (Hk a _ _ _ E'). by apply (Hm s a).
Qed.

Lemma keeps_ret {A} (a : A) : keeps_framecnt (ret a).
Proof. intros s b s' E. cbv [ret] in E. by simplify_eq. Qed.

Lemma keeps_gets {A} (f : PtRenderer -> A) : keeps_framecnt (gets f).
Proof. intros s b s' E. cbv [gets] in E. by simplify_eq. Qed.

Lemma keeps_get : keeps_framecnt (get (St := PtRenderer) (E := Exception)).
Proof. intros s b s' E. cbv [get] in E. by simplify_eq. Qed.

Lemma keeps_deref {A} (p : option A) : keeps_framecnt (deref p).
Proof. destruct p; [apply keeps_ret | by intros s b s' E]. Qed.

Lemma keeps_emit e : keeps_framecnt (emit e).
Proof. intros s b s' E. cbv [emit modify] in E. by simplify_eq. Qed.

Lemma keeps_rand : keeps_framecnt rand_uint.
Proof. intros s b s' E. cbv [rand_uint] in E. by simplify_eq. Qed.

Lemma keeps_set_render_data rd : keeps_framecnt (set_render_data rd).
Proof. intros s b s' E. cbv [set_render_data modify] in E. by simplify_eq. Qed.

Lemma keeps_for_loop (body : Z -> Rend unit) :
  (forall i, keeps_framecnt (body i)) ->
  forall n lo, keeps_framecnt (for_loop n lo body).
Proof.
  intros Hbody. induction n as [|n IH]; intros lo; simpl.
  - apply keeps_ret.
  - apply keeps_bind; [apply Hbody | intros _; apply IH].
Qed.

Ltac keeps :=
  repeat lazymatch goal with
  | |- keeps_framecnt (bind _ _) => apply keeps_bind; [|intros]
  | |- keeps_framecnt (ret _) => apply keeps_ret
  | |- keeps_framecnt (gets _) => apply keeps_gets
  | |- keeps_framecnt get => apply keeps_get
  | |- keeps_framecnt (deref _) => apply keeps_deref
  | |- keeps_framecnt (emit _) => apply keeps_emit
  | |- keeps_framecnt rand_uint => apply keeps_rand
  | |- keeps_framecnt (set_render_data _) => apply keeps_set_render_data
  | |- keeps_framecnt (for_loop _ _ _) => apply keeps_for_loop; intros
  end.

Lemma keeps_color_output : keeps_framecnt color_output.
Proof. unfold color_output, GetOutput. keeps. Qed.

Lemma keeps_GeneratePrimaryRays scene output :
  keeps_framecnt (GeneratePrimaryRays scene output).
Proof. unfold GeneratePrimaryRays. keeps. Qed.

Lemma keeps_ResizeWorkingSet output : keeps_framecnt (ResizeWorkingSet output).
Proof. unfold ResizeWorkingSet. keeps. Qed.

Lemma keeps_SetOutput type output : keeps_framecnt (SetOutput type output).
Proof.
  unfold SetOutput, GetOutput. keeps.
  - destruct a as [cur|]; [|apply keeps_ResizeWorkingSet].
    destruct (_ || _); [apply keeps_ResizeWorkingSet | apply keeps_ret].
  - intros s b s' E. cbv [Renderer_SetOutput modify] in E. by simplify_eq.
Qed.

Lemma keeps_RunBenchmark scene num_passes :
  keeps_framecnt (RunBenchmark scene num_passes).
Proof.
  unfold RunBenchmark, FilterPathStream, RestorePixelIndices, ShadeSurface, ShadeMiss,
    GatherLightSamples.
  keeps; try apply keeps_color_output; try apply keeps_GeneratePrimaryRays.
Qed.

Lemma keeps_SetNumBounces n : keeps_framecnt (SetNumBounces n).
Proof. intros s b s' E. cbv [SetNumBounces modify] in E. by simplify_eq. Qed.

End FrameCounter.

(** ** The properties of the renderer *)

Section RendererClaims.
Context `{Numerics} `{Host}.

Lemma runs_events_since m s ds df :
  runs m s ds df ->
  exists s', m s = Ret tt s' /\
             dispatches (events_since s s') = ds /\
             m_framecnt s' = m_framecnt s + df /\
             m_outputs s' = m_outputs s /\
             m_render_data s' = m_render_data s.
Proof.
  intros (s' & evs & E & Ho & Hr & _ & Hf & Hev & Hd).
  exists s'. repeat split; trivial.
  unfold events_since. by rewrite Hev, drop_app_length.
Qed.

Lemma pass_dispatches_background pass envmapidx :
  Kernel "ShadeBackgroundEnvMap" ∈ pass_dispatches pass envmapidx <-> pass = 0.
Proof.
  unfold pass_dispatches.
  destruct ((0 <? pass) && (-1 <? envmapidx)); destruct (Z.eqb_spec pass 0);
    cbn [app]; rewrite !elem_of_cons, elem_of_nil; split; intros Hk; trivial;
    try (exfalso; lia); try tauto;
    repeat (destruct Hk as [Hk|Hk]; [discriminate Hk|]); contradiction.
Qed.

Lemma pass_dispatches_miss pass envmapidx :
  Kernel "ShadeMiss" ∈ pass_dispatches pass envmapidx <-> 0 < pass /\ -1 < envmapidx.
Proof.
  unfold pass_dispatches.
  destruct (Z.ltb_spec 0 pass); destruct (Z.ltb_spec (-1) envmapidx);
    destruct (pass =? 0); cbn [andb app]; rewrite !elem_of_cons, elem_of_nil;
    split; intros Hk; try (split; lia); try tauto; try (exfalso; lia);
    repeat (destruct Hk as [Hk|Hk]; [discriminate Hk|]); contradiction.
Qed.

(** C7.  With a colour output bound, a pass of the bounce loop dispatches,
    in this order: the intersection query, EvaluateVolume, ShadeMiss if the
    pass is not the first and the scene has an environment map,
    FilterPathStream, the compaction, RestorePixelIndices, ShadeVolume,
    ShadeSurface, ShadeBackgroundEnvMap if the pass is the first, the
    occlusion query and GatherLightSamples; and a frame dispatches the
    generation of the primary rays, then the passes 0, 1, ... below the
    number of bounces, then the auxiliary pass if one is needed. *)
Theorem bounce_loop_order (scene : Scene1) (s : PtRenderer) (out : Output) :
  m_outputs s !! kColor = Some out ->
  (forall maxrays pass,
     exists s', bounce (CompileScene scene) maxrays pass s = Ret tt s' /\
       dispatches (events_since s s')
       = [IntersectionQuery; Kernel "EvaluateVolume"]
         ++ (if (0 <? pass) && (-1 <? envmapidx (CompileScene scene))
             then [Kernel "ShadeMiss"] else [])
         ++ [Kernel "FilterPathStream"; Compaction; Kernel "RestorePixelIndices";
             Kernel "ShadeVolume"; Kernel "ShadeSurface"]
         ++ (if pass =? 0 then [Kernel "ShadeBackgroundEnvMap"] else [])
         ++ [OcclusionQuery; Kernel "GatherLightSamples"] /\
       (Kernel "ShadeBackgroundEnvMap" ∈ dispatches (events_since s s') <-> pass = 0) /\
       (Kernel "ShadeMiss" ∈ dispatches (events_since s s')
        <-> 0 < pass /\ -1 < envmapidx (CompileScene scene))) /\
  exists s', Render scene s = Ret tt s' /\
    dispatches (events_since s s')
    = Kernel (generate_kernel (CompileScene scene))
      :: flat_map (fun pass => pass_dispatches pass (envmapidx (CompileScene scene)))
           (seqZ 0 (m_num_bounces s))
      ++ (if aov_pass_needed (m_outputs s) then aov_dispatches (CompileScene scene)
          else []).
Proof.
  intros Hc. split.
  - intros maxrays pass.
    destruct (runs_events_since _ _ _ _
                (bounce_runs (CompileScene scene) maxrays pass s out Hc))
      as (s' & E & Hd & _).
    exists s'. split; [exact E|]. rewrite Hd. split; [reflexivity|].
    split; [apply pass_dispatches_background | apply pass_dispatches_miss].
  - destruct (runs_events_since _ _ _ _ (Render_runs scene s)) as (s' & E & Hd & _).
    exists s'. split; [exact E|]. rewrite Hd. unfold frame_dispatches. by rewrite Hc.
Qed.


Lemma call_keeps_framecnt c s s' :
  call c s = Ret tt s' -> is_render c = false -> is_clear c = false ->
  m_framecnt s' = m_framecnt s.
Proof.
  destruct c; simpl; intros E Hr Hcl; try discriminate.
  - exact (keeps_ret tt s tt s' E).
  - exact (keeps_ret tt s tt s' E).
  - exact (keeps_SetNumBounces num_bounces s tt s' E).
  - exact (keeps_SetOutput type output s tt s' E).
  - revert E. apply (keeps_bind (RunBenchmark scene num_passes) (fun _ => ret tt)).
    + apply keeps_RunBenchmark.
    + intros _. apply keeps_ret.
  - exact (keeps_ret tt s tt s' E).
  - exact (keeps_ret tt s tt s' E).
Qed.

(** C10.  Every [Render] returns and adds exactly one to [m_framecnt],
    whether or not a colour output is bound; [Clear] sets it to zero; every
    other call leaves it as it is; so over a sequence of calls without
    [Clear] the counter grows by the number of [Render] calls. *)
Theorem framecnt_counts_frames :
  (forall scene s, exists s', Render scene s = Ret tt s' /\
                              m_framecnt s' = m_framecnt s + 1) /\
  (forall val output s, exists s', Clear val output s = Ret tt s' /\ m_framecnt s' = 0) /\
  (forall c s s', call c s = Ret tt s' -> is_render c = false -> is_clear c = false ->
                  m_framecnt s' = m_framecnt s) /\
  (forall cs s s', calls cs s = Ret tt s' -> Forall (fun c => is_clear c = false) cs ->
                   m_framecnt s' = m_framecnt s + renders cs).
Proof.
  assert (Hrender : forall scene s, exists s', Render scene s = Ret tt s' /\
                                               m_framecnt s' = m_framecnt s + 1).
  { intros scene s.
    destruct (runs_events_since _ _ _ _ (Render_runs scene s)) as (s' & E & _ & Hf & _).
    by exists s'. }
  split; [exact Hrender|]. split; [|split].
  - intros val output s. eexists. split; reflexivity.
  - exact call_keeps_framecnt.
  - induction cs as [|c cs IH]; intros s s' E Hcl.
    + cbv [calls ret] in E. simplify_eq. unfold renders. simpl. lia.
    + apply Forall_cons in Hcl as [Hc Hcl]. simpl in E. unfold bind in E.
      destruct (call c s) as [[] s1| |] eqn:Ec; try discriminate.
      rewrite (IH s1 s' E Hcl). unfold renders. rewrite filter_cons.
      destruct (is_render c) eqn:Hr.
      * destruct c; try discriminate Hr. simpl in Ec.
        destruct (Hrender scene s) as (s1' & E1 & Hf). rewrite E1 in Ec.
        simplify_eq. rewrite decide_True by done. simpl length. lia.
      * rewrite (call_keeps_framecnt c s s1 Ec Hr Hc).
        rewrite decide_False by done. lia.
Qed.

Lemma ResizeWorkingSet_eq output s :
  exists s' evs,
    ResizeWorkingSet output s = Ret tt s' /\
    m_outputs s' = m_outputs s /\
    working_set_of (pixels output) (m_render_data s') /\
    events s' = events s ++ EvCreateBuffer (rays 0) (pixels output) :: evs.
Proof.
  destruct s as [outputs rd nb fc rc evs0].
  unfold ResizeWorkingSet.
  cbv [bind get emit modify set_render_data ret
       m_outputs m_render_data m_num_bounces m_framecnt rand_calls events].
  rewrite <- !app_assoc. cbn [app].
  eexists _, _. split; [reflexivity|].
  cbv [m_outputs m_render_data events]. split; [reflexivity|]. split; [|reflexivity].
  unfold working_set_of. cbn. repeat split; reflexivity.
Qed.

Lemma SetOutput_eq type output s :
  SetOutput type (Some output) s =
    bind (match m_outputs s !! type with
          | None => ResizeWorkingSet output
          | Some cur =>
            if (width cur <? width output) || (height cur <? height output)
            then ResizeWorkingSet output
            else ret tt
          end)
         (fun _ => Renderer_SetOutput type (Some output)) s.
Proof. reflexivity. Qed.

Lemma must_resize_dec s type output :
  must_resize s type output <->
  match m_outputs s !! type with
  | None => True
  | Some cur => (width cur <? width output) || (height cur <? height output) = true
  end.
Proof.
  unfold must_resize. destruct (m_outputs s !! type) as [cur|]; [|done].
  rewrite orb_true_iff, !Z.ltb_lt. done.
Qed.

(** C2, as the code has it.  [SetOutput] with an output returns and binds
    the output.  It reallocates the working set exactly when no output of
    the type is bound or the bound output of the type is smaller than the
    new one in width or in height; the working set is then allocated for
    the pixels of the new output, whatever its size was.  Otherwise the
    working set and the log of events are as before. *)
Theorem SetOutput_resizes (type : OutputType) (output : Output) (s : PtRenderer) :
  exists s',
    SetOutput type (Some output) s = Ret tt s' /\
    m_outputs s' = <[type := output]> (m_outputs s) /\
    (events_since s s' <> [] <-> must_resize s type output) /\
    (must_resize s type output ->
     working_set_of (pixels output) (m_render_data s') /\
     head (events_since s s') = Some (EvCreateBuffer (rays 0) (pixels output))) /\
    (~ must_resize s type output ->
     m_render_data s' = m_render_data s /\ events s' = events s).
Proof.
  rewrite SetOutput_eq.
  destruct (ResizeWorkingSet_eq output s) as (s1 & evs & E1 & Ho1 & Hws & Hev).
  assert (Hyes : must_resize s type output ->
            exists s',
              bind (ResizeWorkingSet output)
                (fun _ => Renderer_SetOutput type (Some output)) s = Ret tt s' /\
              m_outputs s' = <[type := output]> (m_outputs s) /\
              (events_since s s' <> [] <-> must_resize s type output) /\
              (must_resize s type output ->
               working_set_of (pixels output) (m_render_data s') /\
               head (events_since s s') = Some (EvCreateBuffer (rays 0) (pixels output))) /\
              (~ must_resize s type output ->
               m_render_data s' = m_render_data s /\ events s' = events s)).
  { intros Hm. unfold bind. rewrite E1.
    eexists. split; [reflexivity|].
    cbv [Renderer_SetOutput modify m_outputs m_render_data events events_since].
    fold (m_outputs s1) (m_render_data s1) (events s1) (events s).
    rewrite Ho1, Hev, drop_app_length.
    split; [reflexivity|]. split; [split; [done | discriminate]|].
    split; [by split | tauto]. }
  assert (Hno : ~ must_resize s type output ->
            exists s',
              bind (ret tt) (fun _ => Renderer_SetOutput type (Some output)) s
                = Ret tt s' /\
              m_outputs s' = <[type := output]> (m_outputs s) /\
              (events_since s s' <> [] <-> must_resize s type output) /\
              (must_resize s type output ->
               working_set_of (pixels output) (m_render_data s') /\
               head (events_since s s') = Some (EvCreateBuffer (rays 0) (pixels output))) /\
              (~ must_resize s type output ->
               m_render_data s' = m_render_data s /\ events s' = events s)).
  { intros Hm. eexists. split; [reflexivity|].
    cbv [Renderer_SetOutput modify m_outputs m_render_data events events_since].
    fold (m_outputs s) (m_render_data s) (events s).
    rewrite drop_all.
    split; [reflexivity|]. split; [split; [done | tauto]|].
    split; [tauto | by split]. }
  pose proof (must_resize_dec s type output) as Hdec.
  destruct (m_outputs s !! type) as [cur|].
  - destruct ((width cur <? width output) || (height cur <? height output)).
    + apply Hyes. tauto.
    + apply Hno. rewrite Hdec. discriminate.
  - apply Hyes. tauto.
Qed.

End RendererClaims.

(** ** The renderer on the sample inputs *)

(** C7 on a renderer with a colour output of 4 by 4 and two bounces, for a
    scene with an environment map: the first pass shades the background,
    the second shades the misses. *)
Lemma bounce_loop_order_witness :
  exists s',
    Render envmap_scene color_renderer = Ret tt s' /\
    dispatches (events_since color_renderer s')
    = [Kernel "PerspectiveCamera_GeneratePaths";
       IntersectionQuery; Kernel "EvaluateVolume"; Kernel "FilterPathStream";
       Compaction; Kernel "RestorePixelIndices"; Kernel "ShadeVolume";
       Kernel "ShadeSurface"; Kernel "ShadeBackgroundEnvMap"; OcclusionQuery;
       Kernel "GatherLightSamples";
       IntersectionQuery; Kernel "EvaluateVolume"; Kernel "ShadeMiss";
       Kernel "FilterPathStream"; Compaction; Kernel "RestorePixelIndices";
       Kernel "ShadeVolume"; Kernel "ShadeSurface"; OcclusionQuery;
       Kernel "GatherLightSamples"].
Proof.
  destruct (@bounce_loop_order fixed_point sample_host envmap_scene color_renderer
              (output_of 1 4 4))
    as (_ & s' & E & Hd).
  - vm_compute. reflexivity.
  - exists s'. split; [exact E|]. rewrite Hd. vm_compute. reflexivity.
Defined.



(** C2, as the claim states it, fails.  After colour outputs of 512 by 512
    and then 128 by 128 were bound, the working set holds 262144 elements
    per buffer; binding an output of 256 by 256, which is not larger than
    the 512 by 512 output bound before, reallocates it with 65536. *)
Lemma working_set_shrinks :
  returns (calls (resize_up_then_down ++ [resize_again]) fresh_renderer) = true /\
  rays0 (m_render_data (state_after (calls resize_up_then_down fresh_renderer)
                          fresh_renderer)) = 262144 /\
  rays0 (m_render_data (state_after (calls (resize_up_then_down ++ [resize_again])
                                       fresh_renderer) fresh_renderer)) = 65536.
Proof. vm_compute. repeat split; reflexivity. Qed.

(** * Part V.  Further properties of the intersector *)

(** ** [std::partition] on a vector that is partitioned already *)

Section PartitionCoverage.
Context {A : Type} (pred : A -> bool).

(** [first] moves up over [k] elements that satisfy the predicate. *)
Lemma partition_scan_first (a : list A) (last : nat) :
  forall (k fuel first : nat),
    (forall i x, (first <= i < first + k)%nat -> a !! i = Some x -> pred x = true) ->
    (first + k <= last)%nat -> (first + k <= length a)%nat ->
    partition_loop pred (k + fuel) a first last ScanFirst
    = partition_loop pred fuel a (first + k) last ScanFirst.
Proof.
  induction k as [|k IH]; intros fuel first Hp Hl Ha.
  - by rewrite Nat.add_0_r.
  - cbn [Nat.add partition_loop].
    destruct (Nat.eqb_spec first last); [lia|].
    destruct (lookup_lt_is_Some_2 a first) as [x Hx]; [lia|].
    rewrite Hx, (Hp first x) by (trivial; lia).
    rewrite IH by (try lia; intros i y Hi; apply Hp; lia).
    f_equal. lia.
Qed.

(** [last] moves down over [k] elements that do not satisfy it, and meets
    [first]. *)
Lemma partition_scan_last (a : list A) (first : nat) :
  forall (k fuel : nat),
    (forall i x, (first < i <= first + k)%nat -> a !! i = Some x -> pred x = false) ->
    (first + k < length a)%nat ->
    partition_loop pred (S k + fuel) a first (first + k) ScanLast = (a, first).
Proof.
  induction k as [|k IH]; intros fuel Hp Ha.
  - cbn [Nat.add partition_loop]. rewrite Nat.add_0_r, Nat.eqb_refl. reflexivity.
  - cbn [Nat.add partition_loop].
    destruct (Nat.eqb_spec first (first + S k)); [lia|].
    destruct (lookup_lt_is_Some_2 a (first + S k)) as [y Hy]; [lia|].
    rewrite Hy, (Hp (first + S k)%nat y) by (trivial; lia).
    cbn [negb].
    replace (Nat.pred (first + S k)) with (first + k)%nat by lia.
    apply (IH fuel); [|lia]. intros i x Hi. apply Hp. lia.
Qed.

Lemma std_partition_partitioned_input (a : list A) (n : nat) :
  (n <= length a)%nat ->
  (forall i x, a !! i = Some x -> pred x = bool_decide (i < n)%nat) ->
  std_partition pred a = (a, n).
Proof.
  intros Hn Hp. unfold std_partition.
  replace (S (length a)) with (n + S (length a - n))%nat by lia.
  rewrite partition_scan_first; try lia.
  2:{ intros i x Hi Hx. rewrite (Hp i x Hx). apply bool_decide_eq_true_2. lia. }
  cbn [Nat.add].
  destruct (decide (n = length a)) as [->|Hne].
  - cbn [partition_loop]. by rewrite Nat.eqb_refl.
  - cbn [partition_loop].
    destruct (Nat.eqb_spec n (length a)); [lia|].
    destruct (lookup_lt_is_Some_2 a n) as [x Hx]; [lia|].
    rewrite Hx, (Hp n x Hx), bool_decide_eq_false_2 by lia.
    replace (length a - n)%nat with (S (length a - n - 1) + 0)%nat by lia.
    replace (Nat.pred (length a)) with (n + (length a - n - 1))%nat by lia.
    apply partition_scan_last; [|lia].
    intros i y Hi Hy. rewrite (Hp i y Hy). apply bool_decide_eq_false_2. lia.
Qed.

End PartitionCoverage.

Section ProcessCoverage.
Context `{Accelerator}.

Lemma needs_rebuild_stored s world :
  is_Some (m_bvh s) -> has_changed world = false ->
  GetStateChange world = kStateChangeNone ->
  needs_rebuild s world = false.
Proof.
  intros Hb Hc Hs. unfold needs_rebuild.
  rewrite Hc, Hs, (bool_decide_eq_true_2 _ Hb). reflexivity.
Qed.

Lemma needs_rebuild_none s world : m_bvh s = None -> needs_rebuild s world = true.
Proof.
  intros Hb. unfold needs_rebuild. rewrite Hb.
  rewrite bool_decide_eq_false_2; [reflexivity|]. by intros [? ?].
Qed.

Lemma Process_returns_stored world s s' :
  Process world s = Ret tt s' -> is_Some (m_bvh s').
Proof.
  destruct (needs_rebuild s world) eqn:Hn.
  - rewrite (Process_rebuilds world s Hn).
    destruct (Calc.max_alloc_size (m_device s) <=? stack_memory_limit); [discriminate|].
    intros Hr. apply rebuild_returns in Hr as (st & bvh & vd & fd & _ & _ & _ & _ & ->).
    by eexists.
  - rewrite (Process_unchanged world s Hn). intros [= <-].
    unfold needs_rebuild in Hn.
    destruct (bool_decide (is_Some (m_bvh s))) eqn:Hd; [|discriminate Hn].
    by apply bool_decide_eq_true_1 in Hd.
Qed.

(** X1.  After a [Process] that returned, a [Process] of a world that
    reports no change ([has_changed()] false, no state change of a shape)
    does nothing: it returns in the state it started in, without an
    operation on the device. *)
Theorem Process_idle_after_Process (world world' : World) (s s' : IntersectorShortStack) :
  Process world s = Ret tt s' ->
  has_changed world' = false ->
  GetStateChange world' = kStateChangeNone ->
  Process world' s' = Ret tt s'.
Proof.
  intros Hp Hc Hs.
  apply Process_unchanged, needs_rebuild_stored; trivial.
  exact (Process_returns_stored world s s' Hp).
Qed.

Lemma sum_permutation {A} (g : A -> Z) (l l' : list A) :
  l ≡ₚ l' ->
  foldr (fun s acc => g s + acc) 0 l = foldr (fun s acc => g s + acc) 0 l'.
Proof.
  induction 1 as [|x l l' _ IH|x y l|l l' l'' _ IH1 _ IH2]; simpl; lia.
Qed.

Lemma starts_of_totals world st :
  starts_of (partition_shapes world).1 st ->
  numfaces st = world_faces world /\ numvertices st = world_vertex_count world /\
  length (partition_shapes world).1 = length (shapes_ world).
Proof.
  intros (_ & _ & Hnf & Hnv & _).
  destruct (partition_shapes_meshes_first world) as (Hperm & _).
  rewrite Hnf, Hnv. unfold faces_before, vertices_before, world_faces, world_vertex_count.
  rewrite !firstn_all. split; [by apply sum_permutation|].
  split; [by apply sum_permutation | by apply Permutation_length].
Qed.

(** X2.  For every world [Process] computes the start tables without
    leaving the vectors: [numfaces] is the number of faces of the world and
    [numvertices] its number of vertices (an instance counted with the
    geometry of its base mesh); both tables have one entry per shape; the
    entry of a shape is the number of faces (vertices) of the shapes before
    it in the partitioned vector; and the table of face starts is sorted. *)
Theorem start_tables_count_world (world : World) :
  exists st,
    process_starts world = Some st /\
    numfaces st = world_faces world /\
    numvertices st = world_vertex_count world /\
    length (mesh_faces_start_idx st) = length (shapes_ world) /\
    length (mesh_vertices_start_idx st) = length (shapes_ world) /\
    (forall k : nat, (k < length (shapes_ world))%nat ->
       mesh_faces_start_idx st !! k = Some (faces_before (partition_shapes world).1 k) /\
       mesh_vertices_start_idx st !! k
       = Some (vertices_before (partition_shapes world).1 k)) /\
    (forall (i j : nat) (x y : Z), (i <= j)%nat ->
       mesh_faces_start_idx st !! i = Some x ->
       mesh_faces_start_idx st !! j = Some y -> x <= y).
Proof.
  destruct (process_values world) as (st & bounds & Est & Hst & _).
  destruct (starts_of_totals world st Hst) as (Hf & Hv & Hlen).
  pose proof Hst as (Hlf & Hlv & _ & _ & Htab).
  exists st. split; [exact Est|].
  split; [|split; [|split; [|split; [|split]]]].
  - exact Hf.
  - exact Hv.
  - by rewrite Hlf.
  - by rewrite Hlv.
  - intros k Hk. apply Htab. lia.
  - intros i j x y. by apply (starts_sorted (partition_shapes world).1).
Qed.

(** X3.  When the shapes of the world are listed with every mesh before
    every instance, [std::partition] exchanges nothing: the partitioned
    vector is [world.shapes_] in its order, and [nummeshes] is the number
    of meshes. *)
Theorem partition_keeps_partitioned_world (world : World) (nummeshes : nat) :
  meshes_first (shapes_ world) nummeshes ->
  partition_shapes world = (shapes_ world, nummeshes).
Proof.
  intros (Hle & Hkind). unfold partition_shapes.
  apply std_partition_partitioned_input; [exact Hle|].
  intros i s Hs. destruct (Hkind i s Hs) as [Hlo Hhi].
  destruct (decide (i < nummeshes)%nat) as [Hi|Hi].
  - rewrite (Hlo Hi). symmetry. by apply bool_decide_eq_true_2.
  - rewrite Hhi by lia. symmetry. by apply bool_decide_eq_false_2.
Qed.

(** X4.  A [Process] that throws one of its own two exceptions has created
    no buffer: the device has seen the deletion of the old node and vertex
    buffers, if a hierarchy was stored, and nothing else; the three buffer
    pointers are as before, so the stack buffer is untouched.  After the
    exception about the stack overflow [m_bvh] is null, so the next
    [Process] rebuilds whatever the world reports, and it does not delete
    the released buffers again.  The only other exception of [Process] is
    the device's refusal of the vertex or the node buffer: then the node and
    stack pointers are as before, and the hierarchy that was built stays
    stored, so a [Process] of a world that reports no change returns
    without rebuilding. *)
Theorem failed_Process_creates_nothing
    (world : World) (s : IntersectorShortStack) (e : Exception)
    (s' : IntersectorShortStack) :
  Process world s = Throw e s' ->
  (Calc.next_handle (m_device s') = Calc.next_handle (m_device s) /\
   gpu_bvh s' = gpu_bvh s /\ gpu_vertices s' = gpu_vertices s /\
   gpu_stack s' = gpu_stack s /\
   ops_since s s' =
     match m_bvh s with
     | Some _ => [Calc.OpDeleteBuffer (gpu_bvh s); Calc.OpDeleteBuffer (gpu_vertices s)]
     | None => []
     end /\
   (e = ExceptionImpl what_no_stack_memory /\ m_bvh s' = m_bvh s \/
    e = ExceptionImpl what_stack_overflow /\ m_bvh s' = None /\
    forall world', needs_rebuild s' world' = true /\ after_release s' = s'))
  \/
  (e = AllocationFailure /\
   gpu_bvh s' = gpu_bvh s /\ gpu_stack s' = gpu_stack s /\
   is_Some (m_bvh s') /\
   forall world', has_changed world' = false ->
                  GetStateChange world' = kStateChangeNone ->
                  Process world' s' = Ret tt s').
Proof.
  destruct (needs_rebuild s world) eqn:Hn.
  2:{ rewrite (Process_unchanged world s Hn). discriminate. }
  rewrite (Process_rebuilds world s Hn).
  destruct (after_release_fields s) as (Hm & Hb & Hv & Hst & Hmax & Hnh & Hlog).
  assert (Hops : forall s1, Calc.log (m_device s1) = Calc.log (m_device (after_release s)) ->
            ops_since s s1 =
              match m_bvh s with
              | Some _ => [Calc.OpDeleteBuffer (gpu_bvh s);
                           Calc.OpDeleteBuffer (gpu_vertices s)]
              | None => []
              end).
  { intros s1 Hs1. unfold ops_since. by rewrite Hs1, Hlog, drop_app_length. }
  destruct (Z.leb_spec (Calc.max_alloc_size (m_device s)) stack_memory_limit) as [Hle|Hgt].
  - intros [= <- <-]. left. repeat (split; [done || by apply Hops|]). by left.
  - intros Ht.
    apply rebuild_throws_only in Ht
      as [(-> & -> & _)|(-> & st & bvh & _ & _ & _ & Hcases)].
    + left. repeat (split; [done || by apply Hops|]). right.
      split; [done|]. split; [done|]. intros world'.
      split; [by apply needs_rebuild_none|]. reflexivity.
    + right. split; [done|].
      assert (Hstored : gpu_bvh s' = gpu_bvh s /\ gpu_stack s' = gpu_stack s /\
                        is_Some (m_bvh s')).
      { destruct Hcases as [(-> & _)|[(vd & ->)|(vd & fd & -> & Hno)]].
        - cbn [hierarchy_built set_m_bvh gpu_bvh gpu_stack m_bvh]. by eauto.
        - cbn [vertices_uploaded gpu_bvh gpu_stack m_bvh]. by eauto.
        - exfalso. rewrite Hmax in Hno. unfold stack_memory_limit, sizeof_int in Hgt.
          unfold kMaxBatchSize, kMaxStackSize in *. lia. }
      destruct Hstored as (Eb & Es & Hsome).
      split; [exact Eb|]. split; [exact Es|]. split; [exact Hsome|].
      intros world' Hc Hs. by apply Process_unchanged, needs_rebuild_stored.
Qed.

End ProcessCoverage.

(** X3 on a world of two meshes and an instance of the first. *)
Lemma partition_keeps_partitioned_world_witness :
  partition_shapes meshes_first_world = (shapes_ meshes_first_world, 2%nat).
Proof.
  apply partition_keeps_partitioned_world. split; [simpl; lia|].
  intros [|[|[|i]]] s Hs; simpl in Hs; simplify_eq; simpl; split; intros; trivial; lia.
Defined.

(** X4 on the strip of 48 triangles: the first [Process] of the strip
    throws and leaves the device as it found it. *)
Lemma failed_Process_creates_nothing_witness :
  exists s',
    Process strip_world fresh_intersector = Throw (ExceptionImpl what_stack_overflow) s' /\
    Calc.next_handle (m_device s') = 0%nat /\
    ops_since fresh_intersector s' = [].
Proof.
  assert (E : exists s', Process strip_world fresh_intersector
                         = Throw (ExceptionImpl what_stack_overflow) s').
  { rewrite Process_rebuilds by (vm_compute; reflexivity).
    replace (Calc.max_alloc_size (m_device fresh_intersector) <=? stack_memory_limit)
      with false by (vm_compute; reflexivity).
    assert (Hb : exists bvh, process_bvh strip_world = Some bvh /\ GetHeight bvh = 48).
    { vm_compute. eexists. split; reflexivity. }
    destruct Hb as (bvh & Hb & Hh).
    eexists. apply (rebuild_too_high strip_world _ _ Hb).
    rewrite Hh. vm_compute. discriminate. }
  destruct E as (s' & E). exists s'. split; [exact E|].
  destruct (failed_Process_creates_nothing strip_world fresh_intersector _ s' E)
    as [(Hn & _ & _ & _ & Hops & _)|(Hwhat & _)]; [|discriminate Hwhat].
  split; [exact Hn | exact Hops].
Defined.

(** X1 on the intersector that has processed the small world. *)
Lemma Process_idle_after_Process_witness :
  Process settled_world used_intersector = Ret tt used_intersector.
Proof.
  apply (Process_idle_after_Process small_world settled_world fresh_intersector).
  - apply (returned (Process small_world fresh_intersector) fresh_intersector).
    vm_compute. reflexivity.
  - reflexivity.
  - reflexivity.
Defined.

(** ** The stack buffer in [Intersect] and [Occluded] *)

Section LaunchCoverage.
Context `{Accelerator}.

(** The two ways [Intersect] leaves the buffers when it returns: as they
    are, or with the stack buffer replaced by a larger one. *)
Lemma Intersect_fields queueidx rays numrays maxrays hits waitevent event s size :
  Calc.GetSize (gpu_stack s) (m_device s) = Some size ->
  required_stack_size maxrays <= size \/
  required_stack_size maxrays <= Calc.max_alloc_size (m_device s) ->
  exists s',
    Intersect queueidx rays numrays maxrays hits waitevent event s = Ret tt s' /\
    m_bvh s' = m_bvh s /\ gpu_bvh s' = gpu_bvh s /\ gpu_vertices s' = gpu_vertices s /\
    Calc.max_alloc_size (m_device s') = Calc.max_alloc_size (m_device s) /\
    (required_stack_size maxrays <= size /\
     gpu_stack s' = gpu_stack s /\
     Calc.heap (m_device s') = Calc.heap (m_device s) /\
     Calc.next_handle (m_device s') = Calc.next_handle (m_device s)
     \/
     size < required_stack_size maxrays /\
     exists old,
       gpu_stack s = Some old /\
       gpu_stack s' = Some (Calc.next_handle (m_device s)) /\
       Calc.heap (m_device s')
       = <[Calc.next_handle (m_device s) := required_stack_size maxrays]>
           (delete old (Calc.heap (m_device s))) /\
       Calc.next_handle (m_device s') = S (Calc.next_handle (m_device s))).
Proof.
  intros Hsize Hallowed. rewrite Intersect_eq, Hsize. cbv zeta.
  destruct (Z.ltb_spec size (required_stack_size maxrays)) as [Hlt|Hge];
    destruct (Z.ltb_spec (Calc.max_alloc_size (m_device s)) (required_stack_size maxrays))
      as [Hno|Hyes];
    cbn [andb]; cbv iota; try (exfalso; lia);
    (eexists; split; [reflexivity|]);
    cbn [m_bvh gpu_bvh gpu_vertices gpu_stack m_device
         Calc.heap Calc.next_handle Calc.max_alloc_size];
    do 4 (split; [reflexivity|]).
  - right. split; [exact Hlt|].
    destruct (gpu_stack s) as [old|]; [|discriminate Hsize].
    exists old. repeat split; reflexivity.
  - left. repeat split; trivial.
  - left. repeat split; trivial.
Qed.

(** [Intersect] returns only with a live stack buffer, and with a stack
    that it did not need to enlarge or that the device allowed. *)
Lemma Intersect_returned queueidx rays numrays maxrays hits waitevent event s s' :
  Intersect queueidx rays numrays maxrays hits waitevent event s = Ret tt s' ->
  exists size,
    Calc.GetSize (gpu_stack s) (m_device s) = Some size /\
    (required_stack_size maxrays <= size \/
     required_stack_size maxrays <= Calc.max_alloc_size (m_device s)).
Proof.
  rewrite Intersect_eq.
  destruct (Calc.GetSize (gpu_stack s) (m_device s)) as [size|]; [|discriminate].
  cbv zeta.
  destruct (Z.ltb_spec size (required_stack_size maxrays));
    destruct (Z.ltb_spec (Calc.max_alloc_size (m_device s)) (required_stack_size maxrays));
    cbn [andb]; cbv iota; [discriminate| | |]; intros _; exists size; (split; [done|lia]).
Qed.

(** When the device refuses the larger stack, both functions throw, and
    leave the intersector without a stack buffer. *)
Lemma Intersect_refused queueidx rays numrays maxrays hits waitevent event s size :
  Calc.GetSize (gpu_stack s) (m_device s) = Some size ->
  size < required_stack_size maxrays ->
  Calc.max_alloc_size (m_device s) < required_stack_size maxrays ->
  Intersect queueidx rays numrays maxrays hits waitevent event s
  = Throw AllocationFailure (stack_released s) /\
  Occluded queueidx rays numrays maxrays hits waitevent event s
  = Throw AllocationFailure (stack_released s).
Proof.
  intros Hsize Hlt Hno. rewrite Occluded_eq, Intersect_eq, Hsize. cbv zeta.
  destruct (Z.ltb_spec size (required_stack_size maxrays)); [|lia].
  destruct (Z.ltb_spec (Calc.max_alloc_size (m_device s)) (required_stack_size maxrays));
    [|lia].
  cbn [andb]. by rewrite exchange_since_released.
Qed.

Lemma stack_released_undefined queueidx rays numrays maxrays hits waitevent event s :
  Intersect queueidx rays numrays maxrays hits waitevent event (stack_released s) = Undef /\
  Occluded queueidx rays numrays maxrays hits waitevent event (stack_released s) = Undef.
Proof. by rewrite Occluded_eq, Intersect_eq. Qed.

Lemma Occluded_fields queueidx rays numrays maxrays hits waitevent event s s' :
  Intersect queueidx rays numrays maxrays hits waitevent event s = Ret tt s' ->
  exists s'',
    Occluded queueidx rays numrays maxrays hits waitevent event s = Ret tt s'' /\
    m_bvh s'' = m_bvh s' /\ gpu_bvh s'' = gpu_bvh s' /\ gpu_vertices s'' = gpu_vertices s' /\
    gpu_stack s'' = gpu_stack s' /\
    Calc.heap (m_device s'') = Calc.heap (m_device s') /\
    Calc.next_handle (m_device s'') = Calc.next_handle (m_device s') /\
    Calc.max_alloc_size (m_device s'') = Calc.max_alloc_size (m_device s').
Proof.
  intros Hi. rewrite Occluded_eq, Hi. eexists. split; [reflexivity|].
  repeat split; reflexivity.
Qed.

(** [Occluded] returns exactly when [Intersect] does. *)
Lemma Occluded_returned queueidx rays numrays maxrays hits waitevent event s s'' :
  Occluded queueidx rays numrays maxrays hits waitevent event s = Ret tt s'' ->
  exists s',
    Intersect queueidx rays numrays maxrays hits waitevent event s = Ret tt s' /\
    s'' = exchange_since s s'.
Proof.
  rewrite Occluded_eq.
  destruct (Intersect queueidx rays numrays maxrays hits waitevent event s)
    as [[] s1|e s1|]; [|discriminate|discriminate].
  intros [= <-]. by exists s1.
Qed.

Lemma stack_size_exact (maxrays : Z) :
  0 <= maxrays <= 22369621 ->
  required_stack_size maxrays = 4 * maxrays * kMaxStackSize.
Proof.
  intros Hm. unfold required_stack_size, wrap32, kMaxStackSize.
  rewrite (Z.mod_small (4 * maxrays)) by lia.
  apply Z.mod_small. lia.
Qed.

End LaunchCoverage.

(** ** The buffers of the intersector stay in order *)

Section InvariantCoverage.
Context `{Accelerator}.

Lemma after_release_heap s :
  Calc.heap (m_device (after_release s)) =
    match m_bvh s with
    | Some _ =>
      match gpu_vertices s with
      | Some hv => delete hv
      | None => fun m => m
      end (match gpu_bvh s with
           | Some hb => delete hb (Calc.heap (m_device s))
           | None => Calc.heap (m_device s)
           end)
    | None => Calc.heap (m_device s)
    end.
Proof.
  unfold after_release. destruct (m_bvh s); [|reflexivity].
  destruct (gpu_vertices s), (gpu_bvh s); reflexivity.
Qed.

Lemma after_release_consistent s :
  consistent s ->
  (forall h, is_Some (Calc.heap (m_device (after_release s)) !! h) ->
             (h < Calc.next_handle (m_device (after_release s)))%nat) /\
  (forall h, gpu_stack (after_release s) = Some h ->
             is_Some (Calc.heap (m_device (after_release s)) !! h)).
Proof.
  intros (Hfresh & Hstack & Hbvh).
  destruct (after_release_fields s) as (_ & _ & _ & Hst & _ & Hnh & _).
  rewrite Hst, Hnh, after_release_heap.
  destruct (m_bvh s) as [bvh|]; [|by split].
  destruct Hbvh as (_ & hb & hv & hs & -> & -> & Hs & _ & Hbs & Hvs & _); [by eexists|].
  split.
  - intros h Hh. apply lookup_delete_is_Some in Hh as [_ Hh].
    apply lookup_delete_is_Some in Hh as [_ Hh]. by apply Hfresh.
  - intros h Hh. rewrite Hs in Hh. injection Hh as <-.
    apply lookup_delete_is_Some. split; [exact Hvs|].
    apply lookup_delete_is_Some. split; [exact Hbs|]. by apply Hstack.
Qed.

Lemma rebuilt_consistent s st bvh vd fd :
  (forall h, is_Some (Calc.heap (m_device s) !! h) ->
             (h < Calc.next_handle (m_device s))%nat) ->
  (forall h, gpu_stack s = Some h -> is_Some (Calc.heap (m_device s) !! h)) ->
  stack_memory_limit < Calc.max_alloc_size (m_device s) ->
  consistent (rebuilt s st bvh vd fd).
Proof.
  intros Hfresh Hstack Hmax. unfold consistent, rebuilt.
  cbn [m_device gpu_bvh gpu_vertices gpu_stack m_bvh
       Calc.heap Calc.next_handle Calc.max_alloc_size].
  set (h := Calc.next_handle (m_device s)) in *.
  set (heap := Calc.heap (m_device s)) in *.
  assert (Hold : forall old, gpu_stack s = Some old -> (old < h)%nat).
  { intros old Ho. by apply Hfresh, Hstack. }
  assert (Hin : forall x : nat,
             is_Some ((match gpu_stack s with
                       | Some old => delete old
                       | None => fun m => m
                       end (<[S h := Z.of_nat (length (InjectIndices (translator_Process bvh) fd))
                                     * sizeof_Node]>
                              (<[h := numvertices st * sizeof_float3]> heap))) !! x) ->
             (x <= S h)%nat).
  { intros x Hx.
    assert (Hx' : is_Some ((<[S h := Z.of_nat (length (InjectIndices (translator_Process bvh)
                                                       fd)) * sizeof_Node]>
                              (<[h := numvertices st * sizeof_float3]> heap)) !! x)).
    { destruct (gpu_stack s); [|exact Hx]. by apply lookup_delete_is_Some in Hx as [_ Hx]. }
    apply lookup_insert_is_Some in Hx' as [<-|[_ Hx']]; [lia|].
    apply lookup_insert_is_Some in Hx' as [<-|[_ Hx']]; [lia|].
    apply Hfresh in Hx'. lia. }
  assert (Hkeep : forall x v, (h <= x)%nat ->
             (<[S h := Z.of_nat (length (InjectIndices (translator_Process bvh) fd))
                       * sizeof_Node]>
                (<[h := numvertices st * sizeof_float3]> heap)) !! x = Some v ->
             (match gpu_stack s with
              | Some old => delete old
              | None => fun m => m
              end (<[S h := Z.of_nat (length (InjectIndices (translator_Process bvh) fd))
                            * sizeof_Node]>
                     (<[h := numvertices st * sizeof_float3]> heap))) !! x = Some v).
  { intros x v Hx Hv. destruct (gpu_stack s) as [old|] eqn:Ho; [|exact Hv].
    rewrite lookup_delete_ne; [exact Hv|]. specialize (Hold old eq_refl). lia. }
  split; [|split].
  - intros x Hx. apply lookup_insert_is_Some in Hx as [<-|[_ Hx]]; [lia|].
    apply Hin in Hx. lia.
  - intros x [= <-]. rewrite lookup_insert_eq. by eexists.
  - intros _. split; [exact Hmax|].
    exists (S h), h, (S (S h)).
    do 3 (split; [reflexivity|]). do 3 (split; [lia|]). split.
    + rewrite lookup_insert_ne by lia. eexists. apply Hkeep; [lia|].
      apply lookup_insert_eq.
    + rewrite lookup_insert_ne by lia. eexists. apply Hkeep; [lia|].
      rewrite lookup_insert_ne by lia. apply lookup_insert_eq.
Qed.

Lemma Process_consistent world s s' :
  consistent s -> Process world s = Ret tt s' -> consistent s'.
Proof.
  intros Hc.
  destruct (needs_rebuild s world) eqn:Hn.
  2:{ rewrite (Process_unchanged world s Hn). by intros [= <-]. }
  rewrite (Process_rebuilds world s Hn).
  destruct (after_release_consistent s Hc) as (Hfresh & Hstack).
  destruct (after_release_fields s) as (Hm & _ & _ & _ & Hmax & _).
  destruct (Z.leb_spec (Calc.max_alloc_size (m_device s)) stack_memory_limit) as [Hle|Hgt];
    [discriminate|].
  intros Hr. apply rebuild_returns in Hr as (st & bvh & vd & fd & _ & _ & _ & _ & ->).
  apply rebuilt_consistent; trivial. by rewrite Hmax.
Qed.

(** The two exceptions of [Process] itself leave the buffers in order. *)
Lemma Process_throw_consistent world s what s' :
  consistent s -> Process world s = Throw (ExceptionImpl what) s' -> consistent s'.
Proof.
  intros Hc.
  destruct (needs_rebuild s world) eqn:Hn.
  2:{ rewrite (Process_unchanged world s Hn). discriminate. }
  rewrite (Process_rebuilds world s Hn).
  destruct (after_release_consistent s Hc) as (Hfresh & Hstack).
  destruct (after_release_fields s) as (Hm & _ & _ & _ & Hmax & _).
  destruct (Z.leb_spec (Calc.max_alloc_size (m_device s)) stack_memory_limit) as [Hle|Hgt].
  - intros [= _ <-]. split; [exact Hfresh|]. split; [exact Hstack|].
    rewrite Hm. intros Hb. destruct Hc as (_ & _ & Hbvh). apply Hbvh in Hb as [Hb _]. lia.
  - intros Hr.
    apply rebuild_throws_only in Hr as [(_ & -> & _)|(Hwhat & _)]; [|discriminate Hwhat].
    split; [exact Hfresh|]. split; [exact Hstack|].
    intros [? Hb]. discriminate Hb.
Qed.

Lemma Intersect_consistent queueidx rays numrays maxrays hits waitevent event s s' :
  consistent s ->
  Intersect queueidx rays numrays maxrays hits waitevent event s = Ret tt s' ->
  consistent s'.
Proof.
  intros (Hfresh & Hstack & Hbvh) Hret.
  destruct (Intersect_returned _ _ _ _ _ _ _ _ _ Hret) as (size & Hsize & Hallowed).
  destruct (Intersect_fields queueidx rays numrays maxrays hits waitevent event s size
              Hsize Hallowed)
    as (s1 & Hret1 & Hmb & Hb & Hv & Hmax & Hcases).
  rewrite Hret in Hret1. injection Hret1 as <-.
  unfold consistent. cbv zeta. rewrite Hmb, Hb, Hv, Hmax.
  destruct Hcases as [(_ & -> & -> & ->)|(_ & old & Hold & -> & -> & ->)].
  - exact (conj Hfresh (conj Hstack Hbvh)).
  - pose proof (Hfresh old (Hstack old Hold)) as Holdlt.
    split; [|split].
    + intros x Hx. apply lookup_insert_is_Some in Hx as [<-|[_ Hx]]; [lia|].
      apply lookup_delete_is_Some in Hx as [_ Hx]. apply Hfresh in Hx. lia.
    + intros x [= <-]. rewrite lookup_insert_eq. by eexists.
    + intros Hsome.
      destruct (Hbvh Hsome) as (Hlim & hb & hv & hs & Ehb & Ehv & Ehs & Hbv & Hbs & Hvs & Lb & Lv).
      rewrite Hold in Ehs. injection Ehs as <-.
      split; [exact Hlim|].
      exists hb, hv, (Calc.next_handle (m_device s)).
      pose proof (Hfresh hb Lb). pose proof (Hfresh hv Lv).
      split; [exact Ehb|]. split; [exact Ehv|]. split; [reflexivity|].
      split; [exact Hbv|]. split; [lia|]. split; [lia|]. split.
      * rewrite lookup_insert_ne by lia. by rewrite lookup_delete_ne.
      * rewrite lookup_insert_ne by lia. by rewrite lookup_delete_ne.
Qed.

Lemma Occluded_consistent queueidx rays numrays maxrays hits waitevent event s s' :
  consistent s ->
  Occluded queueidx rays numrays maxrays hits waitevent event s = Ret tt s' ->
  consistent s'.
Proof.
  intros Hc Ho.
  destruct (Occluded_returned _ _ _ _ _ _ _ _ _ Ho) as (s1 & Hi & ->).
  exact (Intersect_consistent _ _ _ _ _ _ _ _ _ Hc Hi).
Qed.

Lemma new_consistent (device : Calc.Device Payload) :
  (forall h, is_Some (Calc.heap device !! h) -> (h < Calc.next_handle device)%nat) ->
  consistent (new_IntersectorShortStack device).
Proof.
  intros Hfresh. split; [exact Hfresh|].
  split; [intros h Hh; discriminate Hh|]. intros [? Hb]. discriminate Hb.
Qed.

(** With the buffers in order and a hierarchy stored, the stack buffer is
    live, and both functions return when the stack holds the rays or the
    device allows the larger stack. *)
Lemma consistent_launch queueidx rays numrays maxrays hits waitevent event s :
  consistent s -> is_Some (m_bvh s) ->
  exists size,
    Calc.GetSize (gpu_stack s) (m_device s) = Some size /\
    (required_stack_size maxrays <= size \/
     required_stack_size maxrays <= Calc.max_alloc_size (m_device s) ->
     exists s1 s2,
       Intersect queueidx rays numrays maxrays hits waitevent event s = Ret tt s1 /\
       Occluded queueidx rays numrays maxrays hits waitevent event s = Ret tt s2 /\
       consistent s1 /\ is_Some (m_bvh s1) /\
       consistent s2 /\ is_Some (m_bvh s2)).
Proof.
  intros Hc Hsome.
  pose proof Hc as (_ & Hstack & Hbvh).
  destruct (Hbvh Hsome) as (_ & hb & hv & hs & _ & _ & Ehs & _).
  destruct (Hstack hs Ehs) as [size Hsize].
  assert (Hsize' : Calc.GetSize (gpu_stack s) (m_device s) = Some size).
  { unfold Calc.GetSize. by rewrite Ehs. }
  exists size. split; [exact Hsize'|]. intros Hallowed.
  destruct (Intersect_fields queueidx rays numrays maxrays hits waitevent event s size
              Hsize' Hallowed) as (s1 & Hi & Hmb & _).
  destruct (Occluded_fields _ _ _ _ _ _ _ _ _ Hi) as (s2 & Ho & Hmb' & _).
  exists s1, s2. split; [exact Hi|]. split; [exact Ho|].
  split; [exact (Intersect_consistent _ _ _ _ _ _ _ _ _ Hc Hi)|].
  split; [by rewrite Hmb|].
  split; [exact (Occluded_consistent _ _ _ _ _ _ _ _ _ Hc Ho)|].
  by rewrite Hmb', Hmb.
Qed.

(** X5.  For at most 22369621 rays (the largest number whose stack size
    [4 * maxrays * kMaxStackSize] fits 32 bits), with the buffers in order
    and a hierarchy stored: when the stack buffer holds the stack of the
    rays or the device allows a buffer of that size, [Intersect] and
    [Occluded] return, and the stack buffer they leave and bind to the
    kernel holds at least [kMaxStackSize] integers of 4 bytes per ray; it
    is never smaller than the stack buffer they found; the hierarchy and the
    node and vertex buffers are as before, and the buffers are in order
    again. *)
Theorem stack_holds_every_ray
    (queueidx : Z) (rays numrays : option Calc.handle) (maxrays : Z)
    (hits : option Calc.handle) (waitevent : option nat) (event : bool)
    (s : IntersectorShortStack) (size : Z) :
  0 <= maxrays <= 22369621 ->
  consistent s -> is_Some (m_bvh s) ->
  Calc.GetSize (gpu_stack s) (m_device s) = Some size ->
  4 * maxrays * kMaxStackSize <= size \/
  4 * maxrays * kMaxStackSize <= Calc.max_alloc_size (m_device s) ->
  exists s' s'' size',
    Intersect queueidx rays numrays maxrays hits waitevent event s = Ret tt s' /\
    Occluded queueidx rays numrays maxrays hits waitevent event s = Ret tt s'' /\
    Calc.GetSize (gpu_stack s') (m_device s') = Some size' /\
    Calc.GetSize (gpu_stack s'') (m_device s'') = Some size' /\
    maxrays * (kMaxStackSize * sizeof_int) <= size' /\
    size <= size' /\
    m_bvh s' = m_bvh s /\ gpu_bvh s' = gpu_bvh s /\ gpu_vertices s' = gpu_vertices s /\
    m_bvh s'' = m_bvh s /\ gpu_bvh s'' = gpu_bvh s /\ gpu_vertices s'' = gpu_vertices s /\
    consistent s' /\ consistent s''.
Proof.
  intros Hm Hc Hsome Hsize Hallowed.
  rewrite <- (stack_size_exact maxrays Hm) in Hallowed.
  destruct (Intersect_fields queueidx rays numrays maxrays hits waitevent event s size
              Hsize Hallowed)
    as (s' & Hi & Hmb & Hb & Hv & _ & Hcases).
  destruct (Occluded_fields _ _ _ _ _ _ _ _ _ Hi)
    as (s'' & Ho & Hmb' & Hb' & Hv' & Hst' & Hheap' & _).
  rewrite (stack_size_exact maxrays Hm) in Hcases.
  assert (Hsame : Calc.GetSize (gpu_stack s'') (m_device s'')
                  = Calc.GetSize (gpu_stack s') (m_device s')).
  { unfold Calc.GetSize. by rewrite Hst', Hheap'. }
  assert (Hgoal : exists size', Calc.GetSize (gpu_stack s') (m_device s') = Some size' /\
                                4 * maxrays * kMaxStackSize <= size' /\ size <= size').
  { destruct Hcases as [(Hle & Hst & Hheap & _)|(Hlt & old & _ & Hst & Hheap & _)].
    - exists size. unfold Calc.GetSize. rewrite Hst, Hheap. split; [exact Hsize|]. lia.
    - exists (4 * maxrays * kMaxStackSize). unfold Calc.GetSize. rewrite Hst, Hheap.
      split; [apply lookup_insert_eq|]. lia. }
  destruct Hgoal as (size' & Hs' & Hcap & Hmono).
  exists s', s'', size'. rewrite Hsame.
  split; [exact Hi|]. split; [exact Ho|]. split; [exact Hs'|]. split; [exact Hs'|].
  split; [unfold sizeof_int; lia|]. split; [exact Hmono|].
  rewrite Hmb', Hb', Hv'.
  do 6 (split; [done|]).
  split; [exact (Intersect_consistent _ _ _ _ _ _ _ _ _ Hc Hi)|].
  exact (Occluded_consistent _ _ _ _ _ _ _ _ _ Hc Ho).
Qed.

(** X6.  A newly constructed intersector has no stack buffer: [Intersect]
    and [Occluded] dereference the null pointer, whatever the arguments.
    After its first [Process] has returned, both return for every number
    of rays whose stack the stack buffer of [Process] holds or the device
    allows.  For a number of rays whose stack the device refuses, both
    throw and leave the stack pointer null: the next [Intersect] or
    [Occluded] dereferences the null pointer again. *)
Theorem Intersect_needs_Process
    (device : Calc.Device Payload) (world : World)
    (queueidx : Z) (rays numrays : option Calc.handle) (maxrays : Z)
    (hits : option Calc.handle) (waitevent : option nat) (event : bool) :
  Intersect queueidx rays numrays maxrays hits waitevent event
    (new_IntersectorShortStack device) = Undef /\
  Occluded queueidx rays numrays maxrays hits waitevent event
    (new_IntersectorShortStack device) = Undef /\
  forall s', Process world (new_IntersectorShortStack device) = Ret tt s' ->
    (required_stack_size maxrays <= kMaxBatchSize * kMaxStackSize \/
     required_stack_size maxrays <= Calc.max_alloc_size device ->
     (exists s1, Intersect queueidx rays numrays maxrays hits waitevent event s' = Ret tt s1) /\
     (exists s2, Occluded queueidx rays numrays maxrays hits waitevent event s' = Ret tt s2)) /\
    (kMaxBatchSize * kMaxStackSize < required_stack_size maxrays ->
     Calc.max_alloc_size device < required_stack_size maxrays ->
     exists s1,
       Intersect queueidx rays numrays maxrays hits waitevent event s'
       = Throw AllocationFailure s1 /\
       Occluded queueidx rays numrays maxrays hits waitevent event s'
       = Throw AllocationFailure s1 /\
       gpu_stack s1 = None /\
       forall queueidx' rays' numrays' maxrays' hits' waitevent' event',
         Intersect queueidx' rays' numrays' maxrays' hits' waitevent' event' s1 = Undef /\
         Occluded queueidx' rays' numrays' maxrays' hits' waitevent' event' s1 = Undef).
Proof.
  split; [|split].
  - by rewrite Intersect_eq.
  - by rewrite Occluded_eq, Intersect_eq.
  - intros s'. rewrite Process_rebuilds by (by apply needs_rebuild_none).
    destruct (Calc.max_alloc_size _ <=? stack_memory_limit); [discriminate|].
    intros Hr. apply rebuild_returns in Hr as (st & bvh & vd & fd & _ & _ & _ & _ & ->).
    destruct (rebuilt_stack (after_release (new_IntersectorShortStack device)) st bvh vd fd)
      as (Hs & Hh).
    set (s' := rebuilt (after_release (new_IntersectorShortStack device)) st bvh vd fd) in *.
    assert (Hsize : Calc.GetSize (gpu_stack s') (m_device s')
                    = Some (kMaxBatchSize * kMaxStackSize)).
    { unfold Calc.GetSize. rewrite Hs. exact Hh. }
    assert (Hmax : Calc.max_alloc_size (m_device s') = Calc.max_alloc_size device)
      by reflexivity.
    split.
    + intros Hallowed. rewrite <- Hmax in Hallowed.
      destruct (Intersect_fields queueidx rays numrays maxrays hits waitevent event s'
                  (kMaxBatchSize * kMaxStackSize) Hsize Hallowed) as (s1 & Hi & _).
      split; [by exists s1|].
      destruct (Occluded_fields _ _ _ _ _ _ _ _ _ Hi) as (s2 & Ho & _). by exists s2.
    + intros Hlt Hno. rewrite <- Hmax in Hno.
      destruct (Intersect_refused queueidx rays numrays maxrays hits waitevent event s'
                  (kMaxBatchSize * kMaxStackSize) Hsize Hlt Hno) as (Hi & Ho).
      exists (stack_released s'). split; [exact Hi|]. split; [exact Ho|].
      split; [reflexivity|]. intros. apply stack_released_undefined.
Qed.

(** X7.  The buffers of the intersector stay in order through every call
    that returns and through the two exceptions of [Process] itself.  The
    intersector made by the constructor is in order (on a device that hands
    out new handles); a [Process] that returns or throws one of its two
    exceptions, and an [Intersect] or [Occluded] that returns, leave it in
    order.  So whenever a hierarchy is stored, the stack buffer is live,
    and [Intersect] and [Occluded] return when the stack buffer holds the
    stack of the rays or the device allows it; the node, vertex and stack
    buffers they bind are three live buffers.  (A call in which the device
    refuses a buffer is another matter: it throws with a hierarchy stored
    and a buffer missing.) *)
Theorem buffers_stay_consistent :
  (forall device,
     (forall h, is_Some (Calc.heap device !! h) -> (h < Calc.next_handle device)%nat) ->
     consistent (new_IntersectorShortStack device)) /\
  (forall world s s',
     consistent s -> Process world s = Ret tt s' -> consistent s') /\
  (forall world s what s',
     consistent s -> Process world s = Throw (ExceptionImpl what) s' -> consistent s') /\
  (forall queueidx rays numrays maxrays hits waitevent event s s',
     consistent s ->
     Intersect queueidx rays numrays maxrays hits waitevent event s = Ret tt s' \/
     Occluded queueidx rays numrays maxrays hits waitevent event s = Ret tt s' ->
     consistent s') /\
  (forall queueidx rays numrays maxrays hits waitevent event s,
     consistent s -> is_Some (m_bvh s) ->
     exists size,
       Calc.GetSize (gpu_stack s) (m_device s) = Some size /\
       (required_stack_size maxrays <= size \/
        required_stack_size maxrays <= Calc.max_alloc_size (m_device s) ->
        exists s1 s2,
          Intersect queueidx rays numrays maxrays hits waitevent event s = Ret tt s1 /\
          Occluded queueidx rays numrays maxrays hits waitevent event s = Ret tt s2 /\
          consistent s1 /\ is_Some (m_bvh s1) /\
          consistent s2 /\ is_Some (m_bvh s2))).
Proof.
  split; [|split; [|split; [|split]]].
  - exact new_consistent.
  - exact Process_consistent.
  - exact Process_throw_consistent.
  - intros queueidx rays numrays maxrays hits waitevent event s s' Hc [Ho|Ho].
    + by eapply Intersect_consistent.
    + by eapply Occluded_consistent.
  - exact consistent_launch.
Qed.

(** X18.  A rebuild leaks no buffer.  When a hierarchy is stored and the
    buffers are in order, a [Process] that rebuilds and returns has deleted
    the old node, vertex and stack buffers and created three new ones: the
    buffers that are live afterwards are the three new buffers of the
    intersector and the buffers that were live before other than its three
    old ones. *)
Theorem Process_leaks_no_buffer (world : World) (s s' : IntersectorShortStack) :
  consistent s -> is_Some (m_bvh s) ->
  needs_rebuild s world = true ->
  Process world s = Ret tt s' ->
  exists hb hv hs hb' hv' hs' : Calc.handle,
    gpu_bvh s = Some hb /\ gpu_vertices s = Some hv /\ gpu_stack s = Some hs /\
    gpu_bvh s' = Some hb' /\ gpu_vertices s' = Some hv' /\ gpu_stack s' = Some hs' /\
    forall x : Calc.handle,
      is_Some (Calc.heap (m_device s') !! x) <->
      (x = hb' \/ x = hv' \/ x = hs') \/
      (is_Some (Calc.heap (m_device s) !! x) /\ x <> hb /\ x <> hv /\ x <> hs).
Proof.
  intros (Hfresh & Hstack & Hbvh) Hsome Hn.
  destruct (Hbvh Hsome) as (_ & hb & hv & hs & Ehb & Ehv & Ehs & _ & _ & _ & Lb & Lv).
  rewrite (Process_rebuilds world s Hn).
  destruct (Calc.max_alloc_size (m_device s) <=? stack_memory_limit); [discriminate|].
  intros Hr. apply rebuild_returns in Hr as (st & bvh & vd & fd & _ & _ & _ & _ & ->).
  destruct (after_release_fields s) as (_ & _ & _ & Hst & _ & Hnh & _).
  pose proof (after_release_heap s) as Hheap.
  destruct Hsome as [old Hold]. rewrite Hold, Ehv, Ehb in Hheap.
  exists hb, hv, hs,
    (S (Calc.next_handle (m_device s))), (Calc.next_handle (m_device s)),
    (S (S (Calc.next_handle (m_device s)))).
  do 3 (split; [assumption|]).
  unfold rebuilt. cbn [m_device gpu_bvh gpu_vertices gpu_stack Calc.heap].
  rewrite Hst, Ehs, Hnh, Hheap.
  do 3 (split; [reflexivity|]).
  intros x.
  rewrite lookup_insert_is_Some, lookup_delete_is_Some, !lookup_insert_is_Some,
    !lookup_delete_is_Some.
  pose proof (Hfresh x) as Hx. pose proof (Hfresh hs (Hstack hs Ehs)) as Hhs.
  split.
  - intros [->|[? [? [->|[? [->|[? [? [? ?]]]]]]]]]; auto 10.
  - intros [Hnew|(Hl & ? & ? & ?)]; [destruct Hnew as [->|[->| ->]]|].
    + right. split; [lia|]. split; [lia|]. by left.
    + right. split; [lia|]. split; [lia|]. right. split; [lia|]. by left.
    + by left.
    + specialize (Hx Hl). right. split; [lia|]. split; [done|].
      right. split; [lia|]. right. split; [lia|]. by repeat split.
Qed.

End InvariantCoverage.

(** The intersector that has processed the small world has its buffers in
    order. *)
Lemma used_consistent : consistent used_intersector.
Proof.
  apply (Process_consistent small_world fresh_intersector).
  - apply new_consistent. intros h [x Hx]. vm_compute in Hx. discriminate Hx.
  - apply returned. vm_compute. reflexivity.
Qed.

(** X5 on the intersector that has processed the small world, for a
    million rays: the stack of 50331648 bytes is replaced by one of
    192000000 bytes, which the device of one GiB allows. *)
Lemma stack_holds_every_ray_witness :
  exists s' size',
    Intersect 0 (Some 7%nat) (Some 8%nat) 1000000 (Some 9%nat) None false used_intersector
      = Ret tt s' /\
    Calc.GetSize (gpu_stack s') (m_device s') = Some size' /\
    192000000 <= size'.
Proof.
  destruct (stack_holds_every_ray 0 (Some 7%nat) (Some 8%nat) 1000000 (Some 9%nat) None
              false used_intersector 50331648)
    as (s' & s'' & size' & Hi & _ & Hs & _ & Hcap & _).
  - lia.
  - exact used_consistent.
  - vm_compute. by eexists.
  - vm_compute. reflexivity.
  - right. vm_compute. discriminate.
  - exists s', size'. split; [exact Hi|]. split; [exact Hs|].
    unfold kMaxStackSize, sizeof_int in Hcap. lia.
Defined.

(** X6 on the device of one GiB: ten million rays ask for a stack of
    1920000000 bytes, which the device refuses; the intersector is left
    without a stack buffer, and the next [Intersect] is undefined. *)
Lemma Intersect_needs_Process_witness :
  exists s1,
    Intersect 0 (Some 7%nat) (Some 8%nat) 10000000 (Some 9%nat) None false used_intersector
      = Throw AllocationFailure s1 /\
    gpu_stack s1 = None /\
    Intersect 0 (Some 7%nat) (Some 8%nat) 1000 (Some 9%nat) None false s1 = Undef.
Proof.
  destruct (Intersect_needs_Process (sample_device (2 ^ 30)) small_world
              0 (Some 7%nat) (Some 8%nat) 10000000 (Some 9%nat) None false)
    as (_ & _ & Hafter).
  destruct (Hafter used_intersector) as (_ & Hrefused).
  - apply (returned (Process small_world fresh_intersector) fresh_intersector).
    vm_compute. reflexivity.
  - destruct Hrefused as (s1 & Hi & _ & Hs & Hundef);
      [vm_compute; reflexivity | vm_compute; reflexivity |].
    exists s1. split; [exact Hi|]. split; [exact Hs|].
    exact (proj1 (Hundef 0 (Some 7%nat) (Some 8%nat) 1000 (Some 9%nat) None false)).
Defined.

(** X18 on the intersector that has processed the small world: after the
    next rebuild its old vertex buffer, buffer 0, is gone. *)
Lemma Process_leaks_no_buffer_witness :
  ~ is_Some (Calc.heap (m_device (state_after (Process small_world used_intersector)
                                    used_intersector)) !! 0%nat).
Proof.
  pose (s' := state_after (Process small_world used_intersector) used_intersector).
  destruct (Process_leaks_no_buffer small_world used_intersector s')
    as (hb & hv & hs & hb' & hv' & hs' & _ & Ev & _ & Eb' & Ev' & Es' & Hlive).
  - exact used_consistent.
  - vm_compute. by eexists.
  - vm_compute. reflexivity.
  - apply returned. vm_compute. reflexivity.
  - vm_compute in Ev, Eb', Ev', Es'.
    injection Ev as <-. injection Eb' as <-. injection Ev' as <-. injection Es' as <-.
    intros Hl. apply Hlive in Hl as [[?|[?|?]]|(_ & _ & ? & _)]; lia.
Defined.

(** ** What [Process] writes into the bounds and into the vertex buffer *)

Section ScatterFacts.
Context {X : Type}.

(** A loop that writes [v j] at [start + j] for every [j] below [n]. *)
Lemma scatter_range (v : nat -> X) (start : Z) (n : nat)
    (body : Z -> list X -> option (list X)) (b : list X) :
  0 <= start -> start + Z.of_nat n <= Z.of_nat (length b) ->
  (forall (j : nat) c, (j < n)%nat ->
     body (Z.of_nat j) c = store c (start + Z.of_nat j) (v j)) ->
  exists b',
    for_range n 0 body b = Some b' /\ length b' = length b /\
    (forall j : nat, (j < n)%nat -> b' !! (Z.to_nat start + j)%nat = Some (v j)) /\
    (forall p : nat, (p < Z.to_nat start)%nat -> b' !! p = b !! p).
Proof.
  intros Hs Hn Hbody.
  destruct (for_range_inv
              (fun (j : nat) (c : list X) =>
                 length c = length b /\
                 (forall j' : nat, (j' < j)%nat ->
                    c !! (Z.to_nat start + j')%nat = Some (v j')) /\
                 (forall p : nat, (p < Z.to_nat start)%nat -> c !! p = b !! p))
              body n 0 b) as (b' & E & Hlen & Hv & Hp).
  { split; [done|]. split; [intros; lia | done]. }
  { intros j c Hj (Hlen & Hv & Hp). rewrite Hbody by lia.
    replace (start + Z.of_nat j) with (Z.of_nat (Z.to_nat start + j)) by lia.
    rewrite store_of_nat by lia.
    eexists. split; [reflexivity|]. split; [by rewrite length_insert|]. split.
    - intros j' Hj'. destruct (decide (j' = j)) as [->|Hne].
      + apply list_lookup_insert_eq. lia.
      + rewrite list_lookup_insert_ne by lia. apply Hv. lia.
    - intros p Hlt. rewrite list_lookup_insert_ne by lia. by apply Hp. }
  exists b'. change (Z.of_nat 0) with 0 in E. by repeat split.
Qed.

End ScatterFacts.

Section ShapeScatter.
Context `{Accelerator} {X : Type}.
Context (shapes : list Shape) (size : Shape -> nat) (pre : nat -> Z)
  (v : nat -> Shape -> nat -> X).
Hypothesis pre_nonneg : forall k, 0 <= pre k.
Hypothesis pre_S : forall k s, shapes !! k = Some s -> pre (S k) = pre k + Z.of_nat (size s).
Hypothesis pre_mono : forall k k', (k <= k')%nat -> pre k <= pre k'.

(** A loop over the shapes [lo], ..., [lo + n - 1] whose step for a shape
    writes the values of the shape from the shape's start on. *)
Lemma scatter_shapes (total : nat) (body : Z -> list X -> option (list X)) (n lo : nat)
    (b : list X) :
  pre (length shapes) <= Z.of_nat total ->
  (lo + n <= length shapes)%nat ->
  scattered shapes size pre v total lo b ->
  (forall (i : nat) (s : Shape) (c : list X),
     (lo <= i < lo + n)%nat -> shapes !! i = Some s ->
     exists inner,
       body (Z.of_nat i) c = for_range (size s) 0 inner c /\
       forall (j : nat) c', (j < size s)%nat ->
         inner (Z.of_nat j) c' = store c' (pre i + Z.of_nat j) (v i s j)) ->
  exists b', for_range n (Z.of_nat lo) body b = Some b' /\
             scattered shapes size pre v total (lo + n) b'.
Proof.
  intros Htotal Hn Hb Hbody.
  apply (for_range_inv (scattered shapes size pre v total) body n lo b Hb).
  intros i c Hi (Hlen & Hc).
  destruct (lookup_lt_is_Some_2 shapes i) as [s Hs]; [lia|].
  destruct (Hbody i s c Hi Hs) as (inner & -> & Hinner).
  pose proof (pre_nonneg i). pose proof (pre_S i s Hs).
  pose proof (pre_mono (S i) (length shapes) ltac:(lia)).
  destruct (scatter_range (v i s) (pre i) (size s) inner c) as (c' & E & Hlen' & Hv & Hp);
    [lia | lia | exact Hinner |].
  exists c'. split; [exact E|]. split; [lia|].
  intros k s' j Hk Hs' Hj.
  destruct (decide (k = i)) as [->|Hne].
  - rewrite Hs in Hs'. injection Hs' as <-. by apply Hv.
  - rewrite Hp.
    + apply Hc; trivial. lia.
    + pose proof (pre_S k s' Hs'). pose proof (pre_mono (S k) i ltac:(lia)).
      pose proof (pre_nonneg k). lia.
Qed.

(** Every cell below the end of the last shape belongs to one shape. *)
Lemma pre_owner (p : Z) :
  pre 0%nat = 0 ->
  forall n : nat, (n <= length shapes)%nat -> 0 <= p < pre n ->
  exists (k : nat) (s : Shape),
    (k < n)%nat /\ shapes !! k = Some s /\ pre k <= p < pre k + Z.of_nat (size s).
Proof.
  intros Hz. induction n as [|n IH]; intros Hn Hp; [lia|].
  destruct (lookup_lt_is_Some_2 shapes n) as [s Hs]; [lia|].
  pose proof (pre_S n s Hs).
  destruct (Z.lt_ge_cases p (pre n)) as [Hlt|Hge].
  - destruct IH as (k & s' & Hk & Hs' & Hr); [lia | lia |].
    exists k, s'. split; [lia|]. by split.
  - exists n, s. split; [lia|]. split; [exact Hs|]. lia.
Qed.

Lemma scattered_cover (total : nat) (c : list X) (p : Z) :
  pre 0%nat = 0 ->
  scattered shapes size pre v total (length shapes) c ->
  0 <= p < pre (length shapes) ->
  exists (k : nat) (s : Shape),
    shapes !! k = Some s /\ pre k <= p < pre k + Z.of_nat (size s) /\
    load c p = Some (v k s (Z.to_nat (p - pre k))).
Proof.
  intros Hz (_ & Hc) Hp.
  destruct (pre_owner p Hz (length shapes)) as (k & s & Hk & Hs & Hr); [lia | exact Hp |].
  exists k, s. split; [exact Hs|]. split; [exact Hr|].
  pose proof (pre_nonneg k).
  apply load_Some. split; [lia|].
  replace (Z.to_nat p) with (Z.to_nat (pre k) + Z.to_nat (p - pre k))%nat by lia.
  apply Hc; trivial. lia.
Qed.

End ShapeScatter.

Section ContentCoverage.
Context `{Accelerator}.

Lemma faces_before_size k s shapes :
  shapes !! k = Some s ->
  faces_before shapes (S k)
  = faces_before shapes k + Z.of_nat (length (GetFaceData (base_mesh s))).
Proof. apply faces_before_S. Qed.

Lemma vertices_before_size k s shapes :
  shapes !! k = Some s ->
  vertices_before shapes (S k)
  = vertices_before shapes k + Z.of_nat (length (GetVertexData (base_mesh s))).
Proof. apply vertices_before_S. Qed.

Lemma face_bounds_scattered shapes st nummeshes :
  meshes_first shapes nummeshes -> starts_of shapes st ->
  exists bounds,
    face_bounds shapes st nummeshes (length shapes - nummeshes) = Some bounds /\
    scattered shapes (fun s => length (GetFaceData (base_mesh s))) (faces_before shapes)
      (fun _ s j => world_face_bound s (Z.of_nat j))
      (Z.to_nat (numfaces st)) (length shapes) bounds.
Proof.
  intros (Hle & Hkind) Hst. unfold face_bounds.
  pose proof Hst as (_ & _ & Hnf & _ & _).
  pose proof (faces_before_nonneg shapes (length shapes)) as Hnn.
  destruct (scatter_shapes shapes (fun s => length (GetFaceData (base_mesh s)))
              (faces_before shapes) (fun _ s j => world_face_bound s (Z.of_nat j))
              (faces_before_nonneg shapes)
              (fun k s => faces_before_size k s shapes)
              (faces_before_mono shapes)
              (Z.to_nat (numfaces st)) (mesh_bounds shapes st) nummeshes 0
              (replicate (Z.to_nat (numfaces st)) bbox_default))
    as (b1 & E1 & P1).
  { rewrite Hnf. lia. }
  { lia. }
  { split; [by rewrite length_replicate|]. intros; lia. }
  { intros i s c Hi Hs. unfold mesh_bounds. rewrite (load_of_nat shapes), Hs. simpl.
    rewrite as_mesh_base by (apply (Hkind i s Hs); lia). simpl.
    destruct (starts_of_load shapes st i Hst) as [-> _]; [lia|]. simpl.
    eexists. split; [reflexivity|]. intros j c' Hj.
    destruct s as [m|inst]; [reflexivity|].
    exfalso. specialize (Hkind i _ Hs) as [Hk _]. discriminate Hk. lia. }
  change (Z.of_nat 0) with 0 in E1. rewrite E1. simpl.
  destruct (scatter_shapes shapes (fun s => length (GetFaceData (base_mesh s)))
              (faces_before shapes) (fun _ s j => world_face_bound s (Z.of_nat j))
              (faces_before_nonneg shapes)
              (fun k s => faces_before_size k s shapes)
              (faces_before_mono shapes)
              (Z.to_nat (numfaces st)) (instance_bounds shapes st)
              (length shapes - nummeshes) nummeshes b1)
    as (b2 & E2 & P2).
  { rewrite Hnf. lia. }
  { lia. }
  { exact P1. }
  { intros i s c Hi Hs. unfold instance_bounds. rewrite (load_of_nat shapes), Hs. simpl.
    destruct s as [m|inst];
      [exfalso; specialize (Hkind i _ Hs) as [_ Hk]; discriminate Hk; lia|].
    simpl.
    destruct (starts_of_load shapes st i Hst) as [-> _]; [lia|]. simpl.
    eexists. split; [reflexivity|]. intros j c' Hj. reflexivity. }
  exists b2. split; [exact E2|].
  replace (nummeshes + (length shapes - nummeshes))%nat with (length shapes) in P2 by lia.
  exact P2.
Qed.

Lemma world_vertices_scattered shapes st nummeshes :
  meshes_first shapes nummeshes -> starts_of shapes st ->
  exists vertexdata,
    world_vertices shapes st nummeshes (length shapes - nummeshes) = Some vertexdata /\
    scattered shapes (fun s => length (GetVertexData (base_mesh s)))
      (vertices_before shapes)
      (fun k s j => uploaded_point (Z.of_nat k) s (Z.of_nat j)
                      <$> GetVertexData (base_mesh s) !! j)
      (Z.to_nat (numvertices st)) (length shapes) vertexdata.
Proof.
  intros (Hle & Hkind) Hst. unfold world_vertices.
  pose proof Hst as (_ & _ & _ & Hnv & _).
  pose proof (vertices_before_nonneg shapes (length shapes)) as Hnn.
  assert (Hinner : forall (i : nat) (s : Shape) (start : Z) (j : nat)
                          (c' : list (option float3)),
             (j < length (GetVertexData (base_mesh s)))%nat ->
             (p ← load (GetVertexData (base_mesh s)) (Z.of_nat j);
              store c' (start + Z.of_nat j)
                (Some (transform_point p
                         (read_shared_matrix (Z.of_nat i) (Z.of_nat j) (world_transform s)))))
             = store c' (start + Z.of_nat j)
                 (uploaded_point (Z.of_nat i) s (Z.of_nat j)
                    <$> GetVertexData (base_mesh s) !! j)).
  { intros i s start j c' Hj. rewrite load_of_nat.
    destruct (lookup_lt_is_Some_2 (GetVertexData (base_mesh s)) j) as [p ->]; [lia|].
    reflexivity. }
  destruct (scatter_shapes shapes (fun s => length (GetVertexData (base_mesh s)))
              (vertices_before shapes)
              (fun k s j => uploaded_point (Z.of_nat k) s (Z.of_nat j)
                              <$> GetVertexData (base_mesh s) !! j)
              (vertices_before_nonneg shapes)
              (fun k s => vertices_before_size k s shapes)
              (vertices_before_mono shapes)
              (Z.to_nat (numvertices st)) (mesh_vertices shapes st) nummeshes 0
              (replicate (Z.to_nat (numvertices st)) None))
    as (b1 & E1 & P1).
  { rewrite Hnv. lia. }
  { lia. }
  { split; [by rewrite length_replicate|]. intros; lia. }
  { intros i s c Hi Hs. unfold mesh_vertices. rewrite (load_of_nat shapes), Hs. simpl.
    rewrite as_mesh_base by (apply (Hkind i s Hs); lia). simpl.
    destruct (starts_of_load shapes st i Hst) as [_ ->]; [lia|]. simpl.
    destruct s as [m|inst];
      [|exfalso; specialize (Hkind i _ Hs) as [Hk _]; discriminate Hk; lia].
    eexists. split; [reflexivity|]. intros j c' Hj.
    exact (Hinner i (ShapeMesh m) _ j c' Hj). }
  change (Z.of_nat 0) with 0 in E1. rewrite E1. simpl.
  destruct (scatter_shapes shapes (fun s => length (GetVertexData (base_mesh s)))
              (vertices_before shapes)
              (fun k s j => uploaded_point (Z.of_nat k) s (Z.of_nat j)
                              <$> GetVertexData (base_mesh s) !! j)
              (vertices_before_nonneg shapes)
              (fun k s => vertices_before_size k s shapes)
              (vertices_before_mono shapes)
              (Z.to_nat (numvertices st)) (instance_vertices shapes st)
              (length shapes - nummeshes) nummeshes b1)
    as (b2 & E2 & P2).
  { rewrite Hnv. lia. }
  { lia. }
  { exact P1. }
  { intros i s c Hi Hs. unfold instance_vertices. rewrite (load_of_nat shapes), Hs. simpl.
    destruct s as [m|inst];
      [exfalso; specialize (Hkind i _ Hs) as [_ Hk]; discriminate Hk; lia|].
    simpl.
    destruct (starts_of_load shapes st i Hst) as [_ ->]; [lia|]. simpl.
    eexists. split; [reflexivity|]. intros j c' Hj.
    exact (Hinner i (ShapeInstance inst) _ j c' Hj). }
  exists b2. split; [exact E2|].
  replace (nummeshes + (length shapes - nummeshes))%nat with (length shapes) in P2 by lia.
  exact P2.
Qed.

(** Without interference a vertex is uploaded with the transform of its
    shape. *)
Lemma uploaded_point_undisturbed (k : Z) (s : Shape) (j : Z) (p : float3) :
  undisturbed -> uploaded_point k s j p = transform_point p (world_transform s).
Proof. intros Hu. unfold uploaded_point. by rewrite Hu. Qed.

Lemma process_bounds_eq world st :
  process_starts world = Some st ->
  process_bounds world
  = face_bounds (partition_shapes world).1 st (partition_shapes world).2
      (length (partition_shapes world).1 - (partition_shapes world).2).
Proof.
  intros Hst. unfold process_bounds. rewrite Hst.
  by destruct (partition_shapes world).
Qed.

Lemma process_vertices_eq world st :
  process_starts world = Some st ->
  process_vertices world
  = world_vertices (partition_shapes world).1 st (partition_shapes world).2
      (length (partition_shapes world).1 - (partition_shapes world).2).
Proof.
  intros Hst. unfold process_vertices. rewrite Hst.
  by destruct (partition_shapes world).
Qed.

Lemma faces_before_0 shapes : faces_before shapes 0 = 0.
Proof. reflexivity. Qed.

Lemma vertices_before_0 shapes : vertices_before shapes 0 = 0.
Proof. reflexivity. Qed.

(** X8.  The bounds that [Process] hands to the builder hold one box for
    every face of the world and no other: the box of face [j] of the shape
    at position [k] of the partitioned vector is at the shape's face start
    plus [j]; it is the world-space bound of the face for a mesh, and the
    object-space bound of the base mesh's face transformed by the
    instance's matrix for an instance. *)
Theorem every_face_has_its_bound (world : World) :
  exists st bounds,
    process_starts world = Some st /\
    process_bounds world = Some bounds /\
    process_bvh world = Some (Build (select_builder (options_ world)) bounds (numfaces st)) /\
    Z.of_nat (length bounds) = world_faces world /\
    (forall (k : nat) (shape : Shape) (j : nat),
       (partition_shapes world).1 !! k = Some shape ->
       (j < length (GetFaceData (base_mesh shape)))%nat ->
       load bounds (faces_before (partition_shapes world).1 k + Z.of_nat j)
       = Some (world_face_bound shape (Z.of_nat j))) /\
    (forall x : Z, 0 <= x < world_faces world ->
       exists (k : nat) (shape : Shape),
         (partition_shapes world).1 !! k = Some shape /\
         faces_before (partition_shapes world).1 k <= x
           < faces_before (partition_shapes world).1 k + num_faces (base_mesh shape) /\
         load bounds x
         = Some (world_face_bound shape (x - faces_before (partition_shapes world).1 k))).
Proof.
  destruct (process_values world) as (st & bounds & Est & Hst & Eb & Ebvh).
  destruct (partition_shapes_meshes_first world) as (_ & Hmf).
  destruct (starts_of_totals world st Hst) as (Hf & _ & _).
  destruct (face_bounds_scattered _ st _ Hmf Hst) as (bounds' & Eb' & Hlen & Hcells).
  rewrite Eb in Eb'. injection Eb' as <-.
  pose proof (faces_before_nonneg (partition_shapes world).1 (length (partition_shapes world).1)).
  pose proof Hst as (_ & _ & Hnf & _ & _).
  exists st, bounds. split; [exact Est|].
  split; [by rewrite (process_bounds_eq world st Est)|].
  split; [exact Ebvh|]. split; [rewrite Hlen, <- Hf; lia|]. split.
  - intros k shape j Hs Hj.
    pose proof (faces_before_nonneg (partition_shapes world).1 k).
    apply load_Some. split; [lia|].
    replace (Z.to_nat (faces_before (partition_shapes world).1 k + Z.of_nat j))
      with (Z.to_nat (faces_before (partition_shapes world).1 k) + j)%nat by lia.
    apply Hcells; trivial. by apply lookup_lt_Some in Hs.
  - intros x Hx.
    destruct (scattered_cover (partition_shapes world).1
                (fun s => length (GetFaceData (base_mesh s)))
                (faces_before (partition_shapes world).1)
                (fun _ s j => world_face_bound s (Z.of_nat j))
                (faces_before_nonneg _)
                (fun k s => faces_before_size k s _)
                (Z.to_nat (numfaces st)) bounds x)
      as (k & shape & Hs & Hr & Hl).
    { reflexivity. }
    { by split. }
    { rewrite <- Hnf, Hf. exact Hx. }
    exists k, shape. split; [exact Hs|]. split; [exact Hr|].
    rewrite Hl. do 2 f_equal. lia.
Qed.

(** X9.  The vertex buffer that [Process] uploads has a cell for every
    vertex of the world, and every cell is written: vertex [j] of the
    shape at position [k] of the partitioned vector is at the shape's
    vertex start plus [j], transformed with the matrix that the iteration
    of the shape read in the shared variable [m] for it.  When the loops
    run without interference, that is the mesh's own matrix for a mesh and
    the instance's matrix for an instance, and the buffer holds every
    vertex in world space.  A [Process] that rebuilds and returns has
    created a read buffer of [numvertices * sizeof(float3)] bytes and
    unmapped it with these vertices. *)
Theorem every_vertex_is_uploaded (world : World) :
  exists st vertexdata,
    process_starts world = Some st /\
    process_vertices world = Some vertexdata /\
    Z.of_nat (length vertexdata) = world_vertex_count world /\
    (forall (k : nat) (shape : Shape) (j : nat) (p : float3),
       (partition_shapes world).1 !! k = Some shape ->
       GetVertexData (base_mesh shape) !! j = Some p ->
       buffer_vertex vertexdata (vertices_before (partition_shapes world).1 k + Z.of_nat j)
         (transform_point p
            (read_shared_matrix (Z.of_nat k) (Z.of_nat j) (world_transform shape)))) /\
    (undisturbed ->
     forall (k : nat) (shape : Shape) (j : nat) (p : float3),
       (partition_shapes world).1 !! k = Some shape ->
       GetVertexData (base_mesh shape) !! j = Some p ->
       buffer_vertex vertexdata (vertices_before (partition_shapes world).1 k + Z.of_nat j)
         (transform_point p (world_transform shape))) /\
    (forall cell, cell ∈ vertexdata -> is_Some cell) /\
    (forall s s', needs_rebuild s world = true -> Process world s = Ret tt s' ->
       exists h,
         Calc.OpCreateBuffer h (world_vertex_count world * sizeof_float3) Calc.kRead None
           ∈ ops_since s s' /\
         Calc.OpUnmap h (VertexData vertexdata) ∈ ops_since s s').
Proof.
  destruct (process_values world) as (st & bounds & Est & Hst & _).
  destruct (partition_shapes_meshes_first world) as (_ & Hmf).
  destruct (starts_of_totals world st Hst) as (_ & Hv & _).
  destruct (world_vertices_scattered _ st _ Hmf Hst) as (vd & Evd & Hlen & Hcells).
  pose proof (vertices_before_nonneg (partition_shapes world).1
                (length (partition_shapes world).1)).
  pose proof Hst as (_ & _ & _ & Hnv & _).
  assert (Hcell : forall (k : nat) (shape : Shape) (j : nat) (p : float3),
            (partition_shapes world).1 !! k = Some shape ->
            GetVertexData (base_mesh shape) !! j = Some p ->
            buffer_vertex vd (vertices_before (partition_shapes world).1 k + Z.of_nat j)
              (uploaded_point (Z.of_nat k) shape (Z.of_nat j) p)).
  { intros k shape j p Hs Hp.
    pose proof (vertices_before_nonneg (partition_shapes world).1 k).
    apply load_Some. split; [lia|].
    replace (Z.to_nat (vertices_before (partition_shapes world).1 k + Z.of_nat j))
      with (Z.to_nat (vertices_before (partition_shapes world).1 k) + j)%nat by lia.
    rewrite (Hcells k shape j); [by rewrite Hp| |exact Hs|].
    + by apply lookup_lt_Some in Hs.
    + by apply lookup_lt_Some in Hp. }
  exists st, vd. split; [exact Est|].
  split; [by rewrite (process_vertices_eq world st Est)|].
  split; [rewrite Hlen, <- Hv; lia|]. split; [exact Hcell|]. split; [|split].
  - intros Hu k shape j p Hs Hp.
    rewrite <- (uploaded_point_undisturbed (Z.of_nat k) shape (Z.of_nat j) p Hu).
    by apply Hcell.
  - intros cell Hin. apply list_elem_of_lookup in Hin as [i Hi].
    pose proof (lookup_lt_Some _ _ _ Hi) as Hlt.
    destruct (scattered_cover (partition_shapes world).1
                (fun s => length (GetVertexData (base_mesh s)))
                (vertices_before (partition_shapes world).1)
                (fun k s j => uploaded_point (Z.of_nat k) s (Z.of_nat j)
                                <$> GetVertexData (base_mesh s) !! j)
                (vertices_before_nonneg _)
                (fun k s => vertices_before_size k s _)
                (Z.to_nat (numvertices st)) vd (Z.of_nat i))
      as (k & shape & Hs & Hr & Hl).
    { reflexivity. }
    { by split. }
    { lia. }
    rewrite load_of_nat, Hi in Hl. injection Hl as ->.
    destruct (lookup_lt_is_Some_2 (GetVertexData (base_mesh shape))
                (Z.to_nat (Z.of_nat i - vertices_before (partition_shapes world).1 k)))
      as [p ->]; [lia|].
    by eexists.
  - intros s s' Hn. rewrite (Process_rebuilds world s Hn).
    destruct (Calc.max_alloc_size (m_device s) <=? stack_memory_limit); [discriminate|].
    destruct (rebuild_eq world (after_release s)) as (st' & bvh & Est' & _ & _ & ->).
    rewrite Est in Est'. injection Est' as <-.
    destruct (kMaxStackSize <=? GetHeight bvh); [discriminate|].
    destruct (_ <? numvertices st * sizeof_float3); [discriminate|].
    rewrite Evd. destruct (process_facedata world) as [fd|]; [|discriminate].
    destruct (_ <? _ * sizeof_Node); [discriminate|].
    destruct (_ <? kMaxBatchSize * kMaxStackSize); [discriminate|].
    intros [= <-].
    destruct (after_release_fields s) as (_ & _ & _ & _ & _ & _ & Hlog).
    exists (Calc.next_handle (m_device (after_release s))).
    unfold ops_since, rebuilt.
    cbn [m_device Calc.log]. rewrite Hlog, <- !app_assoc, drop_app_length, <- Hv.
    split.
    + apply elem_of_app. right. apply elem_of_app. left. apply elem_of_cons. by left.
    + apply elem_of_app. right. apply elem_of_app. left.
      do 2 (apply elem_of_cons; right). apply elem_of_cons. by left.
Qed.

Lemma scattered_vertex shapes (total : nat) vertexdata (k : nat) shape (i : Z) :
  scattered shapes (fun s => length (GetVertexData (base_mesh s)))
    (vertices_before shapes)
    (fun k s j => uploaded_point (Z.of_nat k) s (Z.of_nat j)
                    <$> GetVertexData (base_mesh s) !! j)
    total (length shapes) vertexdata ->
  shapes !! k = Some shape ->
  0 <= i < num_vertices (base_mesh shape) ->
  exists p,
    load (GetVertexData (base_mesh shape)) i = Some p /\
    buffer_vertex vertexdata (i + vertices_before shapes k)
      (uploaded_point (Z.of_nat k) shape i p).
Proof.
  intros (_ & Hcells) Hs Hi. unfold num_vertices in Hi.
  destruct (lookup_lt_is_Some_2 (GetVertexData (base_mesh shape)) (Z.to_nat i)) as [p Hp];
    [lia|].
  pose proof (vertices_before_nonneg shapes k).
  exists p. split; [apply load_Some; split; [lia | exact Hp]|].
  apply load_Some. split; [lia|].
  replace (Z.to_nat (i + vertices_before shapes k))
    with (Z.to_nat (vertices_before shapes k) + Z.to_nat i)%nat by lia.
  rewrite (Hcells k shape (Z.to_nat i)); [|by apply lookup_lt_Some in Hs|exact Hs|lia].
  rewrite Hp. simpl. by rewrite Z2Nat.id by lia.
Qed.

(** X10.  The face table and the vertex buffer fit together.  When the
    indices of the hierarchy are indices of faces and the faces of every
    mesh name vertices of the mesh, each face of the table names a shape
    of the world and a face of its base mesh, and the three cells of the
    vertex buffer that the face points at hold the three vertices of that
    mesh face, each transformed with the matrix that the iteration of the
    shape read in the shared variable [m] for it.  When the loops run
    without interference, the three vertices are in world space,
    transformed with the transform of that shape. *)
Theorem faces_point_at_their_vertices (world : World) (st : Starts) (bvh : Bvh) :
  process_starts world = Some st ->
  process_bvh world = Some bvh ->
  (forall x, x ∈ GetIndices bvh -> 0 <= x < numfaces st) ->
  (forall shape, shape ∈ shapes_ world -> indices_in_range (base_mesh shape)) ->
  exists facedata vertexdata,
    process_facedata world = Some facedata /\
    process_vertices world = Some vertexdata /\
    forall face, face ∈ facedata ->
      exists (k : nat) (shape : Shape) (f : MeshFace) (p0 p1 p2 : float3),
        (partition_shapes world).1 !! k = Some shape /\
        shape ∈ shapes_ world /\ GetId shape = shapeidx face /\
        load (GetFaceData (base_mesh shape)) (id face) = Some f /\
        load (GetVertexData (base_mesh shape)) (idx0 f) = Some p0 /\
        load (GetVertexData (base_mesh shape)) (idx1 f) = Some p1 /\
        load (GetVertexData (base_mesh shape)) (idx2 f) = Some p2 /\
        buffer_vertex vertexdata (idx face).1.1
          (transform_point p0
             (read_shared_matrix (Z.of_nat k) (idx0 f) (world_transform shape))) /\
        buffer_vertex vertexdata (idx face).1.2
          (transform_point p1
             (read_shared_matrix (Z.of_nat k) (idx1 f) (world_transform shape))) /\
        buffer_vertex vertexdata (idx face).2
          (transform_point p2
             (read_shared_matrix (Z.of_nat k) (idx2 f) (world_transform shape))) /\
        (undisturbed ->
         buffer_vertex vertexdata (idx face).1.1
           (transform_point p0 (world_transform shape)) /\
         buffer_vertex vertexdata (idx face).1.2
           (transform_point p1 (world_transform shape)) /\
         buffer_vertex vertexdata (idx face).2
           (transform_point p2 (world_transform shape))).
Proof.
  intros Est Hb Hrange Hwf.
  destruct (process_values world) as (st' & bounds & Est' & Hst & _).
  rewrite Est in Est'. injection Est' as <-.
  destruct (partition_shapes_meshes_first world) as (Hperm & Hmf).
  destruct (facedata_defined world st bvh Est Hb Hrange) as (fd & Efd & Hlen & Hfaces).
  destruct (world_vertices_scattered _ st _ Hmf Hst) as (vd & Evd & Hsc).
  exists fd, vd. split; [exact Efd|].
  split; [by rewrite (process_vertices_eq world st Est)|].
  intros face Hin. apply list_elem_of_lookup in Hin as [i Hi].
  pose proof (lookup_lt_Some _ _ _ Hi) as Hlt.
  destruct (lookup_lt_is_Some_2 (GetIndices bvh) i) as [x Hx]; [lia|].
  destruct (Hfaces i x Hx) as (face' & Hi' & Hface).
  rewrite Hi in Hi'. injection Hi' as <-.
  destruct Hface as (k & shape & f & fstart & vstart & _ & Hs & _ & Hvs & Hload & ->).
  pose proof Hst as (_ & _ & _ & _ & Htab).
  destruct (Htab k) as [_ Hvk]; [by apply lookup_lt_Some in Hs|].
  rewrite Hvk in Hvs. injection Hvs as <-.
  assert (Hshape : shape ∈ shapes_ world).
  { rewrite <- Hperm. eapply list_elem_of_lookup_2. exact Hs. }
  assert (Hf : f ∈ GetFaceData (base_mesh shape)).
  { apply load_Some in Hload as [_ Hload]. eapply list_elem_of_lookup_2. exact Hload. }
  destruct (Hwf shape Hshape f Hf) as (R0 & R1 & R2).
  destruct (scattered_vertex _ _ vd k shape (idx0 f) Hsc Hs R0) as (p0 & L0 & B0).
  destruct (scattered_vertex _ _ vd k shape (idx1 f) Hsc Hs R1) as (p1 & L1 & B1).
  destruct (scattered_vertex _ _ vd k shape (idx2 f) Hsc Hs R2) as (p2 & L2 & B2).
  exists k, shape, f, p0, p1, p2. cbn [idx shapeidx id fst snd].
  do 7 (split; [done|]). do 3 (split; [assumption|]).
  intros Hu.
  rewrite (uploaded_point_undisturbed (Z.of_nat k) shape (idx0 f) p0 Hu) in B0.
  rewrite (uploaded_point_undisturbed (Z.of_nat k) shape (idx1 f) p1 Hu) in B1.
  rewrite (uploaded_point_undisturbed (Z.of_nat k) shape (idx2 f) p2 Hu) in B2.
  by repeat split.
Qed.

(** X19.  The pair ([shapeidx], [id]) of a face of the table tells the
    primitive: when the indices of the hierarchy are indices of faces and
    the ids of the shapes are distinct, two entries of the face table with
    the same [shapeidx] and the same [id] were emitted for the same
    primitive index. *)
Theorem face_identity_tells_primitive (world : World) (st : Starts) (bvh : Bvh) :
  process_starts world = Some st ->
  process_bvh world = Some bvh ->
  (forall x, x ∈ GetIndices bvh -> 0 <= x < numfaces st) ->
  NoDup (GetId <$> shapes_ world) ->
  exists facedata,
    process_facedata world = Some facedata /\
    forall (i j : nat) (x y : Z) (fi fj : Face),
      GetIndices bvh !! i = Some x -> GetIndices bvh !! j = Some y ->
      facedata !! i = Some fi -> facedata !! j = Some fj ->
      shapeidx fi = shapeidx fj -> id fi = id fj ->
      x = y.
Proof.
  intros Est Hb Hrange Hnd.
  destruct (partition_shapes_meshes_first world) as (Hperm & _).
  destruct (facedata_defined world st bvh Est Hb Hrange) as (fd & Efd & _ & Hfaces).
  exists fd. split; [exact Efd|].
  intros i j x y fi fj Hx Hy Hi Hj Hshape Hid.
  destruct (Hfaces i x Hx) as (fi' & Hi' & Hfi). rewrite Hi in Hi'. injection Hi' as <-.
  destruct (Hfaces j y Hy) as (fj' & Hj' & Hfj). rewrite Hj in Hj'. injection Hj' as <-.
  destruct Hfi as (k & shape & f & fstart & vstart & _ & Hs & Hfs & _ & _ & ->).
  destruct Hfj as (k' & shape' & f' & fstart' & vstart' & _ & Hs' & Hfs' & _ & _ & ->).
  cbn [shapeidx id] in Hshape, Hid.
  assert (Hnd' : NoDup (GetId <$> (partition_shapes world).1)) by by rewrite Hperm.
  assert (Hk : k = k').
  { apply (NoDup_lookup _ k k' (GetId shape) Hnd').
    - by rewrite list_lookup_fmap, Hs.
    - by rewrite list_lookup_fmap, Hs', Hshape. }
  subst k'. rewrite Hfs in Hfs'. injection Hfs' as <-. lia.
Qed.

End ContentCoverage.

(** X10 on the small world. *)
Lemma faces_point_at_their_vertices_witness :
  exists facedata vertexdata,
    process_facedata small_world = Some facedata /\
    process_vertices small_world = Some vertexdata /\
    forall face, face ∈ facedata ->
      exists (shape : Shape) (f : MeshFace) (p0 : float3),
        shape ∈ shapes_ small_world /\ GetId shape = shapeidx face /\
        load (GetFaceData (base_mesh shape)) (id face) = Some f /\
        load (GetVertexData (base_mesh shape)) (idx0 f) = Some p0 /\
        buffer_vertex vertexdata (idx face).1.1
          (transform_point p0 (world_transform shape)).
Proof.
  edestruct (faces_point_at_their_vertices small_world) as (fd & vd & Efd & Evd & Hfaces).
  - vm_compute. reflexivity.
  - vm_compute. reflexivity.
  - intros x Hx. simpl in Hx.
    rewrite !elem_of_cons, elem_of_nil in Hx.
    destruct Hx as [->|[->|[->|[->|[]]]]]; simpl; lia.
  - intros shape Hs f Hf. simpl in Hs.
    rewrite !elem_of_cons, elem_of_nil in Hs.
    destruct Hs as [->|[->|[->|[]]]]; simpl in Hf;
      rewrite ?elem_of_cons, elem_of_nil in Hf;
      repeat (destruct Hf as [->|Hf]); try contradiction; vm_compute; repeat split;
      discriminate.
  - exists fd, vd. split; [exact Efd|]. split; [exact Evd|].
    intros face Hin.
    destruct (Hfaces face Hin)
      as (k & shape & f & p0 & _ & _ & _ & Hs & Hid & Hf & L0 & _ & _ & B0 & _).
    exists shape, f, p0. by repeat split.
Defined.

(** * Part VI.  Further properties of the renderer *)

Section EmitsFacts.
Context `{Numerics} `{Host}.
Context (outs : gmap nat Output) (P : Event float3 -> Prop).

Lemma emits_ret {A} (a : A) : emits_only outs P (ret a).
Proof.
  intros s b s' Ho E. cbv [ret] in E. simplify_eq.
  split; [done|]. split; [done|]. exists []. by rewrite app_nil_r.
Qed.

Lemma emits_gets {A} (f : PtRenderer -> A) : emits_only outs P (gets f).
Proof.
  intros s b s' Ho E. cbv [gets] in E. simplify_eq.
  split; [done|]. split; [done|]. exists []. by rewrite app_nil_r.
Qed.

Lemma emits_get : emits_only outs P (get (St := PtRenderer) (E := Exception)).
Proof.
  intros s b s' Ho E. cbv [get] in E. simplify_eq.
  split; [done|]. split; [done|]. exists []. by rewrite app_nil_r.
Qed.

Lemma emits_deref {A} (p : option A) : emits_only outs P (deref p).
Proof.
  destruct p as [a|]; [apply emits_ret|]. intros s b s' _ E. discriminate E.
Qed.

Lemma emits_rand : emits_only outs P rand_uint.
Proof.
  intros s b s' Ho E. cbv [rand_uint] in E. simplify_eq. cbn.
  split; [done|]. split; [done|]. exists []. by rewrite app_nil_r.
Qed.

Lemma emits_set_framecnt n : emits_only outs P (set_framecnt n).
Proof.
  intros s b s' Ho E. cbv [set_framecnt modify] in E. simplify_eq. cbn.
  split; [done|]. split; [done|]. exists []. by rewrite app_nil_r.
Qed.

Lemma emits_SetNumBounces n : emits_only outs P (SetNumBounces n).
Proof.
  intros s b s' Ho E. cbv [SetNumBounces modify] in E. simplify_eq. cbn.
  split; [done|]. split; [done|]. exists []. by rewrite app_nil_r.
Qed.

Lemma emits_emit e : P e -> emits_only outs P (emit e).
Proof.
  intros He s b s' Ho E. cbv [emit modify] in E. simplify_eq. cbn.
  split; [done|]. split; [done|]. exists [e]. split; [done|]. by apply Forall_singleton.
Qed.

Lemma emits_bind {A B} (m : Rend A) (k : A -> Rend B) :
  emits_only outs P m -> (forall a, emits_only outs P (k a)) ->
  emits_only outs P (bind m k).
Proof.
  intros Hm Hk s b s' Ho E. unfold bind in E.
  destruct (m s) as [a s1| |] eqn:Em; try discriminate E.
  destruct (Hm s a s1 Ho Em) as (Ho1 & Hr1 & evs1 & He1 & F1).
  destruct (Hk a s1 b s' Ho1 E) as (Ho2 & Hr2 & evs2 & He2 & F2).
  split; [done|]. split; [congruence|].
  exists (evs1 ++ evs2). split; [by rewrite He2, He1, app_assoc|].
  by apply Forall_app.
Qed.

(** What was read from the bindings is known. *)
Lemma emits_bind_GetOutput {B} (type : OutputType) (k : option Output -> Rend B) :
  emits_only outs P (k (outs !! type)) -> emits_only outs P (bind (GetOutput type) k).
Proof.
  intros Hk s b s' Ho E. cbv [bind GetOutput gets] in E. rewrite Ho in E.
  exact (Hk s b s' Ho E).
Qed.

Lemma emits_bind_outputs {B} (k : gmap nat Output -> Rend B) :
  emits_only outs P (k outs) -> emits_only outs P (bind (gets m_outputs) k).
Proof.
  intros Hk s b s' Ho E. cbv [bind gets] in E. rewrite Ho in E.
  exact (Hk s b s' Ho E).
Qed.

Lemma emits_bind_color {B} (k : Output -> Rend B) :
  (forall out, outs !! kColor = Some out -> emits_only outs P (k out)) ->
  emits_only outs P (bind color_output k).
Proof.
  intros Hk s b s' Ho E. cbv [bind color_output GetOutput gets deref] in E.
  rewrite Ho in E. destruct (outs !! kColor) as [out|] eqn:Hc; [|discriminate E].
  exact (Hk out eq_refl s b s' Ho E).
Qed.

Lemma emits_bind_deref_Some {A B} (a : A) (k : A -> Rend B) :
  emits_only outs P (k a) -> emits_only outs P (bind (deref (Some a)) k).
Proof. intros Hk s b s' Ho E. exact (Hk s b s' Ho E). Qed.

Lemma emits_for_loop (body : Z -> Rend unit) :
  (forall i, emits_only outs P (body i)) ->
  forall n lo, emits_only outs P (for_loop n lo body).
Proof.
  intros Hb. induction n as [|n IH]; intros lo; cbn [for_loop].
  - apply emits_ret.
  - apply emits_bind; [apply Hb|]. intros _. apply IH.
Qed.

End EmitsFacts.

(** The steps that do not depend on what the events are. *)
Ltac emits_step :=
  lazymatch goal with
  | |- emits_only _ _ (bind (GetOutput _) _) => apply emits_bind_GetOutput
  | |- emits_only _ _ (bind (gets m_outputs) _) => apply emits_bind_outputs
  | |- emits_only _ _ (bind color_output _) => apply emits_bind_color; intros ? ?
  | |- emits_only _ _ (bind (deref (Some _)) _) => apply emits_bind_deref_Some
  | |- emits_only _ _ (bind _ _) => apply emits_bind; [|intros ?]
  | |- emits_only _ _ (ret _) => apply emits_ret
  | |- emits_only _ _ (gets _) => apply emits_gets
  | |- emits_only _ _ get => apply emits_get
  | |- emits_only _ _ (deref _) => apply emits_deref
  | |- emits_only _ _ rand_uint => apply emits_rand
  | |- emits_only _ _ (set_framecnt _) => apply emits_set_framecnt
  | |- emits_only _ _ (SetNumBounces _) => apply emits_SetNumBounces
  | |- emits_only _ _ (for_loop _ _ _) => apply emits_for_loop; intros ?
  | |- emits_only _ _ (emit _) => apply emits_emit
  | |- emits_only _ _ (if ?c then _ else _) => destruct c
  | |- emits_only _ _ (match ?x with Some _ => _ | None => _ end) => destruct x eqn:?
  end.

Ltac unfold_kernels :=
  unfold bounce, FillAOVs, GeneratePrimaryRays, EvaluateVolume, ShadeMiss,
    FilterPathStream, RestorePixelIndices, ShadeVolume, ShadeSurface, ShadeBackground,
    GatherLightSamples.

Section RendererCoverageFacts.
Context `{Numerics} `{Host}.

Lemma first_bound_output_None outputs n i :
  (forall j, (i <= j < i + n)%nat -> outputs !! j = None) ->
  first_bound_output outputs n i = None.
Proof.
  revert i. induction n as [|n IH]; intros i Hn; [reflexivity|].
  cbn [first_bound_output]. rewrite (Hn i) by lia. apply IH. intros j Hj. apply Hn. lia.
Qed.

(** X11.  The methods that need an output dereference it without a check.
    [SetOutput] with a null output is undefined from every state, so an
    output cannot be unbound through it.  [RunBenchmark] and the kernels of
    the bounce loop are undefined when no colour output is bound, and
    [FillAOVs] is when no output is bound at all; in that state [Render]
    finds no auxiliary pass needed and does not call it. *)
Theorem absent_output_is_dereferenced :
  (forall type s, SetOutput type None s = Undef) /\
  (forall scene num_passes s,
     m_outputs s !! kColor = None -> RunBenchmark scene num_passes s = Undef) /\
  (forall scene pass s,
     m_outputs s !! kColor = None ->
     EvaluateVolume scene pass s = Undef /\ ShadeMiss scene pass s = Undef /\
     FilterPathStream pass s = Undef /\ RestorePixelIndices pass s = Undef /\
     ShadeVolume scene pass s = Undef /\ ShadeSurface scene pass s = Undef /\
     ShadeBackground scene pass s = Undef /\ GatherLightSamples scene pass s = Undef) /\
  (forall scene s,
     (forall type, (type < kMax)%nat -> m_outputs s !! type = None) ->
     m_outputs s !! kColor = None ->
     FillAOVs scene s = Undef /\ aov_pass_needed (m_outputs s) = false).
Proof.
  assert (Hcolor : forall s, m_outputs s !! kColor = None ->
            forall (B : Type) (k : Output -> Rend B), bind color_output k s = Undef).
  { intros s Hc B k. cbv [bind color_output GetOutput gets deref]. by rewrite Hc. }
  split; [|split; [|split]].
  - intros type s. cbv [SetOutput bind GetOutput gets deref undefined]. reflexivity.
  - intros scene num_passes s Hc. unfold RunBenchmark. by apply Hcolor.
  - intros scene pass s Hc.
    unfold EvaluateVolume, ShadeMiss, FilterPathStream, RestorePixelIndices, ShadeVolume,
      ShadeSurface, ShadeBackground, GatherLightSamples.
    repeat split; by apply Hcolor.
  - intros scene s Hnone Hc.
    assert (Hf : first_bound_output (m_outputs s) (kMax - 1) 1 = None).
    { apply first_bound_output_None. intros j Hj. apply Hnone. lia. }
    split.
    + cbv [FillAOVs bind GetOutput gets]. rewrite Hc, Hf. reflexivity.
    + unfold aov_pass_needed. rewrite Hf. apply bool_decide_eq_false_2. by intros [? ?].
Qed.

Lemma emits_events_since outs (P : Event float3 -> Prop) {A} (m : Rend A) s a s' :
  emits_only outs P m -> m_outputs s = outs -> m s = Ret a s' ->
  m_outputs s' = m_outputs s /\ m_render_data s' = m_render_data s /\
  Forall P (events_since s s').
Proof.
  intros Hm Ho E. destruct (Hm s a s' Ho E) as (Ho' & Hr & evs & He & F).
  split; [congruence|]. split; [exact Hr|].
  unfold events_since. by rewrite He, drop_app_length.
Qed.

Lemma call_allocates_nothing outs c :
  is_set_output c = false ->
  emits_only outs (fun e => allocates e = false) (call c).
Proof.
  destruct c; cbn [is_set_output call]; intros Hc; try discriminate Hc.
  - apply emits_ret.
  - apply emits_ret.
  - unfold Clear. repeat emits_step. reflexivity.
  - apply emits_SetNumBounces.
  - unfold Render. unfold_kernels. repeat emits_step; reflexivity.
  - unfold RunBenchmark. unfold_kernels. repeat emits_step; reflexivity.
  - apply emits_ret.
  - apply emits_ret.
Qed.

(** X12.  Only [SetOutput] touches the bindings and the working set.  A
    call of any other public method ([Render], [RunBenchmark], [Clear],
    [SetNumBounces], [CreateOutput], [DeleteOutput] and the two kernel
    getters) that returns leaves the bound outputs and the buffers of the
    working set as they are, and creates or deletes no buffer of the
    working set or of the intersection API. *)
Theorem only_SetOutput_allocates (c : Call) (s s' : PtRenderer) :
  is_set_output c = false ->
  call c s = Ret tt s' ->
  m_outputs s' = m_outputs s /\ m_render_data s' = m_render_data s /\
  Forall (fun e => allocates e = false) (events_since s s').
Proof.
  intros Hc E.
  exact (emits_events_since (m_outputs s) _ (call c) s tt s'
           (call_allocates_nothing _ c Hc) eq_refl E).
Qed.

Lemma SetOutput_cases type output s s' :
  SetOutput type (Some output) s = Ret tt s' ->
  m_outputs s' = <[type := output]> (m_outputs s) /\
  (must_resize s type output /\ working_set_of (pixels output) (m_render_data s') \/
   ~ must_resize s type output /\ m_render_data s' = m_render_data s).
Proof.
  rewrite SetOutput_eq.
  destruct (ResizeWorkingSet_eq output s) as (s1 & evs & E1 & Ho1 & Hws & _).
  assert (Hyes : must_resize s type output ->
            bind (ResizeWorkingSet output)
              (fun _ => Renderer_SetOutput type (Some output)) s = Ret tt s' ->
            m_outputs s' = <[type := output]> (m_outputs s) /\
            (must_resize s type output /\
             working_set_of (pixels output) (m_render_data s') \/
             ~ must_resize s type output /\ m_render_data s' = m_render_data s)).
  { intros Hm. unfold bind. rewrite E1. cbv [Renderer_SetOutput modify].
    intros [= <-]. cbn [m_outputs m_render_data]. rewrite Ho1. split; [done|]. by left. }
  pose proof (must_resize_dec s type output) as Hdec.
  destruct (m_outputs s !! type) as [cur|].
  - destruct ((width cur <? width output) || (height cur <? height output)).
    + apply Hyes. tauto.
    + cbv [bind ret Renderer_SetOutput modify]. intros [= <-].
      cbn [m_outputs m_render_data]. split; [done|]. right. split; [|done].
      rewrite Hdec. discriminate.
  - apply Hyes. tauto.
Qed.

Lemma calls_covered cs :
  Forall binds_color_only cs ->
  forall s s', covered s -> calls cs s = Ret tt s' -> covered s'.
Proof.
  induction 1 as [|c cs Hc _ IH]; intros s s' Hs E.
  - cbv [calls ret] in E. by simplify_eq.
  - cbn [calls] in E. unfold bind in E.
    destruct (call c s) as [[] s1| |] eqn:Ec; try discriminate E.
    apply (IH s1 s'); [|exact E]. clear E IH.
    destruct (is_set_output c) eqn:Hset.
    + destruct c as [| | | | |type [o|]| | |]; try discriminate Hset.
      2:{ discriminate Ec. }
      cbn [call] in Ec. destruct Hc as (-> & Hw & Hh & Hfit).
      apply SetOutput_cases in Ec as (Ho & Hcases).
      intros out Hout. rewrite Ho, lookup_insert_eq in Hout. injection Hout as <-.
      destruct Hcases as [(_ & Hws)|(Hno & Hrd)].
      * exists (pixels o). split; [exact Hws|].
        unfold pixels, wrap32. rewrite Z.mod_small; lia.
      * rewrite Hrd. unfold must_resize in Hno.
        destruct (m_outputs s !! kColor) as [cur|] eqn:Hcur; [|tauto].
        destruct (Hs cur Hcur) as (n & Hn & Hle).
        exists n. split; [exact Hn|]. nia.
    + destruct (emits_events_since (m_outputs s) _ (call c) s tt s1
                  (call_allocates_nothing _ c Hset) eq_refl Ec) as (Ho & Hrd & _).
      intros out Hout. rewrite Ho in Hout. rewrite Hrd. by apply Hs.
Qed.

(** X13.  As long as no output but colour outputs is bound, the working
    set covers the bound colour output: after every sequence of calls on a
    newly constructed renderer in which [SetOutput] is called for
    [kColor] only (with dimensions whose product fits 32 bits), every
    per-pixel buffer of the working set has one size, which is at least
    the number of pixels of the colour output that is bound. *)
Theorem working_set_covers_color_output
    (num_bounces : Z) (cs : list Call) (s' : PtRenderer) :
  Forall binds_color_only cs ->
  calls cs (new_PtRenderer num_bounces) = Ret tt s' ->
  covered s'.
Proof.
  intros Hcs. apply (calls_covered cs Hcs).
  intros out Hout. cbn [new_PtRenderer m_outputs] in Hout.
  by rewrite lookup_empty in Hout.
Qed.

Lemma round_up_multiple (m n : Z) :
  0 < m -> 0 <= n -> smallest_multiple_at_least m n ((n + (m - 1)) / m * m).
Proof.
  intros Hm Hn. split; [|split].
  - exists ((n + (m - 1)) / m). lia.
  - pose proof (Z.div_mod (n + (m - 1)) m ltac:(lia)).
    pose proof (Z.mod_pos_bound (n + (m - 1)) m ltac:(lia)). nia.
  - intros g' [k ->] Hg.
    assert ((n + (m - 1)) / m < k + 1); [|nia].
    apply Z.div_lt_upper_bound; nia.
Qed.

Lemma launch_size_covers out :
  0 <= width out * height out <= 2 ^ 31 - 64 ->
  smallest_multiple_at_least 64 (width out * height out) (launch_size out).
Proof.
  intros Hp. unfold launch_size, to_int32, pixels, wrap32.
  rewrite Z.mod_mod by lia. rewrite Z.mod_small by lia.
  destruct (Z.ltb_spec (width out * height out) (2 ^ 31)); [|lia].
  rewrite Z.quot_div_nonneg by lia.
  exact (round_up_multiple 64 (width out * height out) ltac:(lia) ltac:(lia)).
Qed.

Lemma launch_2d_covers (w : Z) :
  0 <= w <= 2 ^ 32 - 8 ->
  smallest_multiple_at_least 8 w (wrap32 (wrap32 (w + 7) / 8 * 8)).
Proof.
  intros Hw. unfold wrap32. rewrite (Z.mod_small (w + 7)) by lia.
  pose proof (Z.mul_div_le (w + 7) 8 ltac:(lia)).
  pose proof (Z.div_pos (w + 7) 8 ltac:(lia) ltac:(lia)).
  rewrite Z.mod_small by lia.
  exact (round_up_multiple 8 w ltac:(lia) ltac:(lia)).
Qed.

Lemma Render_covers scene outs out :
  outs !! kColor = Some out ->
  0 <= width out <= 2 ^ 32 - 8 -> 0 <= height out <= 2 ^ 32 - 8 ->
  width out * height out <= 2 ^ 31 - 64 ->
  emits_only outs (covers out) (Render scene).
Proof.
  intros Hc Hw Hh Hp.
  pose proof (launch_size_covers out ltac:(nia)) as H1.
  pose proof (launch_2d_covers (width out) Hw) as H2.
  pose proof (launch_2d_covers (height out) Hh) as H3.
  unfold Render. unfold_kernels.
  repeat first [rewrite Hc; cbv beta iota | emits_step];
    simplify_eq; cbn [covers fst snd]; auto.
Qed.

(** X14.  Every kernel launch of a frame covers the image.  With a colour
    output of [w] by [h] pixels bound ([w * h] at most [2^31 - 64]),
    [Render] returns, every one-dimensional launch it makes has groups of
    64 items and a global size that is the smallest multiple of 64 not
    below [w * h], and the launch that generates the primary rays has
    groups of 8 by 8 and the smallest multiples of 8 not below [w] and
    [h]. *)
Theorem launches_cover_the_image (scene : Scene1) (s : PtRenderer) (out : Output) :
  m_outputs s !! kColor = Some out ->
  0 <= width out <= 2 ^ 32 - 8 -> 0 <= height out <= 2 ^ 32 - 8 ->
  width out * height out <= 2 ^ 31 - 64 ->
  exists s', Render scene s = Ret tt s' /\ Forall (covers out) (events_since s s').
Proof.
  intros Hc Hw Hh Hp.
  destruct (Render_runs scene s) as (s' & evs & E & _).
  exists s'. split; [exact E|].
  exact (proj2 (proj2 (emits_events_since (m_outputs s) _ (Render scene) s tt s'
                         (Render_covers scene _ out Hc Hw Hh Hp) eq_refl E))).
Qed.

Lemma land_1_cases (p : Z) : Z.land p 1 = 0 \/ Z.land p 1 = 1.
Proof.
  assert (E : Z.land p 1 = p mod 2 ^ 1) by exact (Z.land_ones p 1 ltac:(lia)).
  pose proof (Z.mod_pos_bound p (2 ^ 1) ltac:(lia)). lia.
Qed.

Lemma aov_args_exist outputs (types : list nat) :
  Forall arg_exists (flat_map (aov_args outputs) types).
Proof.
  induction types as [|i types IH]; cbn [flat_map]; [apply Forall_nil_2|].
  apply Forall_app. split; [|exact IH].
  unfold aov_args. destruct (outputs !! i); repeat apply Forall_cons_2; try exact I;
    apply Forall_nil_2.
Qed.

Ltac names_solve :=
  cbn [names_buffers buffer_exists];
  repeat lazymatch goal with
  | |- Forall _ [] => apply Forall_nil_2
  | |- Forall _ (_ :: _) => apply Forall_cons_2
  | |- Forall _ (_ ++ flat_map _ _) => apply Forall_app; split; [|apply aov_args_exist]
  | |- _ /\ _ => split
  end;
  cbn [arg_exists buffer_exists]; auto using land_1_cases.

Lemma Render_names_buffers scene outs : emits_only outs names_buffers (Render scene).
Proof.
  unfold Render. unfold_kernels. repeat emits_step; names_solve.
Qed.

Lemma RunBenchmark_names_buffers scene n outs :
  emits_only outs names_buffers (RunBenchmark scene n).
Proof.
  unfold RunBenchmark. unfold_kernels. repeat emits_step; names_solve.
Qed.

(** X15.  [rays] and [pixelindices] are arrays of two buffers, indexed
    with [pass & 0x1] and [(pass + 1) & 0x1].  Every buffer that [Render]
    or [RunBenchmark] hands to a kernel, to the intersection API, to the
    compaction or to a copy or fill is one of the buffers of [RenderData]:
    no index of [rays] or [pixelindices] is ever other than 0 or 1. *)
Theorem every_named_buffer_exists :
  (forall scene s,
     exists s', Render scene s = Ret tt s' /\ Forall names_buffers (events_since s s')) /\
  (forall scene num_passes s stats s',
     RunBenchmark scene num_passes s = Ret stats s' ->
     Forall names_buffers (events_since s s')).
Proof.
  split.
  - intros scene s. destruct (Render_runs scene s) as (s' & evs & E & _).
    exists s'. split; [exact E|].
    exact (proj2 (proj2 (emits_events_since (m_outputs s) _ (Render scene) s tt s'
                           (Render_names_buffers scene _) eq_refl E))).
  - intros scene n s stats s' E.
    exact (proj2 (proj2 (emits_events_since (m_outputs s) _ (RunBenchmark scene n) s
                           stats s' (RunBenchmark_names_buffers scene n _) eq_refl E))).
Qed.

End RendererCoverageFacts.

(** X12 on a frame of the renderer with a colour output of 4 by 4. *)
Lemma only_SetOutput_allocates_witness :
  m_render_data (state_after (Render sample_scene color_renderer) color_renderer)
  = m_render_data color_renderer.
Proof.
  pose (s' := state_after (Render sample_scene color_renderer) color_renderer).
  destruct (@only_SetOutput_allocates fixed_point sample_host
              (@CallRender fixed_point sample_host sample_scene) color_renderer s')
    as (_ & Hrd & _).
  - reflexivity.
  - apply returned. vm_compute. reflexivity.
  - exact Hrd.
Defined.

(** X13 on the colour outputs of 512 by 512, 128 by 128 and 256 by 256
    bound in this order: the working set of 65536 elements covers the
    output of 256 by 256. *)
Lemma working_set_covers_color_output_witness :
  covered (state_after (calls (resize_up_then_down ++ [resize_again]) fresh_renderer)
             fresh_renderer).
Proof.
  apply (@working_set_covers_color_output fixed_point sample_host 2
           (resize_up_then_down ++ [resize_again])).
  - repeat apply Forall_cons_2; try apply Forall_nil_2; cbn; repeat split; lia.
  - apply (returned (calls (resize_up_then_down ++ [resize_again]) fresh_renderer)
             fresh_renderer).
    vm_compute. reflexivity.
Defined.

(** X14 on the renderer with a colour output of 4 by 4. *)
Lemma launches_cover_the_image_witness :
  exists s',
    Render envmap_scene color_renderer = Ret tt s' /\
    Forall (covers (output_of 1 4 4)) (events_since color_renderer s').
Proof.
  apply (@launches_cover_the_image fixed_point sample_host envmap_scene color_renderer
           (output_of 1 4 4)).
  - vm_compute. reflexivity.
  - cbn. lia.
  - cbn. lia.
  - cbn. lia.
Defined.

(** ** [RunBenchmark] and [FillAOVs] *)

Ltac one_event := eapply runs_weaken; [apply runs_emit | simpl; reflexivity | reflexivity].

Section BenchmarkFacts.
Context `{Numerics} `{Host}.

Lemma returns_with_ret {A} (a : A) s : returns_with (ret a) s [] a.
Proof. exists s, []. repeat split; trivial. by rewrite app_nil_r. Qed.

Lemma returns_with_bind {A} (m : Rend unit) (k : Rend A) s d1 d2 (a : A) :
  runs m s d1 0 ->
  (forall s', kept s s' -> m_framecnt s' = m_framecnt s -> returns_with k s' d2 a) ->
  returns_with (bind m (fun _ => k)) s (d1 ++ d2) a.
Proof.
  intros (s1 & evs1 & E1 & Ho1 & Hr1 & Hn1 & Hf1 & He1 & Hd1) Hk.
  destruct (Hk s1) as (s2 & evs2 & E2 & (Ho2 & Hr2 & Hn2) & Hf2 & He2 & Hd2).
  { by repeat split. }
  { lia. }
  exists s2, (evs1 ++ evs2). unfold bind. rewrite E1.
  split; [exact E2|]. split; [repeat split; congruence|]. split; [lia|].
  split; [by rewrite He2, He1, app_assoc|].
  by rewrite dispatches_app, Hd1, Hd2.
Qed.

Lemma returns_with_gets {A B} (f : PtRenderer -> B) (k : B -> Rend A) s ds (a : A) :
  returns_with (k (f s)) s ds a -> returns_with (bind (gets f) k) s ds a.
Proof. intros Hk. exact Hk. Qed.

Lemma returns_with_color {A} (k : Output -> Rend A) s out ds (a : A) :
  m_outputs s !! kColor = Some out ->
  returns_with (k out) s ds a -> returns_with (bind color_output k) s ds a.
Proof.
  intros Hc (s' & evs & E & Hrest). exists s', evs. split; [|exact Hrest].
  cbv [bind color_output GetOutput gets deref ret]. rewrite Hc. exact E.
Qed.

Lemma query_loop_runs (e : Event float3) (d : Dispatch) (n : nat) (lo : Z) s :
  dispatch_of e = Some d ->
  runs (for_loop n lo (fun _ => emit e)) s (replicate n d) 0.
Proof.
  intros Hd.
  eapply runs_weaken.
  - apply (for_loop_runs (fun _ => emit e) (fun _ => [d])). intros i s' _.
    eapply runs_weaken; [apply runs_emit| |reflexivity].
    unfold dispatches. cbn [omap list_omap]. by rewrite Hd.
  - assert (Hl : length (seqZ lo (Z.of_nat n)) = n) by (rewrite length_seqZ; lia).
    revert Hl. generalize (seqZ lo (Z.of_nat n)).
    intros l <-. induction l as [|x l IH]; [reflexivity|].
    cbn [flat_map length replicate app]. by rewrite IH.
  - reflexivity.
Qed.

(** X16.  With a colour output bound, [RunBenchmark] returns the number of
    passes and the resolution of the colour output.  It generates the
    primary rays once and issues [num_passes] intersection queries for
    them, [num_passes] occlusion queries, [num_passes] intersection queries
    for the secondary rays and one more occlusion query; around them it
    dispatches FilterPathStream, the compaction, RestorePixelIndices,
    ShadeSurface and ShadeMiss twice each (ShadeMiss whether or not the
    scene has an environment map) and GatherLightSamples twice, and no
    volume or background kernel.  The frame counter, the bound outputs and
    the working set are as before. *)
Theorem RunBenchmark_dispatches
    (scene : Scene1) (num_passes : Z) (s : PtRenderer) (out : Output) :
  m_outputs s !! kColor = Some out ->
  exists s',
    RunBenchmark scene num_passes s = Ret (num_passes, (width out, height out)) s' /\
    dispatches (events_since s s')
    = benchmark_dispatches (CompileScene scene) (Z.to_nat num_passes) /\
    m_framecnt s' = m_framecnt s /\
    m_outputs s' = m_outputs s /\ m_render_data s' = m_render_data s.
Proof.
  intros Hc.
  assert (Hruns : returns_with (RunBenchmark scene num_passes) s
                    (benchmark_dispatches (CompileScene scene) (Z.to_nat num_passes))
                    (num_passes, (width out, height out))).
  { unfold RunBenchmark, benchmark_dispatches.
    apply (returns_with_color _ _ out); [exact Hc|].
    pose proof Hc as C.
    apply (returns_with_bind _ _ _ [] _); [one_event|].
    intros s1 [Ho1 _] _. rewrite <- Ho1 in C. clear Ho1.
    apply (returns_with_bind _ _ _ [_] _); [apply GeneratePrimaryRays_runs|].
    intros s2 [Ho2 _] _. rewrite <- Ho2 in C. clear Ho2.
    apply returns_with_gets.
    apply (returns_with_bind _ _ _ [] _); [one_event|].
    intros s3 [Ho3 _] _. rewrite <- Ho3 in C. clear Ho3.
    apply (returns_with_bind _ _ _ [] _); [one_event|].
    intros s4 [Ho4 _] _. rewrite <- Ho4 in C. clear Ho4.
    apply (returns_with_bind _ _ _ [] _); [one_event|].
    intros s5 [Ho5 _] _. rewrite <- Ho5 in C. clear Ho5.
    apply returns_with_gets.
    apply (returns_with_bind _ _ _ [] _); [one_event|].
    intros s6 [Ho6 _] _. rewrite <- Ho6 in C. clear Ho6.
    apply returns_with_bind; [by apply query_loop_runs|].
    intros s7 [Ho7 _] _. rewrite <- Ho7 in C. clear Ho7.
    apply (returns_with_bind _ _ _ [] _); [one_event|].
    intros s8 [Ho8 _] _. rewrite <- Ho8 in C. clear Ho8.
    apply (returns_with_bind _ _ _ [_] _); [by apply (FilterPathStream_runs _ _ out)|].
    intros s9 [Ho9 _] _. rewrite <- Ho9 in C. clear Ho9.
    apply (returns_with_bind _ _ _ [_] _); [one_event|].
    intros s10 [Ho10 _] _. rewrite <- Ho10 in C. clear Ho10.
    apply (returns_with_bind _ _ _ [_] _); [by apply (RestorePixelIndices_runs _ _ out)|].
    intros s11 [Ho11 _] _. rewrite <- Ho11 in C. clear Ho11.
    apply (returns_with_bind _ _ _ [_] _); [by apply (ShadeSurface_runs _ _ _ out)|].
    intros s12 [Ho12 _] _. rewrite <- Ho12 in C. clear Ho12.
    apply (returns_with_bind _ _ _ [_] _); [by apply (ShadeMiss_runs _ _ _ out)|].
    intros s13 [Ho13 _] _. rewrite <- Ho13 in C. clear Ho13.
    apply returns_with_bind; [by apply query_loop_runs|].
    intros s14 [Ho14 _] _. rewrite <- Ho14 in C. clear Ho14.
    apply (returns_with_bind _ _ _ [] _); [one_event|].
    intros s15 [Ho15 _] _. rewrite <- Ho15 in C. clear Ho15.
    apply (returns_with_bind _ _ _ [_] _); [by apply (GatherLightSamples_runs _ _ _ out)|].
    intros s16 [Ho16 _] _. rewrite <- Ho16 in C. clear Ho16.
    apply (returns_with_bind _ _ _ [] _); [one_event|].
    intros s17 [Ho17 _] _. rewrite <- Ho17 in C. clear Ho17.
    apply (returns_with_bind _ _ _ [] _); [one_event|].
    intros s18 [Ho18 _] _. rewrite <- Ho18 in C. clear Ho18.
    apply returns_with_bind; [by apply query_loop_runs|].
    intros s19 [Ho19 _] _. rewrite <- Ho19 in C. clear Ho19.
    apply (returns_with_bind _ _ _ [] _); [one_event|].
    intros s20 [Ho20 _] _. rewrite <- Ho20 in C. clear Ho20.
    apply (returns_with_bind _ _ _ [_] _); [by apply (FilterPathStream_runs _ _ out)|].
    intros s21 [Ho21 _] _. rewrite <- Ho21 in C. clear Ho21.
    apply (returns_with_bind _ _ _ [_] _); [one_event|].
    intros s22 [Ho22 _] _. rewrite <- Ho22 in C. clear Ho22.
    apply (returns_with_bind _ _ _ [_] _); [by apply (RestorePixelIndices_runs _ _ out)|].
    intros s23 [Ho23 _] _. rewrite <- Ho23 in C. clear Ho23.
    apply (returns_with_bind _ _ _ [_] _); [by apply (ShadeSurface_runs _ _ _ out)|].
    intros s24 [Ho24 _] _. rewrite <- Ho24 in C. clear Ho24.
    apply (returns_with_bind _ _ _ [_] _); [by apply (ShadeMiss_runs _ _ _ out)|].
    intros s25 [Ho25 _] _. rewrite <- Ho25 in C. clear Ho25.
    apply (returns_with_bind _ _ _ [_] _); [one_event|].
    intros s26 [Ho26 _] _. rewrite <- Ho26 in C. clear Ho26.
    apply (returns_with_bind _ _ _ [_] _); [by apply (GatherLightSamples_runs _ _ _ out)|].
    intros s27 [Ho27 _] _. rewrite <- Ho27 in C. clear Ho27.
    apply (returns_with_bind _ _ _ [] []); [one_event|].
    intros s28 [Ho28 _] _. rewrite <- Ho28 in C. clear Ho28.
    apply returns_with_ret. }
  destruct Hruns as (s' & evs & E & (Ho & Hr & _) & Hf & He & Hd).
  exists s'. split; [exact E|]. split; [|by repeat split].
  unfold events_since. by rewrite He, drop_app_length.
Qed.

Lemma first_bound_output_Some outputs n i o :
  first_bound_output outputs n i = Some o ->
  exists j : nat,
    (i <= j < i + n)%nat /\ outputs !! j = Some o /\
    forall k : nat, (i <= k < j)%nat -> outputs !! k = None.
Proof.
  revert i. induction n as [|n IH]; intros i; cbn [first_bound_output]; [discriminate|].
  destruct (outputs !! i) as [o'|] eqn:Hi.
  - intros [= ->]. exists i. split; [lia|]. split; [exact Hi|]. intros; lia.
  - intros Hf. destruct (IH (S i) Hf) as (j & Hj & Ho & Hnone).
    exists j. split; [lia|]. split; [exact Ho|].
    intros k Hk. destruct (decide (k = i)) as [->|Hne]; [exact Hi|]. apply Hnone. lia.
Qed.

Lemma aov_args_lookup outputs (types : list nat) (i type : nat) :
  types !! i = Some type ->
  flat_map (aov_args outputs) types !! (2 * i)%nat
  = Some (AInt (match outputs !! type with Some _ => 1 | None => 0 end)) /\
  flat_map (aov_args outputs) types !! (S (2 * i))
  = Some (match outputs !! type with
          | Some aov => AOutput aov
          | None => ABuffer hitcount
          end).
Proof.
  revert i. induction types as [|x types IH]; intros i Hi; [discriminate Hi|].
  destruct i as [|i].
  - cbn in Hi. injection Hi as ->. cbn [flat_map]. unfold aov_args.
    destruct (outputs !! type); split; reflexivity.
  - cbn in Hi. destruct (IH i Hi) as [Heven Hodd].
    cbn [flat_map]. replace (2 * S i)%nat with (S (S (2 * i))) by lia.
    unfold aov_args at 1 3. destruct (outputs !! x); cbn [app lookup list_lookup];
      split; assumption.
Qed.

Lemma aov_args_length outputs (types : list nat) :
  length (flat_map (aov_args outputs) types) = (2 * length types)%nat.
Proof.
  induction types as [|x types IH]; [reflexivity|].
  cbn [flat_map]. rewrite length_app, IH. unfold aov_args.
  destruct (outputs !! x); cbn [length]; lia.
Qed.

(** X17.  [FillAOVs] takes the dimensions of the colour output, or, when
    no colour output is bound, of the bound auxiliary output of the lowest
    type.  It generates the primary rays, queries the intersections of as
    many rays as that output has pixels, and launches the kernel FillAOVs
    over that output with 19 arguments followed by two for every
    auxiliary type below [kMax]: the flag 1 and the data of the output
    bound to the type, or the flag 0 and the buffer [hitcount] as a
    dummy. *)
Theorem FillAOVs_takes_first_output (scene : ClwScene) (s s' : PtRenderer) :
  FillAOVs scene s = Ret tt s' ->
  exists (output : Output) (gen : Event float3) (args : list KArg),
    aov_dimensions_of (m_outputs s) output /\
    events_since s s'
    = [gen;
       EvQueryIntersection (rays 0) (NumRaysInt (to_int32 (pixels output))) intersections;
       EvLaunch1D "FillAOVs" args (launch_size output) 64] /\
    dispatch_of gen = Some (Kernel (generate_kernel scene)) /\
    length args = (19 + 2 * (kMax - 1))%nat /\
    forall type : nat, (1 <= type < kMax)%nat ->
      args !! (19 + 2 * (type - 1))%nat
      = Some (AInt (match m_outputs s !! type with Some _ => 1 | None => 0 end)) /\
      args !! (20 + 2 * (type - 1))%nat
      = Some (match m_outputs s !! type with
              | Some aov => AOutput aov
              | None => ABuffer hitcount
              end).
Proof.
  intros E. unfold FillAOVs in E. cbv [bind GetOutput gets] in E.
  destruct (match m_outputs s !! kColor with
            | Some o => Some o
            | None => first_bound_output (m_outputs s) (kMax - 1) 1
            end) as [output|] eqn:Hf; [|discriminate E].
  assert (Hdim : aov_dimensions_of (m_outputs s) output).
  { destruct (m_outputs s !! kColor) as [o|] eqn:Hc.
    - left. congruence.
    - right. split; [exact Hc|].
      apply first_bound_output_Some in Hf as (j & Hj & Ho & Hnone).
      exists j. split; [lia|]. by split. }
  destruct s as [outs rd nb fc rc evs0].
  cbv [deref ret GeneratePrimaryRays bind rand_uint gets emit modify
       m_outputs m_render_data m_num_bounces m_framecnt rand_calls events] in E.
  injection E as <-.
  eexists output, _, _. split; [exact Hdim|].
  split; [unfold events_since; cbn [events]; rewrite <- !app_assoc, drop_app_length;
          reflexivity|].
  split; [reflexivity|]. split.
  - cbn [length]. rewrite aov_args_length, length_seq. lia.
  - intros type Ht. cbn [m_outputs].
    destruct (aov_args_lookup outs (seq 1 (kMax - 1)) (type - 1) type) as [H0' H1'].
    { rewrite lookup_seq. split; lia. }
    split.
    + change (19 + 2 * (type - 1))%nat with (Nat.iter 19 S (2 * (type - 1))%nat).
      cbn [Nat.iter nat_rect lookup list_lookup]. exact H0'.
    + change (20 + 2 * (type - 1))%nat with (Nat.iter 19 S (S (2 * (type - 1)))).
      cbn [Nat.iter nat_rect lookup list_lookup]. exact H1'.
Qed.

Lemma pass_queries pass envmapidx :
  intersection_queries (pass_dispatches pass envmapidx) = 1 /\
  occlusion_queries (pass_dispatches pass envmapidx) = 1.
Proof.
  unfold pass_dispatches.
  destruct ((0 <? pass) && (-1 <? envmapidx)), (pass =? 0); split; reflexivity.
Qed.

Lemma intersection_queries_app a b :
  intersection_queries (a ++ b) = intersection_queries a + intersection_queries b.
Proof. unfold intersection_queries. rewrite filter_app, length_app. lia. Qed.

Lemma occlusion_queries_app a b :
  occlusion_queries (a ++ b) = occlusion_queries a + occlusion_queries b.
Proof. unfold occlusion_queries. rewrite filter_app, length_app. lia. Qed.

Lemma passes_queries envmapidx (passes : list Z) :
  intersection_queries (flat_map (fun pass => pass_dispatches pass envmapidx) passes)
  = Z.of_nat (length passes) /\
  occlusion_queries (flat_map (fun pass => pass_dispatches pass envmapidx) passes)
  = Z.of_nat (length passes).
Proof.
  induction passes as [|p passes [IHi IHo]]; [by split|].
  cbn [flat_map length]. rewrite intersection_queries_app, occlusion_queries_app, IHi, IHo.
  destruct (pass_queries p envmapidx) as [-> ->]. lia.
Qed.

(** X20.  The queries of a frame.  With a colour output bound and
    [num_bounces] not negative, [Render] issues one intersection query and
    one occlusion query per bounce, and one more intersection query when an
    auxiliary output is bound. *)
Theorem frame_query_count (scene : Scene1) (s : PtRenderer) (out : Output) :
  m_outputs s !! kColor = Some out ->
  0 <= m_num_bounces s ->
  exists s',
    Render scene s = Ret tt s' /\
    intersection_queries (dispatches (events_since s s'))
    = m_num_bounces s + (if aov_pass_needed (m_outputs s) then 1 else 0) /\
    occlusion_queries (dispatches (events_since s s')) = m_num_bounces s.
Proof.
  intros Hc Hn.
  destruct (Render_runs scene s) as (s' & evs & E & _ & _ & _ & _ & He & Hd).
  exists s'. split; [exact E|].
  unfold events_since. rewrite He, drop_app_length, Hd.
  unfold frame_dispatches. rewrite Hc.
  destruct (passes_queries (envmapidx (CompileScene scene)) (seqZ 0 (m_num_bounces s)))
    as [Hi Ho].
  rewrite length_seqZ in Hi, Ho.
  change (Kernel (generate_kernel (CompileScene scene))
          :: flat_map (fun pass => pass_dispatches pass (envmapidx (CompileScene scene)))
               (seqZ 0 (m_num_bounces s)))
    with ([Kernel (generate_kernel (CompileScene scene))]
          ++ flat_map (fun pass => pass_dispatches pass (envmapidx (CompileScene scene)))
               (seqZ 0 (m_num_bounces s))).
  rewrite !intersection_queries_app, !occlusion_queries_app, Hi, Ho.
  destruct (aov_pass_needed (m_outputs s)).
  - change (intersection_queries [Kernel (generate_kernel (CompileScene scene))]) with 0.
    change (occlusion_queries [Kernel (generate_kernel (CompileScene scene))]) with 0.
    change (intersection_queries (aov_dispatches (CompileScene scene))) with 1.
    change (occlusion_queries (aov_dispatches (CompileScene scene))) with 0.
    lia.
  - change (intersection_queries [Kernel (generate_kernel (CompileScene scene))]) with 0.
    change (occlusion_queries [Kernel (generate_kernel (CompileScene scene))]) with 0.
    change (intersection_queries []) with 0. change (occlusion_queries []) with 0.
    lia.
Qed.

End BenchmarkFacts.

(** X16 on the renderer with a colour output of 4 by 4, for two passes. *)
Lemma RunBenchmark_dispatches_witness :
  exists s',
    RunBenchmark sample_scene 2 color_renderer = Ret (2, (4, 4)) s' /\
    dispatches (events_since color_renderer s')
    = [Kernel "PerspectiveCamera_GeneratePaths"; IntersectionQuery; IntersectionQuery;
       Kernel "FilterPathStream"; Compaction; Kernel "RestorePixelIndices";
       Kernel "ShadeSurface"; Kernel "ShadeMiss"; OcclusionQuery; OcclusionQuery;
       Kernel "GatherLightSamples"; IntersectionQuery; IntersectionQuery;
       Kernel "FilterPathStream"; Compaction; Kernel "RestorePixelIndices";
       Kernel "ShadeSurface"; Kernel "ShadeMiss"; OcclusionQuery;
       Kernel "GatherLightSamples"].
Proof.
  destruct (@RunBenchmark_dispatches fixed_point sample_host sample_scene 2 color_renderer
              (output_of 1 4 4)) as (s' & E & Hd & _).
  - vm_compute. reflexivity.
  - exists s'. split; [exact E|]. rewrite Hd. reflexivity.
Defined.

(** X17 on the renderer with one auxiliary output of 4 by 4 and no colour
    output: the kernel is launched over 16 items, rounded up to 64, with
    31 arguments. *)
Lemma FillAOVs_takes_first_output_witness :
  exists (gen : Event float3) (args : list KArg),
    events_since aov_only_renderer
      (state_after (FillAOVs sample_scene aov_only_renderer) aov_only_renderer)
    = [gen; EvQueryIntersection (rays 0) (NumRaysInt 16) intersections;
       EvLaunch1D "FillAOVs" args 64 64] /\
    length args = 31%nat.
Proof.
  pose (s' := state_after (FillAOVs sample_scene aov_only_renderer) aov_only_renderer).
  destruct (@FillAOVs_takes_first_output fixed_point sample_host sample_scene
              aov_only_renderer s')
    as (output & gen & args & Hdim & Hev & _ & Hlen & _).
  - apply returned. vm_compute. reflexivity.
  - assert (Hout : output = output_of 1 4 4).
    { destruct Hdim as [Hc|(_ & type & Ht & Ho & _)]; [vm_compute in Hc; discriminate|].
      cbn [kMax sample_host] in Ht.
      destruct type as [|[|[|[|[|[|[|type]]]]]]]; try lia;
        vm_compute in Ho; first [discriminate Ho | injection Ho as <-; reflexivity]. }
    subst output. exists gen, args. split; [exact Hev | exact Hlen].
Defined.

(** X19 on the small world: its four faces are told apart. *)
Lemma face_identity_tells_primitive_witness :
  exists facedata,
    process_facedata small_world = Some facedata /\
    forall (i j : nat) (fi fj : Face),
      (i < 4)%nat -> (j < 4)%nat ->
      facedata !! i = Some fi -> facedata !! j = Some fj ->
      shapeidx fi = shapeidx fj -> id fi = id fj -> i = j.
Proof.
  edestruct (face_identity_tells_primitive small_world) as (fd & Efd & Hfaces).
  - vm_compute. reflexivity.
  - vm_compute. reflexivity.
  - intros x Hx. simpl in Hx.
    rewrite !elem_of_cons, elem_of_nil in Hx.
    destruct Hx as [->|[->|[->|[->|[]]]]]; simpl; lia.
  - apply (bool_decide_unpack (NoDup _)). vm_compute. exact I.
  - exists fd. split; [exact Efd|].
    intros i j fi fj Hi Hj Li Lj Hs Hid.
    assert (Hx : forall k : nat, (k < 4)%nat -> [0; 1; 2; 3] !! k = Some (Z.of_nat k)).
    { intros [|[|[|[|k]]]] Hk; try lia; reflexivity. }
    pose proof (Hfaces i j (Z.of_nat i) (Z.of_nat j) fi fj (Hx i Hi) (Hx j Hj) Li Lj Hs Hid).
    lia.
Defined.

(** X20 on the renderer with a colour output and two bounces. *)
Lemma frame_query_count_witness :
  exists s',
    Render envmap_scene color_renderer = Ret tt s' /\
    intersection_queries (dispatches (events_since color_renderer s')) = 2 /\
    occlusion_queries (dispatches (events_since color_renderer s')) = 2.
Proof.
  apply (@frame_query_count fixed_point sample_host envmap_scene color_renderer
           (output_of 1 4 4)).
  - vm_compute. reflexivity.
  - vm_compute. discriminate.
Defined.

(** ** The options of the builder *)

Ltac other_options :=
  repeat match goal with
  | |- context [<[?i := ?x]> ?m !! ?j] =>
    rewrite (lookup_insert_ne m i j x) by discriminate
  end.

Section BuilderCoverage.
Context `{Numerics}.

(** X21.  Which options the builder ignores.  Without options [Process]
    makes [Bvh(10.f, 64, false)].  When "bvh.sah.use_splits" is set and
    positive, a [SplitBvh] is made and the option "bvh.builder" has no
    influence; when it is absent or not positive, a [Bvh] is made and the
    options "bvh.sah.max_split_depth", "bvh.sah.min_overlap" and
    "bvh.sah.extra_node_budget" have no influence. *)
Theorem unused_builder_options (o : gmap string OptionValue) (v : OptionValue) :
  select_builder ∅ = NewBvh lit_10f 64 false /\
  (forall splits,
     o !! "bvh.sah.use_splits" = Some splits -> float_gt_zero (AsFloat splits) = true ->
     (exists tcost nbins depth overlap budget,
        select_builder o = NewSplitBvh tcost nbins depth overlap budget) /\
     select_builder (<["bvh.builder" := v]> o) = select_builder o) /\
  ((forall splits,
      o !! "bvh.sah.use_splits" = Some splits -> float_gt_zero (AsFloat splits) = false) ->
   (exists tcost nbins use_sah, select_builder o = NewBvh tcost nbins use_sah) /\
   select_builder (<["bvh.sah.max_split_depth" := v]> o) = select_builder o /\
   select_builder (<["bvh.sah.min_overlap" := v]> o) = select_builder o /\
   select_builder (<["bvh.sah.extra_node_budget" := v]> o) = select_builder o).
Proof.
  split; [|split].
  - unfold select_builder, GetOption. by rewrite !lookup_empty.
  - intros splits Hs Hpos. unfold select_builder, GetOption. cbv zeta.
    other_options. rewrite Hs, Hpos.
    split; [by eexists _, _, _, _, _ | reflexivity].
  - intros Hno. unfold select_builder, GetOption. cbv zeta.
    other_options.
    destruct (o !! "bvh.sah.use_splits") as [splits|] eqn:Hs.
    + rewrite (Hno splits eq_refl). split; [by eexists _, _, _|].
      split; [reflexivity|]. split; reflexivity.
    + split; [by eexists _, _, _|]. split; [reflexivity|]. split; reflexivity.
Qed.

End BuilderCoverage.
